(** * CPS catalog portal: the override resolution views

    A shallow embedding of the two SQL views [cps.v_cps_catalog_effective]
    and [cps.v_cps_catalog_effective_validated] (as created by the
    migrations [update_view_for_apply_for_all.sql] and
    [update_views_for_device_type.sql]), of the change-log page of the
    front end ([ChangesLog.jsx], [FieldEditor], [DeviceDetails]) and of the
    override-log operations the front end calls.

    Conventions.  SQL [NULL] is [None].  Column [apply_for_all] is nullable
    (it is added by [ADD COLUMN ... BOOLEAN DEFAULT FALSE] without
    [NOT NULL], and both views test it with [IS NULL]); the attribute
    columns of the gold table are nullable; the other columns of the
    override table ([id], [device_uuid], [cps_id], [field_name],
    [new_value], [is_validated], [changed_at]) are taken to be non-NULL.
    Timestamps are integers (milliseconds). *)

From Stdlib Require Import ZArith List String Ascii Bool Lia Sorted.
From Stdlib Require Import Permutation.
From Stdlib Require OrderedTypeEx.
Import ListNotations.
Local Open Scope string_scope.
Local Open Scope list_scope.
Local Open Scope Z_scope.

(* ------------------------------------------------------------------ *)
(** ** SQL building blocks *)
(* ------------------------------------------------------------------ *)

Module Sql.

(** Three-valued truth values: [None] is SQL's unknown. *)
Definition eq_bool (a : option bool) (b : bool) : option bool :=
  match a with
  | Some x => Some (Bool.eqb x b)
  | None => None
  end.

Definition is_null {A : Type} (a : option A) : option bool :=
  match a with
  | Some _ => Some false
  | None => Some true
  end.

Definition or3 (a b : option bool) : option bool :=
  match a, b with
  | Some true, _ => Some true
  | _, Some true => Some true
  | Some false, Some false => Some false
  | _, _ => None
  end.

Definition and3 (a b : option bool) : option bool :=
  match a, b with
  | Some false, _ => Some false
  | _, Some false => Some false
  | Some true, Some true => Some true
  | _, _ => None
  end.

(** A [WHERE] or [ON] clause keeps a row only when its condition is true
    (neither false nor unknown). *)
Definition holds (c : option bool) : bool :=
  match c with
  | Some true => true
  | _ => false
  end.

(** [NULLIF(a, b)]: NULL when [a = b], else [a]. *)
Definition NULLIF (a : option string) (b : string) : option string :=
  match a with
  | Some s => if String.eqb s b then None else Some s
  | None => None
  end.

(** [COALESCE(a1, ..., an)]: the first argument that is not NULL. *)
Fixpoint COALESCE (args : list (option string)) : option string :=
  match args with
  | [] => None
  | Some s :: _ => Some s
  | None :: rest => COALESCE rest
  end.

(** Position (from 0) of the argument [COALESCE] returns; the number of
    arguments when all are NULL. *)
Fixpoint COALESCE_pos (args : list (option string)) : nat :=
  match args with
  | [] => O
  | Some _ :: _ => O
  | None :: rest => S (COALESCE_pos rest)
  end.

(** Sort keys.  A comparison [Lt] puts the left row first. *)
Definition desc_bool (a b : bool) : comparison :=
  match a, b with
  | true, false => Lt
  | false, true => Gt
  | _, _ => Eq
  end.

Definition desc_Z (a b : Z) : comparison := Z.compare b a.

Definition then_by (c1 c2 : comparison) : comparison :=
  match c1 with
  | Eq => c2
  | _ => c1
  end.

Section OrderBy.
Context {A : Type}.
Variable cmp : A -> A -> comparison.

(** [ORDER BY]: a stable insertion sort under [cmp].  Rows that compare
    equal keep their order; the windows of the views sort by [id] last, so
    only rows with the same [id] can compare equal. *)
Fixpoint insert (a : A) (l : list A) : list A :=
  match l with
  | [] => [a]
  | b :: l' =>
      match cmp a b with
      | Gt => b :: insert a l'
      | _ => a :: b :: l'
      end
  end.

Fixpoint order_by (l : list A) : list A :=
  match l with
  | [] => []
  | a :: l' => insert a (order_by l')
  end.

(** [ROW_NUMBER() OVER (PARTITION BY ... ORDER BY ...)] inside one
    partition: the sorted rows numbered from 1. *)
Definition row_number (partition : list A) : list (nat * A) :=
  let sorted := order_by partition in
  combine (seq 1 (List.length sorted)) sorted.

End OrderBy.

(** [LEFT JOIN cte l ON <partition keys> AND l.rn = 1]: the row numbered 1
    of the partition, or an all-NULL row ([None]) when there is none. *)
Definition left_join_rn1 {A : Type} (numbered : list (nat * A)) : option A :=
  match find (fun p => Nat.eqb (fst p) 1) numbered with
  | Some p => Some (snd p)
  | None => None
  end.

(** Evaluation of a query either yields a value or raises. *)
Inductive result (A : Type) : Type :=
| Ok (a : A)
| Raise (msg : string).
Arguments Ok {A} a.
Arguments Raise {A} msg.

End Sql.

(* ------------------------------------------------------------------ *)
(** ** Tables *)
(* ------------------------------------------------------------------ *)

(** The overridable columns of the views. *)
Module Col.
Inductive t : Type :=
| vendor | model | hw_versions | sw_versions | os_names | os_versions
| os_revisions | manufacturer_product_code | cps_vector | is_eol
| potential_cves | needs_vendor | certified_patches
| pre_installed_applications | links | image_url | category
| sub_category | device_type | network_type | risk_score
| patching_responsibility.

(** The literal each join compares [field_name] with. *)
Definition field_name (c : t) : string :=
  match c with
  | vendor => "vendor"
  | model => "model"
  | hw_versions => "hw_versions"
  | sw_versions => "sw_versions"
  | os_names => "os_names"
  | os_versions => "os_versions"
  | os_revisions => "os_revisions"
  | manufacturer_product_code => "manufacturer_product_code"
  | cps_vector => "cps_vector"
  | is_eol => "is_eol"
  | potential_cves => "potential_cves"
  | needs_vendor => "needs_vendor"
  | certified_patches => "certified_patches"
  | pre_installed_applications => "pre_installed_applications"
  | links => "links"
  | image_url => "image_url"
  | category => "category"
  | sub_category => "sub_category"
  | device_type => "device_type"
  | network_type => "network_type"
  | risk_score => "risk_score"
  | patching_responsibility => "patching_responsibility"
  end.

Definition is_numeric (c : t) : bool :=
  match c with
  | risk_score => true
  | _ => false
  end.
End Col.

(** [cps.user_input_cps_catalog u]: one row per submitted edit. *)
Module U.
Record t : Type := mk {
  id : Z;
  device_uuid : string;
  cps_id : string;
  field_name : string;
  new_value : string;
  is_validated : bool;
  changed_at : Z;
  apply_for_all : option bool;
  editor_user_id : string;
  editor_user_name : string;
  note : option string
}.
End U.

(** [cps.cps_catalog_gold g]: one row per device.  [attr c] is the text of
    attribute column [c] ([g.risk_score::text] and [g.device_type::text]
    for the two columns the views cast). *)
Module G.
Record t : Type := mk {
  device_uuid : string;
  cps_id : string;
  attr : Col.t -> option string
}.
End G.

(* ------------------------------------------------------------------ *)
(** ** The views *)
(* ------------------------------------------------------------------ *)

(** The two migrations that create the views, and the two views each of
    them creates. *)
Inductive migration : Type :=
| update_view_for_apply_for_all
| update_views_for_device_type.

Inductive view : Type :=
| v_cps_catalog_effective
| v_cps_catalog_effective_validated.

Module View.
Import Sql.

(** Output columns of the views of each migration. *)
Definition columns (m : migration) : list Col.t :=
  match m with
  | update_view_for_apply_for_all =>
      [Col.vendor; Col.model; Col.hw_versions; Col.sw_versions;
       Col.os_names; Col.os_versions; Col.os_revisions;
       Col.manufacturer_product_code; Col.cps_vector; Col.is_eol;
       Col.potential_cves; Col.needs_vendor; Col.certified_patches;
       Col.pre_installed_applications; Col.links; Col.image_url;
       Col.category; Col.sub_category; Col.network_type; Col.risk_score;
       Col.patching_responsibility]
  | update_views_for_device_type =>
      [Col.vendor; Col.model; Col.hw_versions; Col.sw_versions;
       Col.os_names; Col.os_versions; Col.os_revisions;
       Col.manufacturer_product_code; Col.cps_vector; Col.is_eol;
       Col.potential_cves; Col.needs_vendor; Col.certified_patches;
       Col.pre_installed_applications; Col.links; Col.image_url;
       Col.category; Col.device_type; Col.network_type;
       Col.patching_responsibility]
  end.

(** [u.apply_for_all = FALSE OR u.apply_for_all IS NULL] *)
Definition device_scope (u : U.t) : option bool :=
  or3 (eq_bool (U.apply_for_all u) false) (is_null (U.apply_for_all u)).

(** [u.apply_for_all = TRUE] *)
Definition cps_id_scope (u : U.t) : option bool :=
  eq_bool (U.apply_for_all u) true.

(** [u.is_validated = true] *)
Definition validated (u : U.t) : option bool :=
  Some (Bool.eqb (U.is_validated u) true).

(** The [WHERE] clause of CTE [latest_device]. *)
Definition latest_device_where (m : migration) (v : view) (u : U.t)
  : option bool :=
  match v, m with
  | v_cps_catalog_effective, _ => device_scope u
  | v_cps_catalog_effective_validated, update_view_for_apply_for_all =>
      and3 (validated u) (device_scope u)
  | v_cps_catalog_effective_validated, update_views_for_device_type =>
      and3 (device_scope u) (validated u)
  end.

(** The [WHERE] clause of CTE [latest_cps_id]. *)
Definition latest_cps_id_where (m : migration) (v : view) (u : U.t)
  : option bool :=
  match v, m with
  | v_cps_catalog_effective, _ => cps_id_scope u
  | v_cps_catalog_effective_validated, update_view_for_apply_for_all =>
      and3 (validated u) (cps_id_scope u)
  | v_cps_catalog_effective_validated, update_views_for_device_type =>
      and3 (cps_id_scope u) (validated u)
  end.

(** The [ORDER BY] of the window:
    [u.is_validated DESC, u.changed_at DESC, u.id DESC] in the effective
    view, [u.changed_at DESC, u.id DESC] in the validated one. *)
Definition window_order (v : view) (a b : U.t) : comparison :=
  match v with
  | v_cps_catalog_effective =>
      then_by (desc_bool (U.is_validated a) (U.is_validated b))
        (then_by (desc_Z (U.changed_at a) (U.changed_at b))
           (desc_Z (U.id a) (U.id b)))
  | v_cps_catalog_effective_validated =>
      then_by (desc_Z (U.changed_at a) (U.changed_at b))
        (desc_Z (U.id a) (U.id b))
  end.

(** The [FROM] clause of CTE [latest_cps_id], each row paired with the
    [cps_id] the window partitions by: [u.cps_id] of the override row
    itself in [update_view_for_apply_for_all]; [g.cps_id] of the gold row
    joined on [u.device_uuid = g.device_uuid] in
    [update_views_for_device_type]. *)
Definition latest_cps_id_from (m : migration) (gold : list G.t)
    (log : list U.t) : list (string * U.t) :=
  match m with
  | update_view_for_apply_for_all =>
      map (fun u => (U.cps_id u, u)) log
  | update_views_for_device_type =>
      flat_map
        (fun u =>
           map (fun g => (G.cps_id g, u))
             (filter
                (fun g => String.eqb (U.device_uuid u) (G.device_uuid g))
                gold))
        log
  end.

(** The partition [(device_uuid, field_name)] of CTE [latest_device]. *)
Definition device_partition (m : migration) (v : view) (log : list U.t)
    (device_uuid field_name : string) : list U.t :=
  filter
    (fun u => String.eqb (U.device_uuid u) device_uuid
              && String.eqb (U.field_name u) field_name)
    (filter (fun u => holds (latest_device_where m v u)) log).

(** The partition [(cps_id, field_name)] of CTE [latest_cps_id]. *)
Definition cps_id_partition (m : migration) (v : view) (gold : list G.t)
    (log : list U.t) (cps_id field_name : string) : list U.t :=
  map snd
    (filter
       (fun r => String.eqb (fst r) cps_id
                 && String.eqb (U.field_name (snd r)) field_name)
       (filter (fun r => holds (latest_cps_id_where m v (snd r)))
          (latest_cps_id_from m gold log))).

(** [LEFT JOIN latest_device l ON l.device_uuid = g.device_uuid
      AND l.field_name = '<column>' AND l.rn = 1] *)
Definition latest_device (m : migration) (v : view) (log : list U.t)
    (g : G.t) (c : Col.t) : option U.t :=
  left_join_rn1
    (row_number (window_order v)
       (device_partition m v log (G.device_uuid g) (Col.field_name c))).

(** [LEFT JOIN latest_cps_id l ON l.cps_id = g.cps_id
      AND l.field_name = '<column>' AND l.rn = 1] *)
Definition latest_cps_id (m : migration) (v : view) (gold : list G.t)
    (log : list U.t) (g : G.t) (c : Col.t) : option U.t :=
  left_join_rn1
    (row_number (window_order v)
       (cps_id_partition m v gold log (G.cps_id g) (Col.field_name c))).

(** The three arguments of the column's [COALESCE]. *)
Definition candidates (dev cps : option U.t) (base : option string)
  : list (option string) :=
  [NULLIF (option_map U.new_value dev) EmptyString;
   NULLIF (option_map U.new_value cps) EmptyString;
   base].

(** [COALESCE(NULLIF(l_<c>_dev.new_value, ''),
             NULLIF(l_<c>_cps.new_value, ''), g.<c>)] *)
Definition column_text (m : migration) (v : view) (gold : list G.t)
    (log : list U.t) (g : G.t) (c : Col.t) : option string :=
  COALESCE
    (candidates (latest_device m v log g c)
       (latest_cps_id m v gold log g c) (G.attr g c)).

(** Which source the column's value comes from. *)
Inductive source : Type :=
| from_device (u : U.t)
| from_cps_id (u : U.t)
| from_gold.

Definition column_source (m : migration) (v : view) (gold : list G.t)
    (log : list U.t) (g : G.t) (c : Col.t) : source :=
  let dev := latest_device m v log g c in
  let cps := latest_cps_id m v gold log g c in
  match COALESCE_pos (candidates dev cps (G.attr g c)), dev, cps with
  | O, Some u, _ => from_device u
  | S O, _, Some u => from_cps_id u
  | _, _, _ => from_gold
  end.

(** *** The numeric column

    In [update_view_for_apply_for_all] the column [risk_score] is
    [COALESCE(...)::numeric(4, 1)]: the cast is applied to whatever text the
    [COALESCE] returned.  A cast takes the text (or NULL) and yields the
    number in tenths, or raises. *)

Inductive cell : Type :=
| text (s : option string)
| numeric (tenths : option Z).

Definition column_value (cast : option string -> result (option Z))
    (m : migration) (v : view) (gold : list G.t) (log : list U.t)
    (g : G.t) (c : Col.t) : result cell :=
  if Col.is_numeric c then
    match cast (column_text m v gold log g c) with
    | Ok n => Ok (numeric n)
    | Raise e => Raise e
    end
  else Ok (text (column_text m v gold log g c)).

(** Evaluating a list of expressions raises as soon as one of them does. *)
Fixpoint all_ok {A : Type} (l : list (result A)) : result (list A) :=
  match l with
  | [] => Ok []
  | Raise e :: _ => Raise e
  | Ok a :: rest =>
      match all_ok rest with
      | Ok r => Ok (a :: r)
      | Raise e => Raise e
      end
  end.

(** The row of the view for gold row [g]: every column of the select list. *)
Definition select_row (cast : option string -> result (option Z))
    (m : migration) (v : view) (gold : list G.t) (log : list U.t)
    (g : G.t) : result (list cell) :=
  all_ok (map (column_value cast m v gold log g) (columns m)).

(** [SELECT * FROM <view>]: one row per row of the gold table. *)
Definition select_all (cast : option string -> result (option Z))
    (m : migration) (v : view) (gold : list G.t) (log : list U.t)
    : result (list (list cell)) :=
  all_ok (map (select_row cast m v gold log) gold).

End View.

(** A cast [text -> numeric(4, 1)] for plain decimal literals
    ([sign] digits [. digits], blanks around): the value is rounded to one
    decimal, half away from zero, and must stay below 10^3 in magnitude.
    Every text that is not such a literal raises here; the spellings with an
    exponent or the special values of PostgreSQL's numeric are outside this
    instance (the statements on [column_value] hold for every cast). *)
Module Numeric.
Import Sql.

Definition is_space (c : ascii) : bool :=
  let n := nat_of_ascii c in
  (Nat.eqb n 32 || (Nat.leb 9 n && Nat.leb n 13))%bool.

Definition digit_of (c : ascii) : option Z :=
  let n := Z.of_nat (nat_of_ascii c) in
  if (48 <=? n) && (n <=? 57) then Some (n - 48) else None.

Fixpoint skip_spaces (s : string) : string :=
  match s with
  | String c r => if is_space c then skip_spaces r else s
  | EmptyString => s
  end.

(** The leading digits of [s], and what follows them. *)
Fixpoint digits (s : string) : list Z * string :=
  match s with
  | String c r =>
      match digit_of c with
      | Some d => let (ds, rest) := digits r in (d :: ds, rest)
      | None => ([], s)
      end
  | EmptyString => ([], s)
  end.

Definition sign (s : string) : bool * string :=
  match s with
  | String "-" r => (true, r)
  | String "+" r => (false, r)
  | _ => (false, s)
  end.

Definition to_Z (ds : list Z) : Z := fold_left (fun acc d => acc * 10 + d) ds 0.

(** The literal in tenths, rounded half away from zero. *)
Definition decimal_tenths (s : string) : option Z :=
  let (neg, s1) := sign (skip_spaces s) in
  let (ip, s2) := digits s1 in
  let (fp, s3) :=
    match s2 with
    | String "." r => digits r
    | _ => ([], s2)
    end in
  match ip, fp with
  | [], [] => None
  | _, _ =>
      match skip_spaces s3 with
      | EmptyString =>
          let mag := to_Z ip * 10 + nth 0 fp 0
                     + (if 5 <=? nth 1 fp 0 then 1 else 0) in
          Some (if neg then - mag else mag)
      | _ => None
      end
  end.

Definition numeric_4_1 (t : option string) : result (option Z) :=
  match t with
  | None => Ok None
  | Some s =>
      match decimal_tenths s with
      | None => Raise "invalid input syntax for type numeric"
      | Some n =>
          if Z.abs n <? 10000 then Ok (Some n)
          else Raise "numeric field overflow"
      end
  end.

End Numeric.

(* ------------------------------------------------------------------ *)
(** ** The override log behind the API *)
(* ------------------------------------------------------------------ *)

Module OverrideLog.

Inductive error : Type :=
| InvalidField
| InvalidValue
| NotFound
| StorageError.

Inductive field_type : Type :=
| text_field | enumerated_choice | multi_choice | numeric_field
| structured_list | boolean_field.

(** Modelled from the spec: the Field Type Registry is an external
    collaborator; a descriptor carries the name, the type, the enumerated
    options and the protected flag of a field. *)
Record FieldDescriptor : Type := {
  name : string;
  type : field_type;
  enumerated_options : list string;
  protected : bool
}.

(** Modelled from the spec: the two operations consumed from the Field Type
    Registry, [Describe(field_name) -> FieldDescriptor | NotFound] and
    [Coerce(field_name, raw_value) -> typed_value | CoercionError]. *)
Record registry : Type := {
  Describe : string -> option FieldDescriptor;
  Coerce : string -> string -> option string
}.

(** Modelled from the spec: the persisted override log with the next
    identifier the store will assign (identifiers are assigned
    monotonically at insertion). *)
Record store : Type := {
  log : list U.t;
  next_id : Z
}.

(** The body of [POST /device/override] as [catalogAPI.commitOverride] sends
    it, with the fields the server adds (group of the device, trust flag,
    note, time of submission). *)
Record submission : Type := {
  device_uuid : string;
  cps_id : string;
  field_name : string;
  new_value : string;
  apply_for_all : bool;
  is_validated : bool;
  editor_user_id : string;
  editor_user_name : string;
  note : option string;
  changed_at : Z
}.

Definition stored (id : Z) (e : submission) : U.t :=
  U.mk id (device_uuid e) (cps_id e) (field_name e) (new_value e)
    (is_validated e) (changed_at e) (Some (apply_for_all e))
    (editor_user_id e) (editor_user_name e) (note e).

(** Modelled from the spec: [Append(entry)], the handler behind
    [catalogAPI.commitOverride], which is not among the sources.  It rejects
    with [InvalidField] when [field_name] is unknown or protected, with
    [InvalidValue] when [new_value] fails the registry's coercion rule;
    otherwise it assigns the next identifier, persists the entry and returns
    it.  The result pairs the store afterwards with the outcome. *)
Definition Append (r : registry) (s : store) (e : submission)
  : store * (error + U.t) :=
  match Describe r (field_name e) with
  | None => (s, inl InvalidField)
  | Some d =>
      if protected d then (s, inl InvalidField)
      else
        match Coerce r (field_name e) (new_value e) with
        | None => (s, inl InvalidValue)
        | Some _ =>
            let u := stored (next_id s) e in
            ({| log := log s ++ [u]; next_id := next_id s + 1 |}, inr u)
        end
  end.

(** The log without the entry of identifier [id]
    ([DELETE FROM cps.user_input_cps_catalog WHERE id = <id>]). *)
Definition without (id : Z) (log : list U.t) : list U.t :=
  filter (fun u => negb (U.id u =? id)) log.

(** Modelled from the spec: [Delete(id)], the handler behind
    [catalogAPI.deleteChange] ([DELETE /changes/<id>]), which is not among
    the sources.  It removes the entry with that [id] and fails with
    [NotFound] when there is none. *)
Definition Delete (s : store) (id : Z) : store * (error + unit) :=
  if existsb (fun u => U.id u =? id) (log s) then
    ({| log := without id (log s); next_id := next_id s |}, inr tt)
  else (s, inl NotFound).

(** Modelled from the spec: [Revert(entry_id)] calls [Delete(entry_id)] and
    writes no compensating entry. *)
Definition Revert (s : store) (entry_id : Z) : store * (error + unit) :=
  Delete s entry_id.

End OverrideLog.

(* ------------------------------------------------------------------ *)
(** ** The front end *)
(* ------------------------------------------------------------------ *)

(** JavaScript string helpers.  A string is the sequence of bytes of its
    UTF-8 encoding. *)
Module Js.

(** [s.toLowerCase()] on ASCII text, where it maps the letters A-Z and
    nothing else.  The case mapping of the other letters of Unicode is
    outside this instance: [ChangesLog] takes [toLowerCase] as a parameter,
    and this instance serves the examples. *)
Definition lower_char (c : ascii) : ascii :=
  let n := nat_of_ascii c in
  if (Nat.leb 65 n && Nat.leb n 90)%bool then ascii_of_nat (n + 32) else c.

Fixpoint toLowerCase (s : string) : string :=
  match s with
  | EmptyString => EmptyString
  | String c r => String (lower_char c) (toLowerCase r)
  end.

(** [s.includes(sub)] *)
Fixpoint includes (s sub : string) : bool :=
  (String.prefix sub s
   || match s with
      | EmptyString => false
      | String _ r => includes r sub
      end)%bool.

(** [x || ''] for a string that may be null or undefined. *)
Definition or_empty (x : option string) : string :=
  match x with
  | Some s => s
  | None => EmptyString
  end.

(** Truthiness of a string: only the empty string is falsy. *)
Definition truthy (s : string) : bool := negb (String.eqb s EmptyString).

(** [array.includes(x)] on an array of strings. *)
Definition array_includes (a : list string) (x : string) : bool :=
  existsb (String.eqb x) a.

(** [array.slice(0, n)] *)
Definition slice0 {A : Type} (n : nat) (a : list A) : list A := firstn n a.

(** The UTF-8 encoding of a code point below U+10000. *)
Definition utf8 (code_point : N) : string :=
  if (code_point <? 128)%N then
    String (ascii_of_N code_point) EmptyString
  else if (code_point <? 2048)%N then
    String (ascii_of_N (192 + code_point / 64))
      (String (ascii_of_N (128 + code_point mod 64)) EmptyString)
  else
    String (ascii_of_N (224 + code_point / 4096))
      (String (ascii_of_N (128 + (code_point / 64) mod 64))
         (String (ascii_of_N (128 + code_point mod 64)) EmptyString)).

(** White space as [trim] sees it, the WhiteSpace and LineTerminator code
    points of ECMAScript: U+0009 to U+000D, U+0020, U+00A0, U+1680, U+2000
    to U+200A, U+2028, U+2029, U+202F, U+205F, U+3000 and U+FEFF.  Strings
    hold the UTF-8 encoding of the JavaScript string. *)
Definition white_space : list string :=
  map utf8
    [9; 10; 11; 12; 13; 32; 160; 5760; 8192; 8193; 8194; 8195; 8196; 8197;
     8198; 8199; 8200; 8201; 8202; 8232; 8233; 8239; 8287; 12288; 65279]%N.

Fixpoint reverse_onto (s acc : string) : string :=
  match s with
  | EmptyString => acc
  | String c r => reverse_onto r (String c acc)
  end.

Definition reverse (s : string) : string := reverse_onto s EmptyString.

(** Whether [s] starts with [p]. *)
Fixpoint has_prefix (p s : string) : bool :=
  match p, s with
  | EmptyString, _ => true
  | String a p', String b s' => Ascii.eqb a b && has_prefix p' s'
  | String _ _, EmptyString => false
  end.

(** The number of bytes of the first of [patterns] that [s] starts with;
    0 when it starts with none. *)
Definition starts_with (patterns : list string) (s : string) : nat :=
  match find (fun p => has_prefix p s) patterns with
  | Some p => String.length p
  | None => O
  end.

(** [s] without the run of [patterns] it starts with; [pending] counts the
    bytes still to drop of the pattern being dropped. *)
Fixpoint strip (patterns : list string) (pending : nat) (s : string)
  : string :=
  match s with
  | EmptyString => EmptyString
  | String _ r =>
      match pending with
      | S k => strip patterns k r
      | O =>
          match starts_with patterns s with
          | S k => strip patterns k r
          | O => s
          end
      end
  end.

Definition trimStart (s : string) : string := strip white_space 0 s.

Definition trimEnd (s : string) : string :=
  reverse (strip (map reverse white_space) 0 (reverse s)).

(** [s.trim()] *)
Definition trim (s : string) : string := trimEnd (trimStart s).

(** [s.split(sep)] for a separator of one character. *)
Fixpoint split (sep : ascii) (s : string) : list string :=
  match s with
  | EmptyString => [EmptyString]
  | String c r =>
      if Ascii.eqb c sep then EmptyString :: split sep r
      else
        match split sep r with
        | h :: t => String c h :: t
        | [] => [String c EmptyString]
        end
  end.

(** [array.join(sep)] on an array of strings. *)
Fixpoint join (sep : string) (a : list string) : string :=
  match a with
  | [] => EmptyString
  | [x] => x
  | x :: rest => x ++ sep ++ join sep rest
  end.

(** [array.sort()] on an array of strings: ascending by code units, which
    is the order of the bytes for the characters below U+E000. *)
Definition sort (a : list string) : list string :=
  Sql.order_by String.compare a.

(** [array.filter((_, i) => i !== index)] *)
Fixpoint remove_at {A : Type} (index : nat) (a : list A) : list A :=
  match a, index with
  | [], _ => []
  | _ :: rest, O => rest
  | x :: rest, S i => x :: remove_at i rest
  end.

(** [copy[index] = x] on a copy of the array, for an index in range. *)
Fixpoint set_at {A : Type} (index : nat) (x : A) (a : list A) : list A :=
  match a, index with
  | [], _ => []
  | _ :: rest, O => x :: rest
  | y :: rest, S i => y :: set_at i x rest
  end.

(** [[...new Set(a)]]: the distinct strings of [a], each at its first
    occurrence. *)
Fixpoint dedupe (a : list string) : list string :=
  match a with
  | [] => []
  | x :: rest => x :: filter (fun y => negb (String.eqb x y)) (dedupe rest)
  end.

(** [array.map((x, index) => f(x, index))], counting from [start]. *)
Fixpoint map_index_from {A B : Type} (start : nat) (f : A -> nat -> B)
    (a : list A) : list B :=
  match a with
  | [] => []
  | x :: rest => f x start :: map_index_from (S start) f rest
  end.

(** The values [JSON.parse] yields, and [undefined] for a property that is
    not there.  A number is the rational the parsed double is. *)
#[warnings="-register-all"]
Inductive value : Type :=
| JUndefined
| JNull
| JBool (b : bool)
| JNumber (q : Z * positive)
| JString (s : string)
| JArray (items : list value)
| JObject (fields : list (string * value)).

(** Truthiness of a value, as [||] and [filter] test it. *)
Definition value_truthy (x : value) : bool :=
  match x with
  | JUndefined | JNull => false
  | JBool b => b
  | JNumber (n, _) => negb (n =? 0)
  | JString s => truthy s
  | JArray _ | JObject _ => true
  end.

(** [a || b] *)
Definition or_else (a b : value) : value :=
  if value_truthy a then a else b.

Fixpoint lookup (key : string) (fields : list (string * value)) : value :=
  match fields with
  | [] => JUndefined
  | (k, x) :: rest => if String.eqb k key then x else lookup key rest
  end.

(** [item.key] for a key that no built-in prototype defines: [undefined]
    unless [item] is an object that has it; reading a property of [null]
    or [undefined] throws ([None]). *)
Definition property (item : value) (key : string) : option value :=
  match item with
  | JUndefined | JNull => None
  | JObject fields => Some (lookup key fields)
  | _ => Some JUndefined
  end.

End Js.

(** [DeviceDetails] and [FieldEditor]. *)
Module DeviceDetails.

Definition NON_EDITABLE_FIELDS : list string :=
  ["vendor"; "model"; "cps_id"; "cps_vector"; "hw_versions"; "sw_versions";
   "os_names"; "os_versions"; "os_revisions"].

Definition BLACKLISTED_FIELDS : list string := ["needs_vendor"; "risk_score"].

Definition PRIORITY_FIELDS : list string :=
  ["vendor"; "model"; "cps_id"; "manufacturer_product_code"; "cps_vector";
   "category"; "device_type"; "is_eol"; "potential_cves";
   "certified_patches"; "patching_responsibility";
   "pre_installed_applications"; "network_type"; "links"; "image_url"].

(** [Object.keys(device).filter((f) => !['created_at', 'updated_at',
    'device_uuid', ...BLACKLISTED_FIELDS].includes(f))] *)
Definition deviceFields (keys : list string) : list string :=
  filter
    (fun f =>
       negb (Js.array_includes
               (["created_at"; "updated_at"; "device_uuid"]
                ++ BLACKLISTED_FIELDS) f))
    keys.

(** The fields in the order the page renders them: the priority fields the
    device has, then the others sorted. *)
Definition sortedFields (keys : list string) : list string :=
  filter
    (fun f => Js.array_includes (deviceFields keys) f
              && negb (Js.array_includes BLACKLISTED_FIELDS f))
    PRIORITY_FIELDS
  ++ Js.sort
       (filter
          (fun f => negb (Js.array_includes PRIORITY_FIELDS f)
                    && negb (Js.array_includes BLACKLISTED_FIELDS f))
          (deviceFields keys)).

End DeviceDetails.

Module FieldEditor.

(** [const isReadOnly = nonEditableFields.includes(fieldName)] *)
Definition isReadOnly (nonEditableFields : list string) (fieldName : string)
  : bool :=
  Js.array_includes nonEditableFields fieldName.

(** The Save and Cancel buttons are rendered under
    [hasChanged && !isReadOnly]. *)
Definition save_rendered (hasChanged : bool) (nonEditableFields : list string)
    (fieldName : string) : bool :=
  hasChanged && negb (isReadOnly nonEditableFields fieldName).

Section ParseMultiselect.

(** [JSON.parse]: the parsed value, or [None] when it throws. *)
Variable JSON_parse : string -> option Js.value.

(** [parseMultiselectValue(val)]: [val] is null ([None]) or a string. *)
Definition parseMultiselectValue (val : option string) : list Js.value :=
  match val with
  | None => []
  | Some s =>
      if negb (Js.truthy s) then []
      else
        match JSON_parse s with
        | Some (Js.JArray parsed) => parsed
        | _ =>
            map Js.JString
              (filter Js.truthy (map Js.trim (Js.split "," s)))
        end
  end.

End ParseMultiselect.

(** [value.join(', ')] in [handleSave], for the array of option strings a
    multiselect holds. *)
Definition multiselect_valueToSave (value : list string) : string :=
  Js.join ", " value.

(** [formatDateValue(val, inputType)] *)
Definition formatDateValue (val inputType : string) : string :=
  if negb (Js.truthy val) then EmptyString
  else if String.eqb inputType "date" && Js.includes val "T" then
    hd EmptyString (Js.split "T" val)
  else if String.eqb inputType "datetime-local" && Js.truthy val
          && negb (Js.includes val "T") then
    val ++ "T00:00"
  else val.

End FieldEditor.

(** [CVETable.jsx]: the editable table of potential CVEs. *)
Module CVETable.

(** One row of the table. *)
Record item : Type := {
  cve : Js.value;
  relevance : Js.value
}.

Definition either_truthy (i : item) : bool :=
  Js.value_truthy (cve i) || Js.value_truthy (relevance i).

(** [{ cve: item.cve || item.CVE || '', relevance: item.relevance || '' }];
    [None] when reading the properties throws. *)
Definition of_parsed (x : Js.value) : option item :=
  match Js.property x "cve", Js.property x "CVE",
        Js.property x "relevance" with
  | Some a, Some b, Some r =>
      Some {| cve := Js.or_else (Js.or_else a b) (Js.JString EmptyString);
              relevance := Js.or_else r (Js.JString EmptyString) |}
  | _, _, _ => None
  end.

(** [parsed.map(...)]: throws when one of the elements does. *)
Fixpoint map_parsed (parsed : list Js.value) : option (list item) :=
  match parsed with
  | [] => Some []
  | x :: rest =>
      match of_parsed x, map_parsed rest with
      | Some i, Some r => Some (i :: r)
      | _, _ => None
      end
  end.

(** The legacy format: CVE identifiers separated by commas. *)
Definition legacy (s : string) : list item :=
  filter (fun i => Js.value_truthy (cve i))
    (map (fun c => {| cve := Js.JString (Js.trim c);
                      relevance := Js.JString EmptyString |})
       (Js.split "," s)).

Section ParseValue.

Variable JSON_parse : string -> option Js.value.

(** [parseValue(val)]: [val] is null ([None]) or a string.  An exception
    inside the [try] block falls through to the legacy format. *)
Definition parseValue (val : option string) : list item :=
  match val with
  | None => []
  | Some s =>
      if negb (Js.truthy s) then []
      else
        match JSON_parse s with
        | Some (Js.JArray parsed) =>
            match map_parsed parsed with
            | Some items => filter either_truthy items
            | None => legacy s
            end
        | _ => legacy s
        end
  end.

End ParseValue.

(** [addRow] and [removeRow(index)], as functions of the state [items]. *)
Definition addRow (items : list item) : list item :=
  items ++ [{| cve := Js.JString EmptyString;
               relevance := Js.JString EmptyString |}].

Definition removeRow (index : nat) (items : list item) : list item :=
  Js.remove_at index items.

Inductive field : Type := field_cve | field_relevance.

Definition with_field (f : field) (x : string) (i : item) : item :=
  match f with
  | field_cve => {| cve := Js.JString x; relevance := relevance i |}
  | field_relevance => {| cve := cve i; relevance := Js.JString x |}
  end.

(** [None] for an index past the rows: the table calls [updateItem] only
    with the index of a row it renders. *)
Definition updateItem (index : nat) (f : field) (x : string)
    (items : list item) : option (list item) :=
  match nth_error items index with
  | Some i => Some (Js.set_at index (with_field f x i) items)
  | None => None
  end.

(** [item.cve.trim() || item.relevance], the test of the filter of
    [handleSave]; [None] when [item.cve] is not a string ([trim] is not a
    function). *)
Definition to_save (i : item) : option bool :=
  match cve i with
  | Js.JString s =>
      Some (Js.truthy (Js.trim s) || Js.value_truthy (relevance i))
  | _ => None
  end.

(** [items.filter(item => item.cve.trim() || item.relevance)] *)
Fixpoint saved_items (items : list item) : option (list item) :=
  match items with
  | [] => Some []
  | i :: rest =>
      match to_save i, saved_items rest with
      | Some keep, Some r => Some (if keep then i :: r else r)
      | _, _ => None
      end
  end.

(** [valueToSave] of [handleSave], given [JSON.stringify] on arrays of
    rows; [None] when the filter throws. *)
Definition valueToSave (JSON_stringify : list item -> string)
    (items : list item) : option string :=
  match saved_items items with
  | Some kept => Some (JSON_stringify kept)
  | None => None
  end.

(** The value [JSON.parse] gives back for a stringified array of rows. *)
Definition as_value (items : list item) : Js.value :=
  Js.JArray
    (map (fun i => Js.JObject [("cve", cve i); ("relevance", relevance i)])
       items).

End CVETable.

(** [ChangesLog.jsx]: the list of all changes with its in-memory filters. *)
Module ChangesLog.

(** The values the JSON field [apply_for_all] of a change can take. *)
Inductive json_flag : Type :=
| JTrue
| JFalse
| JString (s : string)
| JNull.

(** One element of [response.data] of [GET /changes].  [changed_at] is the
    time value of [new Date(change.changed_at)]. *)
Record change : Type := {
  id : Z;
  device_uuid : string;
  changed_at : Z;
  editor_user_name : option string;
  field_name : option string;
  vendor : option string;
  new_value : string;
  apply_for_all : json_flag
}.

(** State [dateRange]: [from] and [to] are dates or null. *)
Record date_range : Type := {
  from : option Z;
  to : option Z
}.

(** State [filters]; [f_apply_for_all] is null for all entries, true for
    only those applied to all, false for only the others. *)
Record filter_state : Type := {
  editor : string;
  f_field_name : string;
  f_vendor : string;
  f_apply_for_all : option bool
}.

Section ApplyFilters.

(** [toDate.setHours(23, 59, 59, 999)]: the last millisecond of the local
    day of a date; it depends on the time zone of the browser. *)
Variable setHours_23_59_59_999 : Z -> Z.

(** [String.prototype.toLowerCase]: the case mapping of Unicode. *)
Variable toLowerCase : string -> string.
Variable dateRange : date_range.
Variable filters : filter_state.

Definition date_filter (c : change) : bool :=
  let changeDate := changed_at c in
  if match from dateRange with
     | Some f => changeDate <? f
     | None => false
     end
  then false
  else if match to dateRange with
          | Some t => setHours_23_59_59_999 t <? changeDate
          | None => false
          end
  then false
  else true.

Definition editor_filter (c : change) : bool :=
  Js.includes (toLowerCase (Js.or_empty (editor_user_name c)))
    (toLowerCase (editor filters)).

Definition field_name_filter (c : change) : bool :=
  Js.includes (toLowerCase (Js.or_empty (field_name c)))
    (toLowerCase (f_field_name filters)).

Definition vendor_filter (c : change) : bool :=
  Js.includes (toLowerCase (Js.or_empty (vendor c)))
    (toLowerCase (f_vendor filters)).

(** [change.apply_for_all === true || change.apply_for_all === 'true'] *)
Definition isApplyForAll (c : change) : bool :=
  match apply_for_all c with
  | JTrue => true
  | JString s => String.eqb s "true"
  | _ => false
  end.

Definition apply_for_all_filter (want : bool) (c : change) : bool :=
  if want then isApplyForAll c else negb (isApplyForAll c).

(** [applyFilters(data)]: the value it stores with [setChanges]. *)
Definition applyFilters (data : list change) : list change :=
  let filtered := data in
  let filtered :=
    match from dateRange, to dateRange with
    | None, None => filtered
    | _, _ => filter date_filter filtered
    end in
  let filtered :=
    if Js.truthy (editor filters) then filter editor_filter filtered
    else filtered in
  let filtered :=
    if Js.truthy (f_field_name filters) then filter field_name_filter filtered
    else filtered in
  let filtered :=
    if Js.truthy (f_vendor filters) then filter vendor_filter filtered
    else filtered in
  let filtered :=
    match f_apply_for_all filters with
    | Some want => filter (apply_for_all_filter want) filtered
    | None => filtered
    end in
  let limited := Js.slice0 30 filtered in
  limited.

(** The test of [applyFilters] on one entry: the conjunction of the
    callbacks of its [filter] calls, each under the condition it is applied
    under. *)
Definition matches (c : change) : bool :=
  date_filter c
  && (negb (Js.truthy (editor filters)) || editor_filter c)
  && (negb (Js.truthy (f_field_name filters)) || field_name_filter c)
  && (negb (Js.truthy (f_vendor filters)) || vendor_filter c)
  && match f_apply_for_all filters with
     | Some want => apply_for_all_filter want c
     | None => true
     end.

End ApplyFilters.

(** [ORDER BY changed_at DESC, id DESC] on changes. *)
Definition newest_first (a b : change) : comparison :=
  Sql.then_by (Sql.desc_Z (changed_at a) (changed_at b))
    (Sql.desc_Z (id a) (id b)).

(** The vendor of the device of an override, by join with the gold table. *)
Definition vendor_of (gold : list G.t) (device : string) : option string :=
  match find (fun g => String.eqb (G.device_uuid g) device) gold with
  | Some g => G.attr g Col.vendor
  | None => None
  end.

Definition to_change (gold : list G.t) (u : U.t) : change :=
  {| id := U.id u;
     device_uuid := U.device_uuid u;
     changed_at := U.changed_at u;
     editor_user_name := Some (U.editor_user_name u);
     field_name := Some (U.field_name u);
     vendor := vendor_of gold (U.device_uuid u);
     new_value := U.new_value u;
     apply_for_all :=
       match U.apply_for_all u with
       | Some true => JTrue
       | Some false => JFalse
       | None => JNull
       end |}.

(** Modelled from the spec: the handler behind [catalogAPI.getAllChanges]
    ([GET /changes?limit=]), which is not among the sources.  It retrieves
    every entry of the override log with the vendor of its device, most
    recent [changed_at] first, ties broken by [id] descending, and returns
    at most [limit] of them. *)
Definition getAllChanges (gold : list G.t) (s : OverrideLog.store)
    (limit : nat) : list change :=
  firstn limit
    (Sql.order_by newest_first (map (to_change gold) (OverrideLog.log s))).

(** [loadChanges]: [getAllChanges(1000)], then [applyFilters]. *)
Definition loadChanges (setHours_23_59_59_999 : Z -> Z)
    (toLowerCase : string -> string) (dateRange : date_range)
    (filters : filter_state) (gold : list G.t) (s : OverrideLog.store)
    : list change :=
  applyFilters setHours_23_59_59_999 toLowerCase dateRange filters
    (getAllChanges gold s 1000).

(** [[...new Set(allChanges.map(c => c.<key>).filter(Boolean))].sort()]:
    the options of a filter drop-down. *)
Definition unique_values (key : change -> option string)
    (allChanges : list change) : list string :=
  Js.sort
    (Js.dedupe
       (filter Js.truthy (map (fun c => Js.or_empty (key c)) allChanges))).

Definition uniqueEditors : list change -> list string :=
  unique_values editor_user_name.

Definition uniqueFields : list change -> list string :=
  unique_values field_name.

Definition uniqueVendors : list change -> list string :=
  unique_values vendor.

End ChangesLog.

(** [UPDATE cps.user_input_cps_catalog SET apply_for_all = FALSE
     WHERE apply_for_all IS NULL], on one row and on the table. *)
Definition null_to_false (u : U.t) : U.t :=
  U.mk (U.id u) (U.device_uuid u) (U.cps_id u) (U.field_name u)
    (U.new_value u) (U.is_validated u) (U.changed_at u)
    (match U.apply_for_all u with
     | None => Some false
     | Some b => Some b
     end)
    (U.editor_user_id u) (U.editor_user_name u) (U.note u).

Definition nulls_to_false (log : list U.t) : list U.t := map null_to_false log.

(** [App.jsx]: the breadcrumb. *)
Module App.

(** The label of a path segment. *)
Definition label (value : string) : string :=
  if String.eqb value "group" then "Variants"
  else if String.eqb value "device" then "Device Details"
  else if String.eqb value "changes" then "Changes Log"
  else value.

(** [location.pathname.split('/').filter((x) => x)] *)
Definition pathnames (pathname : string) : list string :=
  filter Js.truthy (Js.split "/" pathname).

(** One item of the breadcrumb after "Catalog": the target of its link,
    whether it is the current page, and its label. *)
Record crumb : Type := {
  to : string;
  isLast : bool;
  crumb_label : string
}.

Definition crumb_of (segments : list string) (value : string) (index : nat)
  : crumb :=
  {| to := "/" ++ Js.join "/" (firstn (index + 1) segments);
     isLast := Nat.eqb index (List.length segments - 1);
     crumb_label := label value |}.

(** [pathnames.map((value, index) => ...)] of [AppBreadcrumb]. *)
Definition AppBreadcrumb (pathname : string) : list crumb :=
  Js.map_index_from 0 (crumb_of (pathnames pathname)) (pathnames pathname).

End App.

(* ------------------------------------------------------------------ *)
(** ** A small catalog used in the examples *)
(* ------------------------------------------------------------------ *)

Module Example.

(** An override row written by editor "u1". *)
Definition row (id : Z) (device cps field value : string) (validated : bool)
    (at_ : Z) (apply_for_all : option bool) : U.t :=
  U.mk id device cps field value validated at_ apply_for_all "u1" "Editor"
    None.

Definition base_attr (c : Col.t) : option string :=
  match c with
  | Col.vendor => Some "Acme"
  | Col.category => Some "IT"
  | Col.risk_score => Some "5.0"
  | _ => None
  end.

(** Devices d1 and d2 are variants of product g1; d3 is product g2. *)
Definition d1 : G.t := G.mk "d1" "g1" base_attr.
Definition d2 : G.t := G.mk "d2" "g1" base_attr.
Definition d3 : G.t := G.mk "d3" "g2" base_attr.
Definition gold : list G.t := [d1; d3].

(** Two overrides of the vendor of d1: the older one validated. *)
Definition e5 : U.t :=
  row 5 "d1" "g1" "vendor" "AcmeCorp" true 100 (Some false).
Definition e9 : U.t :=
  row 9 "d1" "g1" "vendor" "Acme Inc" false 200 (Some false).
Definition log_5_9 : list U.t :=
  [row 3 "d3" "g2" "vendor" "Other" false 300 (Some false); e5;
   row 4 "d1" "g1" "category" "OT" true 400 (Some true); e9].

(** An old unvalidated device-scope override and a newer validated
    cps_id-wide override of the category of d1. *)
Definition dev_old : U.t :=
  row 1 "d1" "g1" "category" "Medical" false 10 (Some false).
Definition grp_new : U.t :=
  row 2 "d1" "g1" "category" "OT" true 999 (Some true).
Definition log_dev_grp : list U.t := [grp_new; dev_old].

(** The same device-scope override stored with a NULL [apply_for_all]. *)
Definition dev_null : U.t :=
  row 1 "d1" "g1" "category" "Medical" false 10 None.
Definition log_null : list U.t := [grp_new; dev_null].

(** A device-scope override of the vendor of d1 and a later one that
    blanks the field. *)
Definition old_x : U.t :=
  row 6 "d1" "g1" "vendor" "AcmeCorp" false 40 (Some false).
Definition blank_new : U.t :=
  row 7 "d1" "g1" "vendor" EmptyString false 50 (Some false).
Definition log_blank : list U.t := [old_x; blank_new].

(** The blanking override followed by a later one that sets a value. *)
Definition newer_x : U.t :=
  row 8 "d1" "g1" "vendor" "Acme Ltd" false 60 (Some false).
Definition log_blank_older : list U.t := [blank_new; newer_x].

(** The override of the vendor of d1, blanked at 50 and blanked again at
    60. *)
Definition blank_newest : U.t :=
  row 14 "d1" "g1" "vendor" EmptyString false 60 (Some false).
Definition log_blank_twice : list U.t := [old_x; blank_new; blank_newest].

(** A device-scope override of the risk score that is not a number, and a
    cps_id-wide one that is. *)
Definition risk_dev : U.t :=
  row 11 "d1" "g1" "risk_score" "high" false 70 (Some false).
Definition risk_grp : U.t :=
  row 12 "d1" "g1" "risk_score" "7.5" true 60 (Some true).
Definition log_risk : list U.t := [risk_dev; risk_grp].

(** A log with only the cps_id-wide override of the category of g1. *)
Definition log_grp : list U.t := [grp_new].

(** That override with a later device-scope override of d1 that blanks the
    category. *)
Definition blank_cat : U.t :=
  row 13 "d1" "g1" "category" EmptyString false 1000 (Some false).
Definition log_grp_blank : list U.t := [grp_new; blank_cat].

(** A cps_id-wide override of the category of g1 whose device, d9, has no
    row in the gold table. *)
Definition grp_absent : U.t :=
  row 15 "d9" "g1" "category" "OT" true 999 (Some true).
Definition log_grp_absent : list U.t := [grp_absent].

(** The gold table after d1 has moved from product g1 to product g9. *)
Definition gold_moved : list G.t := [G.mk "d1" "g9" base_attr; d2].

(** A registry that knows the columns of the views and [cps_id], and
    protects the fields the front end lists as not editable. *)
Definition known_fields : list string :=
  map Col.field_name (View.columns update_views_for_device_type)
  ++ ["cps_id"].

Definition registry : OverrideLog.registry :=
  {| OverrideLog.Describe := fun f =>
       if Js.array_includes known_fields f then
         Some {| OverrideLog.name := f;
                 OverrideLog.type := OverrideLog.text_field;
                 OverrideLog.enumerated_options := [];
                 OverrideLog.protected :=
                   FieldEditor.isReadOnly DeviceDetails.NON_EDITABLE_FIELDS f |}
       else None;
     OverrideLog.Coerce := fun _ value => Some value |}.

Definition store_5_9 : OverrideLog.store :=
  {| OverrideLog.log := log_5_9; OverrideLog.next_id := 10 |}.

(** An edit of the protected field [vendor] and one of the unknown field
    [colour]. *)
Definition submit (field value : string) : OverrideLog.submission :=
  {| OverrideLog.device_uuid := "d1";
     OverrideLog.cps_id := "g1";
     OverrideLog.field_name := field;
     OverrideLog.new_value := value;
     OverrideLog.apply_for_all := false;
     OverrideLog.is_validated := false;
     OverrideLog.editor_user_id := "current_user";
     OverrideLog.editor_user_name := "Current User";
     OverrideLog.note := None;
     OverrideLog.changed_at := 500 |}.

(** The end of the day in UTC, for a time in milliseconds. *)
Definition end_of_day_utc (t : Z) : Z := t - t mod 86400000 + 86399999.

Definition no_range : ChangesLog.date_range :=
  {| ChangesLog.from := None; ChangesLog.to := None |}.

Definition only_vendor_edits : ChangesLog.filter_state :=
  {| ChangesLog.editor := EmptyString;
     ChangesLog.f_field_name := "Vendor";
     ChangesLog.f_vendor := EmptyString;
     ChangesLog.f_apply_for_all := Some false |}.

(** A row of the CVE table, and the text [JSON.stringify] gives for the
    table with that one row.  [cve_parse] is [JSON.parse] on that text. *)
Definition cve_row : CVETable.item :=
  {| CVETable.cve := Js.JString "CVE-2024-0001";
     CVETable.relevance := Js.JString "high" |}.

Definition cve_blank_row : CVETable.item :=
  {| CVETable.cve := Js.JString "  ";
     CVETable.relevance := Js.JString EmptyString |}.

Definition quote : string := String (ascii_of_nat 34) EmptyString.

Definition cve_json : string :=
  String.concat EmptyString
    ["[{"; quote; "cve"; quote; ":"; quote; "CVE-2024-0001"; quote; ",";
     quote; "relevance"; quote; ":"; quote; "high"; quote; "}]"].

Definition cve_stringify (items : list CVETable.item) : string := cve_json.

Definition cve_parse (s : string) : option Js.value :=
  if String.eqb s cve_json then Some (CVETable.as_value [cve_row]) else None.

End Example.

(* ================================================================== *)
(** * Properties *)
(* ================================================================== *)

(* ------------------------------------------------------------------ *)
(** ** Facts on [ORDER BY] and the first row of a window *)
(* ------------------------------------------------------------------ *)

Section FirstRow.
Context {A : Type}.
Variable cmp : A -> A -> comparison.

(** What a sort key must satisfy: swapping the rows flips the comparison,
    and "not after" is transitive. *)
Hypothesis cmp_flip : forall a b, cmp b a = CompOpp (cmp a b).
Hypothesis cmp_trans :
  forall a b c, cmp a b <> Gt -> cmp b c <> Gt -> cmp a c <> Gt.

Lemma hd_insert (a : A) (l : list A) :
  hd_error (Sql.insert cmp a l)
  = Some (match hd_error l with
          | None => a
          | Some b => match cmp a b with Gt => b | _ => a end
          end).
Proof.
  destruct l as [|b l]; simpl; [reflexivity|].
  destruct (cmp a b); reflexivity.
Qed.

Lemma In_insert (a x : A) (l : list A) :
  In x (Sql.insert cmp a l) <-> x = a \/ In x l.
Proof.
  induction l as [|b l IH]; simpl.
  - intuition.
  - destruct (cmp a b); simpl; rewrite ?IH; intuition.
Qed.

Lemma In_order_by (x : A) (l : list A) :
  In x (Sql.order_by cmp l) <-> In x l.
Proof.
  induction l as [|a l IH]; simpl; [tauto|].
  rewrite In_insert, IH. intuition.
Qed.

Lemma length_insert (a : A) (l : list A) :
  List.length (Sql.insert cmp a l) = S (List.length l).
Proof.
  induction l as [|b l IH]; simpl; [reflexivity|].
  destruct (cmp a b); simpl; rewrite ?IH; reflexivity.
Qed.

Lemma left_join_rn1_first (partition : list A) :
  Sql.left_join_rn1 (Sql.row_number cmp partition)
  = hd_error (Sql.order_by cmp partition).
Proof.
  unfold Sql.left_join_rn1, Sql.row_number.
  destruct (Sql.order_by cmp partition) as [|w rest]; reflexivity.
Qed.

Lemma first_nil (l : list A) :
  hd_error (Sql.order_by cmp l) = None <-> l = [].
Proof.
  destruct l as [|a l]; simpl; [tauto|].
  rewrite hd_insert. split; discriminate.
Qed.

Lemma first_In (l : list A) (w : A) :
  hd_error (Sql.order_by cmp l) = Some w -> In w l.
Proof.
  intros H. apply In_order_by.
  destruct (Sql.order_by cmp l); simpl in H; [discriminate|].
  injection H as ->. now left.
Qed.

Lemma cmp_refl_not_Gt (a : A) : cmp a a <> Gt.
Proof.
  intros H. pose proof (cmp_flip a a) as F. rewrite H in F. discriminate.
Qed.

Lemma cmp_Gt_flip (a b : A) : cmp a b = Gt -> cmp b a <> Gt.
Proof.
  intros H. rewrite (cmp_flip a b), H. discriminate.
Qed.

(** The first row is not after any row of the partition. *)
Lemma first_not_after (l : list A) (w : A) :
  hd_error (Sql.order_by cmp l) = Some w ->
  forall e, In e l -> cmp w e <> Gt.
Proof.
  revert w. induction l as [|a l IH]; intros w H e He; [destruct He|].
  simpl in H. rewrite hd_insert in H. injection H as H.
  destruct (hd_error (Sql.order_by cmp l)) as [b|] eqn:Hb.
  - specialize (IH b eq_refl).
    destruct He as [<-|He].
    + destruct (cmp a b) eqn:Hab; subst w;
        try apply cmp_refl_not_Gt.
      now apply cmp_Gt_flip.
    + destruct (cmp a b) eqn:Hab; subst w; try now apply IH.
      all: apply (cmp_trans a b e); [rewrite Hab; discriminate | now apply IH].
  - apply first_nil in Hb. subst l w.
    destruct He as [<-|[]]. apply cmp_refl_not_Gt.
Qed.

(** Removing other rows from the partition keeps its first row. *)
Lemma first_filter (keep : A -> bool) (l : list A) (w : A) :
  hd_error (Sql.order_by cmp l) = Some w ->
  keep w = true ->
  hd_error (Sql.order_by cmp (filter keep l)) = Some w.
Proof.
  revert w. induction l as [|a l IH]; intros w H Hw; [discriminate|].
  simpl in H. rewrite hd_insert in H. injection H as H.
  destruct (hd_error (Sql.order_by cmp l)) as [b|] eqn:Hb.
  - destruct (cmp a b) eqn:Hab.
    1,2: subst w; simpl; rewrite Hw; simpl; rewrite hd_insert;
      destruct (hd_error (Sql.order_by cmp (filter keep l))) as [b'|] eqn:Hb';
      [|reflexivity];
      assert (Hle : cmp a b' <> Gt)
        by (apply (cmp_trans a b b');
            [rewrite Hab; discriminate
            | apply (first_not_after l b Hb);
              apply first_In in Hb'; apply filter_In in Hb'; tauto]);
      destruct (cmp a b'); congruence.
    subst w. specialize (IH b eq_refl Hw). simpl.
    destruct (keep a); [|exact IH].
    simpl. rewrite hd_insert, IH, Hab. reflexivity.
  - apply first_nil in Hb. subst l w. simpl. rewrite Hw. reflexivity.
Qed.

End FirstRow.

(** Sorting commutes with a map that keeps the sort keys. *)
Lemma order_by_map {A B : Type} (cmpA : A -> A -> comparison)
    (cmpB : B -> B -> comparison) (f : A -> B) (l : list A) :
  (forall a b, cmpB (f a) (f b) = cmpA a b) ->
  Sql.order_by cmpB (map f l) = map f (Sql.order_by cmpA l).
Proof.
  intros Hf. induction l as [|a l IH]; simpl; [reflexivity|].
  rewrite IH. clear IH.
  induction (Sql.order_by cmpA l) as [|b s IHs]; simpl; [reflexivity|].
  rewrite Hf. destruct (cmpA a b); simpl; rewrite ?IHs; reflexivity.
Qed.

(** Two sort keys that agree on the rows of a list sort it alike. *)
Lemma insert_ext_in {A : Type} (cmp1 cmp2 : A -> A -> comparison) (a : A)
    (s : list A) :
  (forall b, In b s -> cmp1 a b = cmp2 a b) ->
  Sql.insert cmp1 a s = Sql.insert cmp2 a s.
Proof.
  induction s as [|b s IHs]; intros H; simpl; [reflexivity|].
  rewrite <- (H b) by now left.
  destruct (cmp1 a b); try reflexivity.
  f_equal. apply IHs. intros; apply H; now right.
Qed.

Lemma order_by_ext_in {A : Type} (cmp1 cmp2 : A -> A -> comparison)
    (l : list A) :
  (forall a b, In a l -> In b l -> cmp1 a b = cmp2 a b) ->
  Sql.order_by cmp1 l = Sql.order_by cmp2 l.
Proof.
  induction l as [|a l IH]; intros H; simpl; [reflexivity|].
  rewrite <- IH by (intros; apply H; now right).
  apply insert_ext_in. intros b Hb. apply H; [now left|].
  right. now apply (In_order_by cmp1).
Qed.

(* ------------------------------------------------------------------ *)
(** ** Facts on lists *)
(* ------------------------------------------------------------------ *)

Lemma filter_map_swap {A B : Type} (p : B -> bool) (f : A -> B)
    (l : list A) :
  filter p (map f l) = map f (filter (fun a => p (f a)) l).
Proof.
  induction l as [|a l IH]; simpl; [reflexivity|].
  destruct (p (f a)); simpl; now rewrite IH.
Qed.

Lemma hd_error_map {A B : Type} (f : A -> B) (l : list A) :
  hd_error (map f l) = option_map f (hd_error l).
Proof. destruct l; reflexivity. Qed.

Lemma filter_none {A : Type} (p : A -> bool) (l : list A) :
  (forall a, In a l -> p a = false) -> filter p l = [].
Proof.
  induction l as [|a l IH]; intros H; simpl; [reflexivity|].
  rewrite (H a) by now left. apply IH. intros; apply H; now right.
Qed.

Lemma filter_filter {A : Type} (p q : A -> bool) (l : list A) :
  filter p (filter q l) = filter (fun a => q a && p a) l.
Proof.
  induction l as [|a l IH]; simpl; [reflexivity|].
  destruct (q a); simpl; [destruct (p a)|]; now rewrite IH.
Qed.

Lemma filter_all {A : Type} (p : A -> bool) (l : list A) :
  (forall a, In a l -> p a = true) -> filter p l = l.
Proof.
  induction l as [|a l IH]; intros H; simpl; [reflexivity|].
  rewrite (H a) by now left. f_equal. apply IH. intros; apply H; now right.
Qed.

(* ------------------------------------------------------------------ *)
(** ** The window order of the views *)
(* ------------------------------------------------------------------ *)

(** Row [a] is not after row [b] under
    [is_validated DESC, changed_at DESC, id DESC]. *)
Lemma effective_not_after (a b : U.t) :
  View.window_order v_cps_catalog_effective a b <> Gt <->
  (U.is_validated a = true /\ U.is_validated b = false)
  \/ (U.is_validated a = U.is_validated b
      /\ (U.changed_at b < U.changed_at a
          \/ (U.changed_at a = U.changed_at b /\ U.id b <= U.id a))).
Proof.
  unfold View.window_order, Sql.then_by, Sql.desc_bool, Sql.desc_Z.
  destruct (U.is_validated a), (U.is_validated b);
    destruct (Z.compare_spec (U.changed_at b) (U.changed_at a));
    destruct (Z.compare_spec (U.id b) (U.id a));
    split; intros Hab; try (exfalso; apply Hab; reflexivity);
    try discriminate;
    try (intuition (try discriminate; try lia); fail).
Qed.

(** Row [a] is not after row [b] under [changed_at DESC, id DESC]. *)
Lemma validated_not_after (a b : U.t) :
  View.window_order v_cps_catalog_effective_validated a b <> Gt <->
  U.changed_at b < U.changed_at a
  \/ (U.changed_at a = U.changed_at b /\ U.id b <= U.id a).
Proof.
  unfold View.window_order, Sql.then_by, Sql.desc_Z.
  destruct (Z.compare_spec (U.changed_at b) (U.changed_at a));
    destruct (Z.compare_spec (U.id b) (U.id a));
    split; intros Hab; try (exfalso; apply Hab; reflexivity);
    try discriminate;
    try (intuition (try discriminate; try lia); fail).
Qed.

Lemma window_order_flip (v : view) (a b : U.t) :
  View.window_order v b a = CompOpp (View.window_order v a b).
Proof.
  destruct v; unfold View.window_order, Sql.then_by, Sql.desc_bool, Sql.desc_Z;
    rewrite (Z.compare_antisym (U.changed_at b) (U.changed_at a));
    rewrite (Z.compare_antisym (U.id b) (U.id a));
    try destruct (U.is_validated a), (U.is_validated b);
    destruct (U.changed_at b ?= U.changed_at a);
    destruct (U.id b ?= U.id a); reflexivity.
Qed.

Lemma window_order_trans (v : view) (a b c : U.t) :
  View.window_order v a b <> Gt ->
  View.window_order v b c <> Gt ->
  View.window_order v a c <> Gt.
Proof.
  destruct v.
  - rewrite !effective_not_after.
    destruct (U.is_validated a), (U.is_validated b), (U.is_validated c);
      intuition (try discriminate; try lia).
  - rewrite !validated_not_after. lia.
Qed.

(** On validated rows the two window orders coincide. *)
Lemma window_order_validated_rows (a b : U.t) :
  U.is_validated a = true ->
  U.is_validated b = true ->
  View.window_order v_cps_catalog_effective a b
  = View.window_order v_cps_catalog_effective_validated a b.
Proof.
  intros Ha Hb. unfold View.window_order. rewrite Ha, Hb. reflexivity.
Qed.

(* ------------------------------------------------------------------ *)
(** ** The two CTEs *)
(* ------------------------------------------------------------------ *)

Lemma latest_device_first (m : migration) (v : view) (log : list U.t)
    (g : G.t) (c : Col.t) :
  View.latest_device m v log g c
  = hd_error
      (Sql.order_by (View.window_order v)
         (View.device_partition m v log (G.device_uuid g) (Col.field_name c))).
Proof. apply left_join_rn1_first. Qed.

Lemma latest_cps_id_first (m : migration) (v : view) (gold : list G.t)
    (log : list U.t) (g : G.t) (c : Col.t) :
  View.latest_cps_id m v gold log g c
  = hd_error
      (Sql.order_by (View.window_order v)
         (View.cps_id_partition m v gold log (G.cps_id g) (Col.field_name c))).
Proof. apply left_join_rn1_first. Qed.

Lemma In_device_partition (m : migration) (v : view) (log : list U.t)
    (d f : string) (u : U.t) :
  In u (View.device_partition m v log d f) <->
  In u log /\ Sql.holds (View.latest_device_where m v u) = true
  /\ U.device_uuid u = d /\ U.field_name u = f.
Proof.
  unfold View.device_partition. rewrite !filter_In, andb_true_iff.
  rewrite !String.eqb_eq. tauto.
Qed.

Lemma In_latest_cps_id_from (m : migration) (gold : list G.t)
    (log : list U.t) (k : string) (u : U.t) :
  In (k, u) (View.latest_cps_id_from m gold log) <->
  In u log
  /\ match m with
     | update_view_for_apply_for_all => U.cps_id u = k
     | update_views_for_device_type =>
         exists g, In g gold /\ G.device_uuid g = U.device_uuid u
                   /\ G.cps_id g = k
     end.
Proof.
  destruct m; simpl.
  - rewrite in_map_iff. split.
    + intros (u' & E & Hu). injection E as <- <-. auto.
    + intros (Hu & <-). now exists u.
  - rewrite in_flat_map. split.
    + intros (u' & Hu & Hin). apply in_map_iff in Hin.
      destruct Hin as (g & E & Hg). injection E as <- <-.
      apply filter_In in Hg. destruct Hg as (Hg & Heq).
      apply String.eqb_eq in Heq. split; [assumption|]. now exists g.
    + intros (Hu & g & Hg & Hd & <-). exists u. split; [assumption|].
      apply in_map_iff. exists g. split; [reflexivity|].
      apply filter_In. split; [assumption|]. now apply String.eqb_eq.
Qed.

Lemma In_cps_id_partition (m : migration) (v : view) (gold : list G.t)
    (log : list U.t) (k f : string) (u : U.t) :
  In u (View.cps_id_partition m v gold log k f) <->
  In (k, u) (View.latest_cps_id_from m gold log)
  /\ Sql.holds (View.latest_cps_id_where m v u) = true
  /\ U.field_name u = f.
Proof.
  unfold View.cps_id_partition. rewrite in_map_iff. split.
  - intros ((k', u') & E & Hin). simpl in E. subst u'.
    rewrite !filter_In, andb_true_iff, !String.eqb_eq in Hin. simpl in Hin.
    destruct Hin as ((Hin & Hw) & <- & Hf). auto.
  - intros (Hin & Hw & Hf). exists (k, u). split; [reflexivity|].
    rewrite !filter_In, andb_true_iff, !String.eqb_eq. simpl. auto.
Qed.

(** The [WHERE] clauses, read as conditions on the row. *)
Lemma latest_device_where_holds (m : migration) (v : view) (u : U.t) :
  Sql.holds (View.latest_device_where m v u) = true <->
  U.apply_for_all u <> Some true
  /\ (v = v_cps_catalog_effective_validated -> U.is_validated u = true).
Proof.
  destruct m, v; unfold View.latest_device_where, View.device_scope,
    View.validated;
    destruct (U.apply_for_all u) as [[|]|], (U.is_validated u); simpl;
    intuition (try discriminate; try congruence).
Qed.

Lemma latest_cps_id_where_holds (m : migration) (v : view) (u : U.t) :
  Sql.holds (View.latest_cps_id_where m v u) = true <->
  U.apply_for_all u = Some true
  /\ (v = v_cps_catalog_effective_validated -> U.is_validated u = true).
Proof.
  destruct m, v; unfold View.latest_cps_id_where, View.cps_id_scope,
    View.validated;
    destruct (U.apply_for_all u) as [[|]|], (U.is_validated u); simpl;
    intuition (try discriminate; try congruence).
Qed.

(** Each window has a first row exactly when its partition has a row, the
    first row belongs to the partition and no row of the partition is
    before it. *)
Lemma window_first (v : view) (partition : list U.t) (w : U.t) :
  hd_error (Sql.order_by (View.window_order v) partition) = Some w ->
  In w partition
  /\ forall e, In e partition -> View.window_order v w e <> Gt.
Proof.
  intros H. split.
  - now apply first_In in H.
  - apply (first_not_after (View.window_order v)
             (window_order_flip v) (window_order_trans v) partition w H).
Qed.

Lemma window_first_exists (v : view) (partition : list U.t) (e : U.t) :
  In e partition ->
  exists w, hd_error (Sql.order_by (View.window_order v) partition) = Some w.
Proof.
  intros He.
  destruct (hd_error (Sql.order_by (View.window_order v) partition)) as [w|]
    eqn:H; [now exists w|].
  apply first_nil in H. subst partition. destruct He.
Qed.

(** A row of a partition that every other row comes after is the first
    row. *)
Lemma window_first_strict (v : view) (p : list U.t) (u : U.t) :
  In u p ->
  (forall e, In e p -> View.window_order v e u <> Gt -> e = u) ->
  hd_error (Sql.order_by (View.window_order v) p) = Some u.
Proof.
  intros Hu H. destruct (window_first_exists v p u Hu) as [w Hw].
  rewrite Hw. f_equal. apply window_first in Hw. destruct Hw as [Hin Hle].
  apply H; [exact Hin|]. now apply Hle.
Qed.

(** The column takes the device row's value when that is not blank. *)
Lemma column_text_device (m : migration) (v : view) (gold : list G.t)
    (log : list U.t) (g : G.t) (c : Col.t) (w : U.t) :
  View.latest_device m v log g c = Some w ->
  U.new_value w <> EmptyString ->
  View.column_text m v gold log g c = Some (U.new_value w).
Proof.
  intros Hw Hne. unfold View.column_text, View.candidates. rewrite Hw. simpl.
  destruct (String.eqb_spec (U.new_value w) EmptyString); [contradiction|reflexivity].
Qed.

(* ------------------------------------------------------------------ *)
(** ** C1: the winner of a window in the effective view *)
(* ------------------------------------------------------------------ *)

(** C1.  In [v_cps_catalog_effective] (both migrations), for every gold row
    and column, in the device partition and in the cps_id partition alike:
    the row the join keeps is a row of the partition that is first under
    [is_validated] descending, then [changed_at] descending, then [id]
    descending (no row of the partition is before it), a partition with a
    row always has such a first row, and two rows that are both first have
    the same [id].  In particular, when the device
    partition holds exactly a validated row [e5] and an unvalidated row
    [e9] with a later [changed_at], the join keeps [e5], and the column
    resolves to the value of [e5] (when that value is not blank, blank
    values being skipped by [NULLIF]). *)
Theorem C1_effective_first_row (m : migration) (gold : list G.t)
    (log : list U.t) (g : G.t) (c : Col.t) :
  let v := v_cps_catalog_effective in
  let dev :=
    View.device_partition m v log (G.device_uuid g) (Col.field_name c) in
  let cps :=
    View.cps_id_partition m v gold log (G.cps_id g) (Col.field_name c) in
  let first_of (partition : list U.t) (w : U.t) :=
    In w partition
    /\ forall e, In e partition ->
         (U.is_validated w = true /\ U.is_validated e = false)
         \/ (U.is_validated w = U.is_validated e
             /\ (U.changed_at e < U.changed_at w
                 \/ (U.changed_at w = U.changed_at e /\ U.id e <= U.id w)))
  in
  (forall w, View.latest_device m v log g c = Some w -> first_of dev w)
  /\ (forall e, In e dev -> exists w, View.latest_device m v log g c = Some w)
  /\ (forall w, View.latest_cps_id m v gold log g c = Some w -> first_of cps w)
  /\ (forall e, In e cps ->
        exists w, View.latest_cps_id m v gold log g c = Some w)
  /\ (forall e5 e9,
        (forall u, In u dev <-> u = e5 \/ u = e9) ->
        U.is_validated e5 = true ->
        U.is_validated e9 = false ->
        U.changed_at e5 < U.changed_at e9 ->
        View.latest_device m v log g c = Some e5
        /\ (U.new_value e5 <> EmptyString ->
            View.column_text m v gold log g c = Some (U.new_value e5)))
  /\ (forall partition w w',
        first_of partition w -> first_of partition w' -> U.id w = U.id w').
Proof.
  intros v dev cps first_of.
  assert (Hfirst : forall partition w,
             hd_error (Sql.order_by (View.window_order v) partition) = Some w ->
             first_of partition w).
  { intros partition w H. apply window_first in H. destruct H as [Hin Hle].
    split; [assumption|]. intros e He. apply effective_not_after.
    now apply Hle. }
  split; [|split; [|split; [|split; [|split]]]].
  - intros w Hw. apply Hfirst. rewrite latest_device_first in Hw. exact Hw.
  - intros e He. rewrite latest_device_first.
    now apply (window_first_exists v dev e).
  - intros w Hw. apply Hfirst. rewrite latest_cps_id_first in Hw. exact Hw.
  - intros e He. rewrite latest_cps_id_first.
    now apply (window_first_exists v cps e).
  - intros e5 e9 Hdev H5 H9 Ht.
    assert (Hw : View.latest_device m v log g c = Some e5).
    { destruct (window_first_exists v dev e5) as [w Hw];
        [apply Hdev; now left|].
      rewrite latest_device_first. fold dev. rewrite Hw. f_equal.
      apply window_first in Hw. destruct Hw as [Hin Hle].
      apply Hdev in Hin. destruct Hin as [->| ->]; [reflexivity|].
      exfalso. specialize (Hle e5 (proj2 (Hdev e5) (or_introl eq_refl))).
      apply effective_not_after in Hle. rewrite H5, H9 in Hle.
      intuition (try discriminate; try lia). }
    split; [exact Hw|]. intros Hne. now apply column_text_device.
  - intros partition w w' [Hin Hle] [Hin' Hle'].
    specialize (Hle w' Hin'). specialize (Hle' w Hin).
    destruct (U.is_validated w), (U.is_validated w');
      intuition (try discriminate; try lia).
Qed.

Lemma C1_effective_first_row_witness :
  View.latest_device update_views_for_device_type v_cps_catalog_effective
    Example.log_5_9 Example.d1 Col.vendor = Some Example.e5
  /\ View.column_text update_views_for_device_type v_cps_catalog_effective
       Example.gold Example.log_5_9 Example.d1 Col.vendor = Some "AcmeCorp".
Proof.
  pose proof (C1_effective_first_row update_views_for_device_type
                Example.gold Example.log_5_9 Example.d1 Col.vendor) as H.
  destruct H as (_ & _ & _ & _ & H & _).
  destruct (H Example.e5 Example.e9) as [Hw Hv].
  - intros u. vm_compute. intuition congruence.
  - reflexivity.
  - reflexivity.
  - reflexivity.
  - split; [exact Hw|]. apply Hv. discriminate.
Defined.

(* ------------------------------------------------------------------ *)
(** ** C5: a device row with a value beats the cps_id row and the base *)
(* ------------------------------------------------------------------ *)

Lemma column_source_device (m : migration) (v : view) (gold : list G.t)
    (log : list U.t) (g : G.t) (c : Col.t) (w : U.t) :
  View.latest_device m v log g c = Some w ->
  U.new_value w <> EmptyString ->
  View.column_source m v gold log g c = View.from_device w.
Proof.
  intros Hw Hne. unfold View.column_source, View.candidates. rewrite Hw. simpl.
  destruct (String.eqb_spec (U.new_value w) EmptyString); [contradiction|reflexivity].
Qed.

(** Rows written with [apply_for_all = TRUE] never enter a device
    partition. *)
Lemma device_partition_cps_id_rows (m : migration) (v : view)
    (log extra : list U.t) (d f : string) :
  (forall u, In u extra -> U.apply_for_all u = Some true) ->
  View.device_partition m v (log ++ extra) d f
  = View.device_partition m v log d f.
Proof.
  intros H. unfold View.device_partition. rewrite !filter_app.
  rewrite (filter_none _ extra); [now rewrite app_nil_r|].
  intros u Hu. destruct (Sql.holds _) eqn:E; [|reflexivity].
  apply latest_device_where_holds in E. destruct E as [E _].
  now apply H in Hu.
Qed.

(** C5.  In both views of both migrations: when the device-scope row kept
    for a gold row and column (the row numbered 1 of the device partition)
    has a value that is not the empty string, the column is that value and
    its source is that row, whatever the cps_id-scope row and the base
    value are, and so whatever the timestamps of the rows of the log; it
    stays that value when any cps_id-wide overrides, of any time and trust,
    are added to the log. *)
Theorem C5_device_scope_wins (m : migration) (v : view) (gold : list G.t)
    (log : list U.t) (g : G.t) (c : Col.t) (w : U.t) :
  View.latest_device m v log g c = Some w ->
  U.new_value w <> EmptyString ->
  View.column_text m v gold log g c = Some (U.new_value w)
  /\ View.column_source m v gold log g c = View.from_device w
  /\ (forall (cps : option U.t) (base : option string),
        Sql.COALESCE (View.candidates (Some w) cps base)
        = Some (U.new_value w))
  /\ (forall extra,
        (forall u, In u extra -> U.apply_for_all u = Some true) ->
        View.column_text m v gold (log ++ extra) g c
        = Some (U.new_value w)).
Proof.
  intros Hw Hne. split; [|split; [|split]].
  - now apply column_text_device.
  - now apply column_source_device.
  - intros cps base. unfold View.candidates. simpl.
    destruct (String.eqb_spec (U.new_value w) EmptyString);
      [contradiction|reflexivity].
  - intros extra Hextra. apply column_text_device; [|exact Hne].
    rewrite latest_device_first in *.
    now rewrite device_partition_cps_id_rows.
Qed.

Lemma C5_device_scope_wins_witness :
  View.column_text update_views_for_device_type v_cps_catalog_effective
    Example.gold Example.log_dev_grp Example.d1 Col.category
  = Some "Medical".
Proof.
  destruct (C5_device_scope_wins update_views_for_device_type
              v_cps_catalog_effective Example.gold Example.log_dev_grp
              Example.d1 Col.category Example.dev_old) as [H _].
  - reflexivity.
  - discriminate.
  - exact H.
Defined.

(* ------------------------------------------------------------------ *)
(** ** C10: a NULL [apply_for_all] is read as FALSE *)
(* ------------------------------------------------------------------ *)

Lemma null_to_false_device_where (m : migration) (v : view) (u : U.t) :
  Sql.holds (View.latest_device_where m v (null_to_false u))
  = Sql.holds (View.latest_device_where m v u).
Proof.
  destruct m, v; unfold View.latest_device_where, View.device_scope,
    View.validated; simpl;
    destruct (U.apply_for_all u) as [[|]|], (U.is_validated u); reflexivity.
Qed.

Lemma null_to_false_cps_id_where (m : migration) (v : view) (u : U.t) :
  Sql.holds (View.latest_cps_id_where m v (null_to_false u))
  = Sql.holds (View.latest_cps_id_where m v u).
Proof.
  destruct m, v; unfold View.latest_cps_id_where, View.cps_id_scope,
    View.validated; simpl;
    destruct (U.apply_for_all u) as [[|]|], (U.is_validated u); reflexivity.
Qed.

Lemma null_to_false_device_partition (m : migration) (v : view)
    (log : list U.t) (d f : string) :
  View.device_partition m v (nulls_to_false log) d f
  = map null_to_false (View.device_partition m v log d f).
Proof.
  unfold View.device_partition, nulls_to_false.
  rewrite !filter_map_swap. f_equal.
  f_equal. apply filter_ext. intros u. apply null_to_false_device_where.
Qed.

Lemma null_to_false_from (m : migration) (gold : list G.t) (log : list U.t) :
  View.latest_cps_id_from m gold (nulls_to_false log)
  = map (fun r => (fst r, null_to_false (snd r)))
      (View.latest_cps_id_from m gold log).
Proof.
  unfold nulls_to_false. destruct m; simpl.
  - rewrite !map_map. reflexivity.
  - induction log as [|u log IH]; simpl; [reflexivity|].
    rewrite IH, map_app, map_map. reflexivity.
Qed.

Lemma null_to_false_cps_id_partition (m : migration) (v : view)
    (gold : list G.t) (log : list U.t) (k f : string) :
  View.cps_id_partition m v gold (nulls_to_false log) k f
  = map null_to_false (View.cps_id_partition m v gold log k f).
Proof.
  unfold View.cps_id_partition. rewrite null_to_false_from.
  rewrite !filter_map_swap, !map_map. simpl.
  f_equal. f_equal. apply filter_ext. intros r.
  apply null_to_false_cps_id_where.
Qed.

Lemma null_to_false_first (v : view) (partition : list U.t) :
  hd_error (Sql.order_by (View.window_order v) (map null_to_false partition))
  = option_map null_to_false
      (hd_error (Sql.order_by (View.window_order v) partition)).
Proof.
  rewrite (order_by_map (View.window_order v) (View.window_order v)).
  - apply hd_error_map.
  - intros a b. destruct v; reflexivity.
Qed.

Lemma null_to_false_column_text (m : migration) (v : view) (gold : list G.t)
    (log : list U.t) (g : G.t) (c : Col.t) :
  View.column_text m v gold (nulls_to_false log) g c
  = View.column_text m v gold log g c.
Proof.
  unfold View.column_text.
  rewrite !latest_device_first, !latest_cps_id_first.
  rewrite null_to_false_device_partition, null_to_false_cps_id_partition.
  rewrite !null_to_false_first. unfold View.candidates.
  destruct (hd_error (Sql.order_by _ (View.device_partition _ _ _ _ _)));
    destruct (hd_error (Sql.order_by _ (View.cps_id_partition _ _ _ _ _ _)));
    reflexivity.
Qed.

(** C10.  In both views of both migrations, for every gold table, log, gold
    row and column: setting [apply_for_all] to FALSE on the rows where it
    is NULL changes neither the text the column's [COALESCE] returns nor
    the value of the column, nor the row the view returns for the device
    (for every cast of the numeric column). *)
Theorem C10_null_apply_for_all_is_false (m : migration) (v : view)
    (gold : list G.t) (log : list U.t) (g : G.t) :
  (forall c, View.column_text m v gold (nulls_to_false log) g c
             = View.column_text m v gold log g c)
  /\ forall cast,
       (forall c, View.column_value cast m v gold (nulls_to_false log) g c
                  = View.column_value cast m v gold log g c)
       /\ View.select_row cast m v gold (nulls_to_false log) g
          = View.select_row cast m v gold log g.
Proof.
  split; [intros c; apply null_to_false_column_text|].
  intros cast.
  assert (Hv : forall c,
             View.column_value cast m v gold (nulls_to_false log) g c
             = View.column_value cast m v gold log g c).
  { intros c. unfold View.column_value.
    now rewrite null_to_false_column_text. }
  split; [exact Hv|].
  unfold View.select_row. f_equal. apply map_ext. exact Hv.
Qed.

(** The NULL row of the example is read as a device-scope override. *)
Example null_apply_for_all_example :
  View.column_text update_view_for_apply_for_all v_cps_catalog_effective
    Example.gold Example.log_null Example.d1 Col.category = Some "Medical"
  /\ nulls_to_false Example.log_null = Example.log_dev_grp.
Proof. split; reflexivity. Qed.

(* ------------------------------------------------------------------ *)
(** ** C4: the validated view against the effective view *)
(* ------------------------------------------------------------------ *)

Lemma validated_device_where (m : migration) (u : U.t) :
  Sql.holds (View.latest_device_where m v_cps_catalog_effective_validated u)
  = Sql.holds (View.latest_device_where m v_cps_catalog_effective u)
    && U.is_validated u.
Proof.
  destruct m; unfold View.latest_device_where, View.device_scope,
    View.validated;
    destruct (U.apply_for_all u) as [[|]|], (U.is_validated u); reflexivity.
Qed.

Lemma validated_cps_id_where (m : migration) (u : U.t) :
  Sql.holds (View.latest_cps_id_where m v_cps_catalog_effective_validated u)
  = Sql.holds (View.latest_cps_id_where m v_cps_catalog_effective u)
    && U.is_validated u.
Proof.
  destruct m; unfold View.latest_cps_id_where, View.cps_id_scope,
    View.validated;
    destruct (U.apply_for_all u) as [[|]|], (U.is_validated u); reflexivity.
Qed.

(** The validated view's partitions are the effective view's partitions
    without their unvalidated rows. *)
Lemma validated_device_partition (m : migration) (log : list U.t)
    (d f : string) :
  View.device_partition m v_cps_catalog_effective_validated log d f
  = filter U.is_validated
      (View.device_partition m v_cps_catalog_effective log d f).
Proof.
  unfold View.device_partition. rewrite !filter_filter.
  apply filter_ext. intros u. rewrite validated_device_where.
  destruct (Sql.holds _), (U.is_validated u), (String.eqb (U.device_uuid u) d),
    (String.eqb (U.field_name u) f); reflexivity.
Qed.

Lemma validated_cps_id_partition (m : migration) (gold : list G.t)
    (log : list U.t) (k f : string) :
  View.cps_id_partition m v_cps_catalog_effective_validated gold log k f
  = filter U.is_validated
      (View.cps_id_partition m v_cps_catalog_effective gold log k f).
Proof.
  unfold View.cps_id_partition. rewrite filter_map_swap, !filter_filter.
  f_equal. apply filter_ext. intros r. rewrite validated_cps_id_where.
  destruct (Sql.holds _), (U.is_validated (snd r)), (String.eqb (fst r) k),
    (String.eqb (U.field_name (snd r)) f); reflexivity.
Qed.

(** The first row of the validated window is the first row of the
    effective window when that row is validated; otherwise the validated
    window is empty. *)
Lemma validated_first (partition : list U.t) :
  hd_error
    (Sql.order_by (View.window_order v_cps_catalog_effective_validated)
       (filter U.is_validated partition))
  = match hd_error
            (Sql.order_by (View.window_order v_cps_catalog_effective)
               partition) with
    | Some w => if U.is_validated w then Some w else None
    | None => None
    end.
Proof.
  destruct (hd_error (Sql.order_by _ partition)) as [w|] eqn:H.
  - destruct (U.is_validated w) eqn:Hv.
    + rewrite <- (order_by_ext_in
                    (View.window_order v_cps_catalog_effective)).
      * exact (first_filter _ (window_order_flip _) (window_order_trans _)
                 U.is_validated partition w H Hv).
      * intros a b Ha Hb. apply filter_In in Ha, Hb.
        apply window_order_validated_rows; tauto.
    + rewrite filter_none; [reflexivity|].
      intros e He. apply window_first in H. destruct H as [_ Hle].
      specialize (Hle e He). apply effective_not_after in Hle.
      rewrite Hv in Hle. destruct (U.is_validated e); [|reflexivity].
      intuition discriminate.
  - apply first_nil in H. subst partition. reflexivity.
Qed.

Lemma validated_latest_device (m : migration) (log : list U.t) (g : G.t)
    (c : Col.t) :
  View.latest_device m v_cps_catalog_effective_validated log g c
  = match View.latest_device m v_cps_catalog_effective log g c with
    | Some w => if U.is_validated w then Some w else None
    | None => None
    end.
Proof.
  rewrite !latest_device_first, validated_device_partition.
  apply validated_first.
Qed.

Lemma validated_latest_cps_id (m : migration) (gold : list G.t)
    (log : list U.t) (g : G.t) (c : Col.t) :
  View.latest_cps_id m v_cps_catalog_effective_validated gold log g c
  = match View.latest_cps_id m v_cps_catalog_effective gold log g c with
    | Some w => if U.is_validated w then Some w else None
    | None => None
    end.
Proof.
  rewrite !latest_cps_id_first, validated_cps_id_partition.
  apply validated_first.
Qed.

(** The source of a column is a row the joins kept. *)
Lemma column_source_cases (m : migration) (v : view) (gold : list G.t)
    (log : list U.t) (g : G.t) (c : Col.t) (u : U.t) :
  (View.column_source m v gold log g c = View.from_device u ->
   View.latest_device m v log g c = Some u /\ U.new_value u <> EmptyString)
  /\ (View.column_source m v gold log g c = View.from_cps_id u ->
      View.latest_cps_id m v gold log g c = Some u /\ U.new_value u <> EmptyString).
Proof.
  unfold View.column_source, View.candidates.
  destruct (View.latest_device m v log g c) as [d|];
    destruct (View.latest_cps_id m v gold log g c) as [k|]; simpl;
    try destruct (String.eqb_spec (U.new_value d) EmptyString);
    try destruct (String.eqb_spec (U.new_value k) EmptyString);
    simpl; split; intros H; try discriminate;
    injection H as <-; auto.
Qed.

(** C4, as the views have it.  In both migrations, for every gold table,
    log, gold row and column: (1) the partitions of the validated view are
    those of the effective view without the rows whose [is_validated] is
    false, in the device window and in the cps_id window; (2) the row the
    validated view keeps in a window is first under [changed_at]
    descending, then [id] descending; (3) in each window the validated view
    keeps the row the effective view keeps when that row is validated, and
    no row otherwise; (4) the source of a column of the validated view is
    never an unvalidated row; (5) the validated view takes the same source
    as the effective view when that source is a validated row or the base;
    when the effective source is an unvalidated device row it takes the
    validated cps_id row with a value (of any age), else the base; when the
    effective source is an unvalidated cps_id row it takes the base. *)
Theorem C4_validated_refines_effective (m : migration) (gold : list G.t)
    (log : list U.t) (g : G.t) (c : Col.t) :
  let eff := v_cps_catalog_effective in
  let val := v_cps_catalog_effective_validated in
  let d := G.device_uuid g in
  let k := G.cps_id g in
  let f := Col.field_name c in
  let newest_first (partition : list U.t) (w : U.t) :=
    In w partition
    /\ forall e, In e partition ->
         U.changed_at e < U.changed_at w
         \/ (U.changed_at w = U.changed_at e /\ U.id e <= U.id w) in
  let if_validated (o : option U.t) :=
    match o with
    | Some w => if U.is_validated w then Some w else None
    | None => None
    end in
  (View.device_partition m val log d f
   = filter U.is_validated (View.device_partition m eff log d f)
   /\ View.cps_id_partition m val gold log k f
      = filter U.is_validated (View.cps_id_partition m eff gold log k f))
  /\ ((forall w, View.latest_device m val log g c = Some w ->
         newest_first (View.device_partition m val log d f) w)
      /\ (forall w, View.latest_cps_id m val gold log g c = Some w ->
            newest_first (View.cps_id_partition m val gold log k f) w))
  /\ (View.latest_device m val log g c
      = if_validated (View.latest_device m eff log g c)
      /\ View.latest_cps_id m val gold log g c
         = if_validated (View.latest_cps_id m eff gold log g c))
  /\ (forall u,
        View.column_source m val gold log g c = View.from_device u
        \/ View.column_source m val gold log g c = View.from_cps_id u ->
        U.is_validated u = true)
  /\ View.column_source m val gold log g c
     = match View.column_source m eff gold log g c with
       | View.from_device u =>
           if U.is_validated u then View.from_device u
           else
             match View.latest_cps_id m val gold log g c with
             | Some w =>
                 if String.eqb (U.new_value w) EmptyString then View.from_gold
                 else View.from_cps_id w
             | None => View.from_gold
             end
       | View.from_cps_id u =>
           if U.is_validated u then View.from_cps_id u else View.from_gold
       | View.from_gold => View.from_gold
       end.
Proof.
  intros eff val d k f newest_first if_validated.
  assert (Hnew : forall partition w,
             hd_error (Sql.order_by (View.window_order val) partition)
             = Some w -> newest_first partition w).
  { intros partition w H. apply window_first in H. destruct H as [Hin Hle].
    split; [assumption|]. intros e He. apply validated_not_after.
    now apply Hle. }
  pose proof (validated_latest_device m log g c) as Hd.
  pose proof (validated_latest_cps_id m gold log g c) as Hk.
  split; [split|split; [split|split; [split|split]]].
  - apply validated_device_partition.
  - apply validated_cps_id_partition.
  - intros w Hw. apply Hnew. rewrite latest_device_first in Hw. exact Hw.
  - intros w Hw. apply Hnew. rewrite latest_cps_id_first in Hw. exact Hw.
  - exact Hd.
  - exact Hk.
  - intros u [H|H].
    + apply column_source_cases in H. destruct H as [H _].
      fold val in Hd. rewrite Hd in H.
      destruct (View.latest_device m v_cps_catalog_effective log g c)
        as [w|]; [|discriminate].
      destruct (U.is_validated w) eqn:Hv; [|discriminate].
      now injection H as <-.
    + apply column_source_cases in H. destruct H as [H _].
      fold val in Hk. rewrite Hk in H.
      destruct (View.latest_cps_id m v_cps_catalog_effective gold log g c)
        as [w|]; [|discriminate].
      destruct (U.is_validated w) eqn:Hv; [|discriminate].
      now injection H as <-.
  - unfold View.column_source, View.candidates. fold val eff.
    fold val in Hd, Hk. fold eff in Hd, Hk. rewrite Hd, Hk.
    destruct (View.latest_device m eff log g c) as [x|];
      destruct (View.latest_cps_id m eff gold log g c) as [y|]; simpl;
      try destruct (U.is_validated x) eqn:Hx;
      try destruct (U.is_validated y) eqn:Hy; simpl;
      try destruct (String.eqb (U.new_value x) EmptyString) eqn:Ex;
      try destruct (String.eqb (U.new_value y) EmptyString) eqn:Ey; simpl;
      rewrite ?Hx, ?Hy, ?Ex, ?Ey; reflexivity.
Qed.

Lemma C4_validated_refines_effective_witness :
  View.column_source update_views_for_device_type
    v_cps_catalog_effective_validated Example.gold Example.log_5_9
    Example.d1 Col.vendor
  = View.from_device Example.e5
  /\ U.is_validated Example.e5 = true.
Proof.
  pose proof (C4_validated_refines_effective update_views_for_device_type
                Example.gold Example.log_5_9 Example.d1 Col.vendor) as H.
  destruct H as (_ & _ & _ & Hval & Hsrc).
  assert (E : View.column_source update_views_for_device_type
                v_cps_catalog_effective Example.gold Example.log_5_9
                Example.d1 Col.vendor = View.from_device Example.e5)
    by reflexivity.
  rewrite E in Hsrc. split.
  - exact Hsrc.
  - apply Hval. left. exact Hsrc.
Defined.

(** The validated view can take a row that is newer than the unvalidated
    row the effective view takes: an unvalidated device override of time 10
    against a validated cps_id-wide override of time 999. *)
Lemma C4_counterexample :
  let eff :=
    View.column_source update_views_for_device_type v_cps_catalog_effective
      Example.gold Example.log_dev_grp Example.d1 Col.category in
  let val :=
    View.column_source update_views_for_device_type
      v_cps_catalog_effective_validated
      Example.gold Example.log_dev_grp Example.d1 Col.category in
  eff = View.from_device Example.dev_old
  /\ val = View.from_cps_id Example.grp_new
  /\ val <> eff
  /\ val <> View.from_gold
  /\ ~ U.changed_at Example.grp_new < U.changed_at Example.dev_old.
Proof.
  repeat split; try discriminate.
Qed.

(* ------------------------------------------------------------------ *)
(** ** C2: overrides with an empty value *)
(* ------------------------------------------------------------------ *)

(** Filtering the log filters each partition. *)
Lemma device_partition_filter (keep : U.t -> bool) (m : migration)
    (v : view) (log : list U.t) (d f : string) :
  View.device_partition m v (filter keep log) d f
  = filter keep (View.device_partition m v log d f).
Proof.
  unfold View.device_partition. rewrite !filter_filter.
  apply filter_ext. intros u.
  destruct (keep u), (Sql.holds _), (String.eqb (U.device_uuid u) d),
    (String.eqb (U.field_name u) f); reflexivity.
Qed.

Lemma latest_cps_id_from_filter (keep : U.t -> bool) (m : migration)
    (gold : list G.t) (log : list U.t) :
  View.latest_cps_id_from m gold (filter keep log)
  = filter (fun r => keep (snd r)) (View.latest_cps_id_from m gold log).
Proof.
  destruct m; simpl.
  - rewrite filter_map_swap. reflexivity.
  - induction log as [|u log IH]; simpl; [reflexivity|].
    rewrite filter_app, <- IH, filter_map_swap. simpl.
    destruct (keep u); simpl.
    + rewrite (filter_all (fun _ : G.t => true)) by (intros; reflexivity).
      reflexivity.
    + rewrite (filter_none (fun _ : G.t => false)) by (intros; reflexivity).
      reflexivity.
Qed.

Lemma cps_id_partition_filter (keep : U.t -> bool) (m : migration)
    (v : view) (gold : list G.t) (log : list U.t) (k f : string) :
  View.cps_id_partition m v gold (filter keep log) k f
  = filter keep (View.cps_id_partition m v gold log k f).
Proof.
  unfold View.cps_id_partition.
  rewrite latest_cps_id_from_filter, filter_map_swap, !filter_filter.
  f_equal. apply filter_ext. intros r.
  destruct (keep (snd r)), (Sql.holds _), (String.eqb (fst r) k),
    (String.eqb (U.field_name (snd r)) f); reflexivity.
Qed.

(** Filtering a partition keeps its first row when the filter keeps it. *)
Lemma window_first_filter (v : view) (keep : U.t -> bool)
    (partition : list U.t) :
  (forall w,
      hd_error (Sql.order_by (View.window_order v) partition) = Some w ->
      keep w = true) ->
  hd_error (Sql.order_by (View.window_order v) (filter keep partition))
  = hd_error (Sql.order_by (View.window_order v) partition).
Proof.
  intros H.
  destruct (hd_error (Sql.order_by (View.window_order v) partition))
    as [w|] eqn:Hw.
  - exact (first_filter _ (window_order_flip _) (window_order_trans _)
             keep partition w Hw (H w eq_refl)).
  - apply first_nil in Hw. subst partition. reflexivity.
Qed.

(** Deleting an entry that neither join keeps changes no column. *)
Lemma column_text_without (m : migration) (v : view) (gold : list G.t)
    (log : list U.t) (g : G.t) (c : Col.t) (id : Z) :
  (forall w, View.latest_device m v log g c = Some w -> U.id w <> id) ->
  (forall w, View.latest_cps_id m v gold log g c = Some w -> U.id w <> id) ->
  View.column_text m v gold (OverrideLog.without id log) g c
  = View.column_text m v gold log g c.
Proof.
  intros Hd Hk. unfold View.column_text, OverrideLog.without.
  rewrite latest_device_first in Hd. rewrite latest_cps_id_first in Hk.
  rewrite !latest_device_first, !latest_cps_id_first.
  rewrite device_partition_filter, cps_id_partition_filter.
  rewrite !window_first_filter; [reflexivity| |].
  - intros w Hw. apply negb_true_iff, Z.eqb_neq. now apply Hk.
  - intros w Hw. apply negb_true_iff, Z.eqb_neq. now apply Hd.
Qed.

(** Rows of a log with distinct identifiers are told apart by them. *)
Lemma id_unique (log : list U.t) (a b : U.t) :
  NoDup (map U.id log) -> In a log -> In b log -> U.id a = U.id b -> a = b.
Proof.
  induction log as [|x log IH]; intros Hnd Ha Hb E; [destruct Ha|].
  simpl in Hnd. inversion Hnd as [|i l Hnotin Hnd']; subst.
  destruct Ha as [->|Ha], Hb as [->|Hb].
  - reflexivity.
  - exfalso. apply Hnotin. rewrite E. now apply in_map.
  - exfalso. apply Hnotin. rewrite <- E. now apply in_map.
  - now apply IH.
Qed.

(** The row a join keeps is a row of the log of the scope of its CTE. *)
Lemma latest_device_row (m : migration) (v : view) (log : list U.t)
    (g : G.t) (c : Col.t) (w : U.t) :
  View.latest_device m v log g c = Some w ->
  In w log /\ U.apply_for_all w <> Some true.
Proof.
  intros H. rewrite latest_device_first in H. apply window_first in H.
  destruct H as [H _]. apply In_device_partition in H.
  destruct H as (Hin & Hw & _). apply latest_device_where_holds in Hw.
  tauto.
Qed.

Lemma latest_cps_id_row (m : migration) (v : view) (gold : list G.t)
    (log : list U.t) (g : G.t) (c : Col.t) (w : U.t) :
  View.latest_cps_id m v gold log g c = Some w ->
  In w log /\ U.apply_for_all w = Some true.
Proof.
  intros H. rewrite latest_cps_id_first in H. apply window_first in H.
  destruct H as [H _]. apply In_cps_id_partition in H.
  destruct H as (Hfrom & Hw & _). apply In_latest_cps_id_from in Hfrom.
  apply latest_cps_id_where_holds in Hw. tauto.
Qed.

(** Deleting a device-scope entry leaves the cps_id windows as they are;
    deleting a cps_id-wide entry leaves the device windows as they are. *)
Lemma latest_cps_id_without_device_row (m : migration) (v : view)
    (gold : list G.t) (log : list U.t) (g : G.t) (c : Col.t) (e : U.t) :
  NoDup (map U.id log) -> In e log -> U.apply_for_all e <> Some true ->
  View.latest_cps_id m v gold (OverrideLog.without (U.id e) log) g c
  = View.latest_cps_id m v gold log g c.
Proof.
  intros Hnd He Ha. rewrite !latest_cps_id_first. unfold OverrideLog.without.
  rewrite cps_id_partition_filter, filter_all; [reflexivity|].
  intros u Hu. apply In_cps_id_partition in Hu. destruct Hu as (Hfrom & Hw & _).
  apply In_latest_cps_id_from in Hfrom. destruct Hfrom as [Hin _].
  apply latest_cps_id_where_holds in Hw. destruct Hw as [Hw _].
  apply negb_true_iff, Z.eqb_neq. intros E. apply Ha.
  now rewrite <- (id_unique log u e Hnd Hin He E).
Qed.

Lemma latest_device_without_cps_id_row (m : migration) (v : view)
    (log : list U.t) (g : G.t) (c : Col.t) (e : U.t) :
  NoDup (map U.id log) -> In e log -> U.apply_for_all e = Some true ->
  View.latest_device m v (OverrideLog.without (U.id e) log) g c
  = View.latest_device m v log g c.
Proof.
  intros Hnd He Ha. rewrite !latest_device_first. unfold OverrideLog.without.
  rewrite device_partition_filter, filter_all; [reflexivity|].
  intros u Hu. apply In_device_partition in Hu. destruct Hu as (Hin & Hw & _).
  apply latest_device_where_holds in Hw. destruct Hw as [Hw _].
  apply negb_true_iff, Z.eqb_neq. intros E. apply Hw.
  now rewrite (id_unique log u e Hnd Hin He E).
Qed.

(** A partition that holds one row only is empty once the row is
    deleted. *)
Lemma first_without_only_row (v : view) (e : U.t) :
  hd_error
    (Sql.order_by (View.window_order v)
       (filter (fun u => negb (U.id u =? U.id e)) [e]))
  = None.
Proof. simpl. now rewrite Z.eqb_refl. Qed.

(** The value a scope contributes: none when its join keeps no row or a
    blank one. *)
Lemma NULLIF_blank (w : option U.t) :
  (forall n, w = Some n -> U.new_value n = EmptyString) ->
  Sql.NULLIF (option_map U.new_value w) EmptyString = None.
Proof.
  intros H. destruct w as [n|]; [|reflexivity].
  simpl. now rewrite (H n eq_refl).
Qed.

Lemma NULLIF_value (w : option U.t) (n : U.t) :
  w = Some n -> U.new_value n <> EmptyString ->
  Sql.NULLIF (option_map U.new_value w) EmptyString = Some (U.new_value n).
Proof.
  intros -> Hne. simpl.
  destruct (String.eqb_spec (U.new_value n) EmptyString);
    [contradiction|reflexivity].
Qed.

(** C2, as the views have it.  In both views of both migrations: an entry
    that is in neither window the row the join keeps (in particular a blank
    entry that is not numbered 1) has no effect: the column is the same
    over the log without it.  A blank entry that is the row the join keeps
    in its window makes that scope yield no value: the column is what the
    [COALESCE] gives with that scope's argument NULL (the kept row of the
    other scope, else the base), and no other row of its partition is
    consulted.  With distinct entry identifiers, deleting such a kept blank
    entry leaves the column as it is exactly when the row its window keeps
    after the deletion is absent or blank or carries the value the column
    had (or, for a cps_id-wide entry, when the device scope has a value);
    in particular when the entry is alone in its partition. *)
Theorem C2_blank_override (m : migration) (v : view) (gold : list G.t)
    (log : list U.t) (g : G.t) (c : Col.t) (e : U.t) :
  U.new_value e = EmptyString ->
  let log' := OverrideLog.without (U.id e) log in
  ((forall w, View.latest_device m v log g c = Some w -> U.id w <> U.id e) ->
   (forall w, View.latest_cps_id m v gold log g c = Some w ->
              U.id w <> U.id e) ->
   View.column_text m v gold log' g c = View.column_text m v gold log g c)
  /\ (View.latest_device m v log g c = Some e ->
      View.column_text m v gold log g c
      = Sql.COALESCE
          (View.candidates None (View.latest_cps_id m v gold log g c)
             (G.attr g c)))
  /\ (View.latest_cps_id m v gold log g c = Some e ->
      View.column_text m v gold log g c
      = Sql.COALESCE
          (View.candidates (View.latest_device m v log g c) None
             (G.attr g c)))
  /\ (NoDup (map U.id log) ->
      View.latest_device m v log g c = Some e ->
      (View.column_text m v gold log' g c = View.column_text m v gold log g c
       <-> forall n, View.latest_device m v log' g c = Some n ->
             U.new_value n = EmptyString
             \/ Some (U.new_value n) = View.column_text m v gold log g c)
      /\ (View.device_partition m v log (G.device_uuid g) (Col.field_name c)
          = [e] ->
          View.column_text m v gold log' g c
          = View.column_text m v gold log g c))
  /\ (NoDup (map U.id log) ->
      View.latest_cps_id m v gold log g c = Some e ->
      (View.column_text m v gold log' g c = View.column_text m v gold log g c
       <-> forall n, View.latest_cps_id m v gold log' g c = Some n ->
             U.new_value n = EmptyString
             \/ Some (U.new_value n) = View.column_text m v gold log g c
             \/ exists d, View.latest_device m v log g c = Some d
                          /\ U.new_value d <> EmptyString)
      /\ (View.cps_id_partition m v gold log (G.cps_id g) (Col.field_name c)
          = [e] ->
          View.column_text m v gold log' g c
          = View.column_text m v gold log g c)).
Proof.
  intros Hblank log'.
  assert (Hdev : View.latest_device m v log g c = Some e ->
                 View.column_text m v gold log g c
                 = Sql.COALESCE
                     (View.candidates None
                        (View.latest_cps_id m v gold log g c) (G.attr g c))).
  { intros H. unfold View.column_text, View.candidates. rewrite H. simpl.
    rewrite Hblank. reflexivity. }
  assert (Hcps : View.latest_cps_id m v gold log g c = Some e ->
                 View.column_text m v gold log g c
                 = Sql.COALESCE
                     (View.candidates (View.latest_device m v log g c) None
                        (G.attr g c))).
  { intros H. unfold View.column_text, View.candidates. rewrite H. simpl.
    rewrite Hblank. reflexivity. }
  split; [apply column_text_without|].
  split; [exact Hdev|]. split; [exact Hcps|]. split.
  - intros Hnd Hk. specialize (Hdev Hk).
    destruct (latest_device_row m v log g c e Hk) as [He Ha].
    assert (E : View.column_text m v gold log' g c
                = Sql.COALESCE
                    (View.candidates (View.latest_device m v log' g c)
                       (View.latest_cps_id m v gold log g c) (G.attr g c))).
    { unfold View.column_text, log'.
      now rewrite latest_cps_id_without_device_row. }
    assert (Hiff : View.column_text m v gold log' g c
                   = View.column_text m v gold log g c
                   <-> forall n, View.latest_device m v log' g c = Some n ->
                         U.new_value n = EmptyString
                         \/ Some (U.new_value n)
                            = View.column_text m v gold log g c).
    { rewrite E. unfold View.candidates at 1.
      destruct (View.latest_device m v log' g c) as [n|] eqn:Hn.
      - destruct (String.eqb_spec (U.new_value n) EmptyString) as [Hb|Hb].
        + rewrite (NULLIF_blank (Some n))
            by (intros n' [= <-]; exact Hb).
          split; [intros _ n' [= <-]; now left|intros _].
          now rewrite Hdev.
        + rewrite (NULLIF_value (Some n) n eq_refl Hb). simpl. split.
          * intros H n' [= <-]. now right.
          * intros H. destruct (H n eq_refl) as [H'|H']; [contradiction|].
            exact H'.
      - split; [intros _ n' [=]|intros _]. now rewrite Hdev. }
    split; [exact Hiff|]. intros Hp. apply Hiff. intros n Hn. exfalso.
    unfold log', OverrideLog.without in Hn.
    rewrite latest_device_first, device_partition_filter, Hp in Hn.
    rewrite first_without_only_row in Hn. discriminate Hn.
  - intros Hnd Hk. specialize (Hcps Hk).
    destruct (latest_cps_id_row m v gold log g c e Hk) as [He Ha].
    assert (E : View.column_text m v gold log' g c
                = Sql.COALESCE
                    (View.candidates (View.latest_device m v log g c)
                       (View.latest_cps_id m v gold log' g c) (G.attr g c))).
    { unfold View.column_text, log'.
      now rewrite latest_device_without_cps_id_row. }
    assert (Hiff : View.column_text m v gold log' g c
                   = View.column_text m v gold log g c
                   <-> forall n, View.latest_cps_id m v gold log' g c = Some n ->
                         U.new_value n = EmptyString
                         \/ Some (U.new_value n)
                            = View.column_text m v gold log g c
                         \/ exists d,
                              View.latest_device m v log g c = Some d
                              /\ U.new_value d <> EmptyString).
    { rewrite E, Hcps. unfold View.candidates.
      destruct (View.latest_device m v log g c) as [d|] eqn:Hd.
      - destruct (String.eqb_spec (U.new_value d) EmptyString) as [Hb|Hb].
        + rewrite (NULLIF_blank (Some d)) by (intros d' [= <-]; exact Hb).
          destruct (View.latest_cps_id m v gold log' g c) as [n|] eqn:Hn.
          * destruct (String.eqb_spec (U.new_value n) EmptyString)
              as [Hnb|Hnb].
            -- rewrite (NULLIF_blank (Some n))
                 by (intros n' [= <-]; exact Hnb).
               split; [intros _ n' [= <-]; now left|reflexivity].
            -- rewrite (NULLIF_value (Some n) n eq_refl Hnb). simpl. split.
               ++ intros H n' [= <-]. right. now left.
               ++ intros H.
                  destruct (H n eq_refl) as [H'|[H'|(d' & [= <-] & H')]];
                    [contradiction|exact H'|contradiction].
          * split; [intros _ n' [=]|reflexivity].
        + rewrite (NULLIF_value (Some d) d eq_refl Hb). simpl.
          split; [|reflexivity]. intros _ n _. right. right. now exists d.
      - destruct (View.latest_cps_id m v gold log' g c) as [n|] eqn:Hn.
        + destruct (String.eqb_spec (U.new_value n) EmptyString) as [Hnb|Hnb].
          * rewrite (NULLIF_blank (Some n)) by (intros n' [= <-]; exact Hnb).
            split; [intros _ n' [= <-]; now left|reflexivity].
          * rewrite (NULLIF_value (Some n) n eq_refl Hnb). simpl. split.
            -- intros H n' [= <-]. right. now left.
            -- intros H.
               destruct (H n eq_refl) as [H'|[H'|(d' & [=] & _)]];
                 [contradiction|exact H'].
        + split; [intros _ n' [=]|reflexivity]. }
    split; [exact Hiff|]. intros Hp. apply Hiff. intros n Hn. exfalso.
    unfold log', OverrideLog.without in Hn.
    rewrite latest_cps_id_first, cps_id_partition_filter, Hp in Hn.
    rewrite first_without_only_row in Hn. discriminate Hn.
Qed.

Lemma C2_blank_override_witness :
  View.column_text update_views_for_device_type v_cps_catalog_effective
    Example.gold Example.log_blank Example.d1 Col.vendor
  = Some "Acme"
  /\ View.column_text update_views_for_device_type v_cps_catalog_effective
       Example.gold (OverrideLog.without 7 Example.log_blank_older)
       Example.d1 Col.vendor
     = View.column_text update_views_for_device_type v_cps_catalog_effective
         Example.gold Example.log_blank_older Example.d1 Col.vendor
  /\ View.column_text update_views_for_device_type v_cps_catalog_effective
       Example.gold (OverrideLog.without 14 Example.log_blank_twice)
       Example.d1 Col.vendor
     = View.column_text update_views_for_device_type v_cps_catalog_effective
         Example.gold Example.log_blank_twice Example.d1 Col.vendor.
Proof.
  split; [|split].
  - destruct (C2_blank_override update_views_for_device_type
                v_cps_catalog_effective Example.gold Example.log_blank
                Example.d1 Col.vendor Example.blank_new eq_refl)
      as (_ & H & _).
    rewrite H; reflexivity.
  - destruct (C2_blank_override update_views_for_device_type
                v_cps_catalog_effective Example.gold Example.log_blank_older
                Example.d1 Col.vendor Example.blank_new eq_refl)
      as (H & _).
    apply H; intros w Hw; vm_compute in Hw.
    + injection Hw as <-. discriminate.
    + discriminate Hw.
  - destruct (C2_blank_override update_views_for_device_type
                v_cps_catalog_effective Example.gold Example.log_blank_twice
                Example.d1 Col.vendor Example.blank_newest eq_refl)
      as (_ & _ & _ & H & _).
    destruct H as [H _].
    + simpl. repeat constructor; simpl; intuition discriminate.
    + reflexivity.
    + apply H. intros n Hn. vm_compute in Hn. injection Hn as <-.
      now left.
Defined.

(** A blank entry is not the same as no entry: the blank override of the
    example hides the older device-scope override of the same field, which
    comes back when the blank one is deleted. *)
Lemma C2_counterexample :
  In Example.blank_new Example.log_blank
  /\ U.new_value Example.blank_new = EmptyString
  /\ View.column_text update_views_for_device_type v_cps_catalog_effective
       Example.gold Example.log_blank Example.d1 Col.vendor
     = Some "Acme"
  /\ View.column_text update_views_for_device_type v_cps_catalog_effective
       Example.gold
       (OverrideLog.without (U.id Example.blank_new) Example.log_blank)
       Example.d1 Col.vendor
     = Some "AcmeCorp".
Proof.
  repeat split. right. now left.
Qed.

(* ------------------------------------------------------------------ *)
(** ** C3: the cast of the numeric column *)
(* ------------------------------------------------------------------ *)

Lemma all_ok_raise_in {A B : Type} (f : A -> Sql.result B) (l : list A)
    (x : A) (e : string) :
  In x l -> f x = Sql.Raise e ->
  exists e', View.all_ok (map f l) = Sql.Raise e'.
Proof.
  induction l as [|a l IH]; intros Hin Hx; [destruct Hin|].
  simpl. destruct (f a) as [b|e0] eqn:Ha; [|now exists e0].
  destruct Hin as [->|Hin]; [congruence|].
  destruct (IH Hin Hx) as [e' ->]. now exists e'.
Qed.

Lemma risk_score_raises (cast : option string -> Sql.result (option Z))
    (v : view) (gold : list G.t) (log : list U.t) (g : G.t) (e : string) :
  let m := update_view_for_apply_for_all in
  cast (View.column_text m v gold log g Col.risk_score) = Sql.Raise e ->
  View.column_value cast m v gold log g Col.risk_score = Sql.Raise e
  /\ View.select_row cast m v gold log g = Sql.Raise e
  /\ (In g gold -> exists e', View.select_all cast m v gold log = Sql.Raise e').
Proof.
  intros m H.
  assert (Hc : View.column_value cast m v gold log g Col.risk_score
               = Sql.Raise e).
  { unfold View.column_value. simpl. now rewrite H. }
  assert (Hr : View.select_row cast m v gold log g = Sql.Raise e).
  { unfold View.select_row. simpl map. rewrite Hc. reflexivity. }
  split; [exact Hc|split; [exact Hr|]].
  intros Hin. unfold View.select_all. now apply (all_ok_raise_in _ gold g e).
Qed.

(** C3, as the view has it.  In [update_view_for_apply_for_all], for every
    cast to [numeric(4, 1)]: the cast is applied to the text the [COALESCE]
    of [risk_score] selected.  When the device-scope row kept by the join
    has a value (not blank) on which the cast raises, the column raises,
    the row of the view for that device raises, and the query over the
    view raises, whatever the cps_id-scope row and the base value are; the
    same holds for the value of the cps_id-scope row when the device scope
    gives none.  There is no fall through to the next candidate. *)
Theorem C3_risk_score_cast_raises
    (cast : option string -> Sql.result (option Z)) (v : view)
    (gold : list G.t) (log : list U.t) (g : G.t) (w : U.t) (e : string) :
  let m := update_view_for_apply_for_all in
  U.new_value w <> EmptyString ->
  cast (Some (U.new_value w)) = Sql.Raise e ->
  View.latest_device m v log g Col.risk_score = Some w
  \/ (Sql.NULLIF
        (option_map U.new_value
           (View.latest_device m v log g Col.risk_score)) EmptyString = None
      /\ View.latest_cps_id m v gold log g Col.risk_score = Some w) ->
  View.column_value cast m v gold log g Col.risk_score = Sql.Raise e
  /\ View.select_row cast m v gold log g = Sql.Raise e
  /\ (In g gold -> exists e', View.select_all cast m v gold log = Sql.Raise e').
Proof.
  intros m Hne Hcast Hw. subst m. apply risk_score_raises.
  replace (View.column_text update_view_for_apply_for_all v gold log g
             Col.risk_score)
    with (Some (U.new_value w)); [exact Hcast|].
  symmetry. destruct Hw as [Hd|[Hd Hk]].
  - now apply column_text_device.
  - unfold View.column_text, View.candidates. rewrite Hk. simpl.
    rewrite Hd. simpl.
    destruct (String.eqb_spec (U.new_value w) EmptyString); [contradiction|reflexivity].
Qed.

Lemma C3_risk_score_cast_raises_witness :
  View.select_row Numeric.numeric_4_1 update_view_for_apply_for_all
    v_cps_catalog_effective Example.gold Example.log_risk Example.d1
  = Sql.Raise "invalid input syntax for type numeric".
Proof.
  apply (C3_risk_score_cast_raises Numeric.numeric_4_1
           v_cps_catalog_effective Example.gold Example.log_risk Example.d1
           Example.risk_dev).
  - discriminate.
  - reflexivity.
  - left. reflexivity.
Defined.

(** The device-scope value "high" does not parse; the cps_id-wide value
    "7.5" and the base value "5.0" do; the column raises instead of taking
    either, and so does the row of the device. *)
Lemma C3_counterexample :
  View.latest_device update_view_for_apply_for_all v_cps_catalog_effective
    Example.log_risk Example.d1 Col.risk_score = Some Example.risk_dev
  /\ View.latest_cps_id update_view_for_apply_for_all v_cps_catalog_effective
       Example.gold Example.log_risk Example.d1 Col.risk_score
     = Some Example.risk_grp
  /\ Numeric.numeric_4_1 (Some (U.new_value Example.risk_grp))
     = Sql.Ok (Some 75)
  /\ Numeric.numeric_4_1 (G.attr Example.d1 Col.risk_score)
     = Sql.Ok (Some 50)
  /\ View.column_value Numeric.numeric_4_1 update_view_for_apply_for_all
       v_cps_catalog_effective Example.gold Example.log_risk Example.d1
       Col.risk_score
     = Sql.Raise "invalid input syntax for type numeric"
  /\ View.select_row Numeric.numeric_4_1 update_view_for_apply_for_all
       v_cps_catalog_effective Example.gold Example.log_risk Example.d1
     = Sql.Raise "invalid input syntax for type numeric".
Proof.
  repeat split.
Qed.

(** The views of [update_views_for_device_type] have no numeric column:
    their rows never raise. *)
Lemma select_row_device_type (cast : option string -> Sql.result (option Z))
    (v : view) (gold : list G.t) (log : list U.t) (g : G.t) :
  View.select_row cast update_views_for_device_type v gold log g
  = Sql.Ok
      (map (fun c => View.text
                       (View.column_text update_views_for_device_type v gold
                          log g c))
         (View.columns update_views_for_device_type)).
Proof. reflexivity. Qed.

(* ------------------------------------------------------------------ *)
(** ** C6: cps_id-wide overrides reach every device of the group *)
(* ------------------------------------------------------------------ *)

(** The column takes the cps_id row's value when the device scope gives
    none and that value is not blank. *)
Lemma column_text_cps_id (m : migration) (v : view) (gold : list G.t)
    (log : list U.t) (g : G.t) (c : Col.t) (w : U.t) :
  Sql.NULLIF (option_map U.new_value (View.latest_device m v log g c)) EmptyString
  = None ->
  View.latest_cps_id m v gold log g c = Some w ->
  U.new_value w <> EmptyString ->
  View.column_text m v gold log g c = Some (U.new_value w).
Proof.
  intros Hd Hk Hne. unfold View.column_text, View.candidates.
  rewrite Hd, Hk. simpl.
  destruct (String.eqb_spec (U.new_value w) EmptyString); [contradiction|reflexivity].
Qed.

(** A gold row added for a device that wrote no cps_id-wide override
    leaves the cps_id partitions as they are. *)
Lemma cps_id_partition_add_device (m : migration) (v : view)
    (gold : list G.t) (log : list U.t) (g_new : G.t) (k f : string) :
  (m = update_views_for_device_type ->
   forall u, In u log -> U.apply_for_all u = Some true ->
             U.device_uuid u <> G.device_uuid g_new) ->
  View.cps_id_partition m v (gold ++ [g_new]) log k f
  = View.cps_id_partition m v gold log k f.
Proof.
  destruct m; intros H; [reflexivity|].
  specialize (H eq_refl). unfold View.cps_id_partition. simpl.
  induction log as [|u log IH]; [reflexivity|].
  simpl. rewrite !filter_app, !map_app.
  rewrite IH by (intros; apply H; [now right|assumption]). clear IH.
  f_equal. simpl (filter _ [g_new]).
  destruct (String.eqb_spec (U.device_uuid u) (G.device_uuid g_new)) as [E|_];
    [|simpl; now rewrite app_nil_r].
  rewrite !filter_app. simpl.
  destruct (Sql.holds
              (View.latest_cps_id_where update_views_for_device_type v u))
    eqn:Hw; [|simpl; now rewrite app_nil_r].
  apply latest_cps_id_where_holds in Hw. destruct Hw as [Hw _].
  exfalso. exact (H u (or_introl eq_refl) Hw E).
Qed.

(** C6, as the views have it.  A cps_id-wide entry belongs to the group
    its CTE reads it with: the [cps_id] stored on the entry in
    [update_view_for_apply_for_all]; the [cps_id] of the gold row of the
    device that wrote it in [update_views_for_device_type].  In both views
    of both migrations: let [w] be an entry of the log written with
    [apply_for_all = TRUE] for column [c] (validated, in the validated
    view) that belongs to group [group], whose value is not blank and that
    comes first, under the [ORDER BY] of the view, among the entries of
    that kind.  Then (1) for every gold row of that [cps_id] whose device
    window keeps no row or a blank one, the column is the value of [w];
    (2) after a gold row [g_new] of that [cps_id] is added to the gold
    table, with the log unchanged, the same holds for [g_new] and for the
    rows already there, provided (in [update_views_for_device_type], which
    finds the group of an entry through the gold row of its device) the log
    holds no cps_id-wide entry written by the added device. *)
Theorem C6_group_propagation (m : migration) (v : view) (gold : list G.t)
    (log : list U.t) (c : Col.t) (w : U.t) (group : string) :
  let in_group (u : U.t) :=
    match m with
    | update_view_for_apply_for_all => U.cps_id u = group
    | update_views_for_device_type =>
        exists gw, In gw gold /\ G.device_uuid gw = U.device_uuid u
                   /\ G.cps_id gw = group
    end in
  let group_entry (u : U.t) :=
    In u log /\ U.apply_for_all u = Some true
    /\ U.field_name u = Col.field_name c
    /\ (v = v_cps_catalog_effective_validated -> U.is_validated u = true)
    /\ in_group u in
  let newer (a b : U.t) :=
    U.changed_at b < U.changed_at a
    \/ (U.changed_at a = U.changed_at b /\ U.id b < U.id a) in
  let before (a b : U.t) :=
    match v with
    | v_cps_catalog_effective =>
        (U.is_validated a = true /\ U.is_validated b = false)
        \/ (U.is_validated a = U.is_validated b /\ newer a b)
    | v_cps_catalog_effective_validated => newer a b
    end in
  let no_device_value (g : G.t) :=
    forall d, View.latest_device m v log g c = Some d ->
              U.new_value d = EmptyString in
  group_entry w ->
  U.new_value w <> EmptyString ->
  (forall u, group_entry u -> u = w \/ before w u) ->
  (forall g, G.cps_id g = group -> no_device_value g ->
             View.column_text m v gold log g c = Some (U.new_value w))
  /\ (forall g_new,
        G.cps_id g_new = group ->
        (m = update_views_for_device_type ->
         forall u, In u log -> U.apply_for_all u = Some true ->
                   U.device_uuid u <> G.device_uuid g_new) ->
        forall g, In g (gold ++ [g_new]) -> G.cps_id g = group ->
                  no_device_value g ->
                  View.column_text m v (gold ++ [g_new]) log g c
                  = Some (U.new_value w)).
Proof.
  intros in_group group_entry newer before no_device_value Hw Hne Hfirst.
  assert (Hkept : forall g, G.cps_id g = group ->
                    View.latest_cps_id m v gold log g c = Some w).
  { intros g Hg. rewrite latest_cps_id_first, Hg.
    assert (Hin : forall u,
               In u (View.cps_id_partition m v gold log group
                       (Col.field_name c)) <-> group_entry u).
    { intros u. rewrite In_cps_id_partition, In_latest_cps_id_from,
        latest_cps_id_where_holds.
      unfold group_entry, in_group. destruct m; tauto. }
    apply window_first_strict; [now apply Hin|].
    intros e He Hle. apply Hin in He.
    destruct (Hfirst e He) as [->|Hb]; [reflexivity|exfalso].
    unfold before, newer in Hb. destruct v.
    - apply effective_not_after in Hle.
      destruct (U.is_validated e), (U.is_validated w);
        intuition (try discriminate; try lia).
    - apply validated_not_after in Hle. lia. }
  split.
  - intros g Hg Hd.
    apply column_text_cps_id; [now apply NULLIF_blank|now apply Hkept|exact Hne].
  - intros g_new Hnew Hfresh g _ Hg Hd.
    apply column_text_cps_id; [now apply NULLIF_blank| |exact Hne].
    rewrite <- (Hkept g Hg). unfold View.latest_cps_id.
    now rewrite (cps_id_partition_add_device m v gold log g_new).
Qed.

Lemma C6_group_propagation_witness :
  View.column_text update_views_for_device_type v_cps_catalog_effective
    (Example.gold ++ [Example.d2]) Example.log_grp_blank Example.d2
    Col.category
  = Some "OT"
  /\ View.column_text update_views_for_device_type v_cps_catalog_effective
       Example.gold Example.log_grp_blank Example.d1 Col.category
     = Some "OT".
Proof.
  destruct (C6_group_propagation update_views_for_device_type
              v_cps_catalog_effective Example.gold Example.log_grp_blank
              Col.category Example.grp_new "g1") as [H1 H2].
  - split; [now left|]. split; [reflexivity|]. split; [reflexivity|].
    split; [discriminate|]. exists Example.d1.
    split; [now left|]. split; reflexivity.
  - discriminate.
  - intros u (Hu & Ha & _). simpl in Hu.
    destruct Hu as [<-|[<-|[]]]; [now left|discriminate Ha].
  - split.
    + apply (H2 Example.d2).
      * reflexivity.
      * intros _ u Hu Ha. simpl in Hu.
        destruct Hu as [<-|[<-|[]]]; [discriminate|discriminate Ha].
      * apply in_or_app. right. now left.
      * reflexivity.
      * intros d Hd. vm_compute in Hd. discriminate Hd.
    + apply (H1 Example.d1); [reflexivity|].
      intros d Hd. vm_compute in Hd. injection Hd as <-. reflexivity.
Defined.

(** In [update_views_for_device_type] an entry written with
    [apply_for_all = TRUE] for group g1 does not reach the devices of g1
    when the device that wrote it has no row in the gold table, or has
    moved to another group: d1 and d2, in g1 and without device-scope
    entries, keep the base category. *)
Lemma C6_counterexample :
  In Example.grp_absent Example.log_grp_absent
  /\ U.apply_for_all Example.grp_absent = Some true
  /\ U.cps_id Example.grp_absent = G.cps_id Example.d1
  /\ U.field_name Example.grp_absent = Col.field_name Col.category
  /\ U.new_value Example.grp_absent = "OT"
  /\ In Example.d1 Example.gold
  /\ View.latest_device update_views_for_device_type v_cps_catalog_effective
       Example.log_grp_absent Example.d1 Col.category = None
  /\ View.column_text update_views_for_device_type v_cps_catalog_effective
       Example.gold Example.log_grp_absent Example.d1 Col.category
     = Some "IT"
  /\ U.apply_for_all Example.grp_new = Some true
  /\ U.cps_id Example.grp_new = G.cps_id Example.d2
  /\ In Example.d2 Example.gold_moved
  /\ View.latest_device update_views_for_device_type v_cps_catalog_effective
       Example.log_grp Example.d2 Col.category = None
  /\ View.column_text update_views_for_device_type v_cps_catalog_effective
       Example.gold_moved Example.log_grp Example.d2 Col.category
     = Some "IT".
Proof.
  repeat split; try (now left). right. now left.
Qed.

(* ------------------------------------------------------------------ *)
(** ** C7: revert *)
(* ------------------------------------------------------------------ *)

Lemma existsb_id_without (id : Z) (log : list U.t) :
  existsb (fun u => U.id u =? id) (OverrideLog.without id log) = false.
Proof.
  unfold OverrideLog.without.
  induction log as [|u log IH]; simpl; [reflexivity|].
  destruct (U.id u =? id) eqn:E; simpl; [exact IH|].
  now rewrite E, IH.
Qed.

(** C7.  For every store and entry identifier present in the log: the first
    [Revert] succeeds and leaves exactly the log without that entry (the
    other entries and the identifier counter untouched); a second [Revert]
    of the same identifier reports [NotFound] and leaves the store as it
    is; and every column of every view, resolved over the store after the
    first revert, is the column resolved over the log without the entry.
    No compensating entry is written. *)
Theorem C7_revert_twice (s : OverrideLog.store) (entry_id : Z) :
  (exists u, In u (OverrideLog.log s) /\ U.id u = entry_id) ->
  let s1 := fst (OverrideLog.Revert s entry_id) in
  snd (OverrideLog.Revert s entry_id) = inr tt
  /\ OverrideLog.log s1 = OverrideLog.without entry_id (OverrideLog.log s)
  /\ OverrideLog.next_id s1 = OverrideLog.next_id s
  /\ (forall u, In u (OverrideLog.log s1) <->
                In u (OverrideLog.log s) /\ U.id u <> entry_id)
  /\ OverrideLog.Revert s1 entry_id = (s1, inl OverrideLog.NotFound)
  /\ forall m v gold g c,
       View.column_text m v gold (OverrideLog.log s1) g c
       = View.column_text m v gold
           (OverrideLog.without entry_id (OverrideLog.log s)) g c.
Proof.
  intros (u & Hin & Hid) s1.
  assert (Hex : existsb (fun u => U.id u =? entry_id) (OverrideLog.log s)
                = true).
  { apply existsb_exists. exists u. split; [exact Hin|].
    now apply Z.eqb_eq. }
  assert (Hs1 : s1 = {| OverrideLog.log :=
                          OverrideLog.without entry_id (OverrideLog.log s);
                        OverrideLog.next_id := OverrideLog.next_id s |}).
  { unfold s1, OverrideLog.Revert, OverrideLog.Delete. now rewrite Hex. }
  split; [|split; [|split; [|split; [|split]]]].
  - unfold OverrideLog.Revert, OverrideLog.Delete. now rewrite Hex.
  - now rewrite Hs1.
  - now rewrite Hs1.
  - intros x. rewrite Hs1. simpl. unfold OverrideLog.without.
    rewrite filter_In, negb_true_iff, Z.eqb_neq. tauto.
  - rewrite Hs1. unfold OverrideLog.Revert, OverrideLog.Delete. simpl.
    now rewrite existsb_id_without.
  - intros. now rewrite Hs1.
Qed.

Lemma C7_revert_twice_witness :
  OverrideLog.Revert
    (fst (OverrideLog.Revert Example.store_5_9 9)) 9
  = (fst (OverrideLog.Revert Example.store_5_9 9), inl OverrideLog.NotFound).
Proof.
  apply (C7_revert_twice Example.store_5_9 9).
  exists Example.e9. split; [|reflexivity].
  simpl. auto.
Defined.

(** A revert of an identifier that is not in the log reports [NotFound]
    and changes nothing. *)
Lemma revert_absent (s : OverrideLog.store) (entry_id : Z) :
  (forall u, In u (OverrideLog.log s) -> U.id u <> entry_id) ->
  OverrideLog.Revert s entry_id = (s, inl OverrideLog.NotFound).
Proof.
  intros H. unfold OverrideLog.Revert, OverrideLog.Delete.
  destruct (existsb _ (OverrideLog.log s)) eqn:E; [|reflexivity].
  apply existsb_exists in E. destruct E as (u & Hin & Hid).
  apply Z.eqb_eq in Hid. now apply H in Hin.
Qed.

(* ------------------------------------------------------------------ *)
(** ** C8: edits of unknown or protected fields *)
(* ------------------------------------------------------------------ *)

(** C8.  For every registry, store and submission: when the registry does
    not know the field of the submission, or describes it as protected,
    [Append] returns [InvalidField] and the store afterwards is the store
    before: nothing is added to the log and no identifier is consumed. *)
Theorem C8_append_invalid_field (r : OverrideLog.registry)
    (s : OverrideLog.store) (e : OverrideLog.submission) :
  OverrideLog.Describe r (OverrideLog.field_name e) = None
  \/ (exists d, OverrideLog.Describe r (OverrideLog.field_name e) = Some d
                /\ OverrideLog.protected d = true) ->
  OverrideLog.Append r s e = (s, inl OverrideLog.InvalidField)
  /\ OverrideLog.log (fst (OverrideLog.Append r s e)) = OverrideLog.log s.
Proof.
  intros H.
  assert (E : OverrideLog.Append r s e = (s, inl OverrideLog.InvalidField)).
  { unfold OverrideLog.Append. destruct H as [->|(d & -> & ->)]; reflexivity. }
  split; [exact E|]. now rewrite E.
Qed.

Lemma C8_append_invalid_field_witness :
  OverrideLog.Append Example.registry Example.store_5_9
    (Example.submit "vendor" "Acme GmbH")
  = (Example.store_5_9, inl OverrideLog.InvalidField)
  /\ OverrideLog.Append Example.registry Example.store_5_9
       (Example.submit "colour" "red")
     = (Example.store_5_9, inl OverrideLog.InvalidField).
Proof.
  split.
  - apply (C8_append_invalid_field Example.registry Example.store_5_9
             (Example.submit "vendor" "Acme GmbH")).
    right. eexists. split; reflexivity.
  - apply (C8_append_invalid_field Example.registry Example.store_5_9
             (Example.submit "colour" "red")).
    left. reflexivity.
Defined.

(** An edit of a field that is known and not protected is appended with
    the next identifier. *)
Example append_category :
  OverrideLog.Append Example.registry Example.store_5_9
    (Example.submit "category" "OT")
  = ({| OverrideLog.log :=
          Example.log_5_9
          ++ [U.mk 10 "d1" "g1" "category" "OT" false 500 (Some false)
                "current_user" "Current User" None];
        OverrideLog.next_id := 11 |},
     inr (U.mk 10 "d1" "g1" "category" "OT" false 500 (Some false)
            "current_user" "Current User" None)).
Proof. reflexivity. Qed.

(** In the front end the fields of [NON_EDITABLE_FIELDS] are read only and
    [FieldEditor] renders no Save button for them. *)
Lemma non_editable_no_save (hasChanged : bool) (fieldName : string) :
  In fieldName DeviceDetails.NON_EDITABLE_FIELDS ->
  FieldEditor.isReadOnly DeviceDetails.NON_EDITABLE_FIELDS fieldName = true
  /\ FieldEditor.save_rendered hasChanged DeviceDetails.NON_EDITABLE_FIELDS
       fieldName = false.
Proof.
  intros H.
  assert (E : FieldEditor.isReadOnly DeviceDetails.NON_EDITABLE_FIELDS
                fieldName = true).
  { unfold FieldEditor.isReadOnly, Js.array_includes.
    apply existsb_exists. exists fieldName. split; [exact H|].
    apply String.eqb_refl. }
  split; [exact E|].
  unfold FieldEditor.save_rendered. rewrite E. apply andb_false_r.
Qed.

(* ------------------------------------------------------------------ *)
(** ** C9: the list of changes *)
(* ------------------------------------------------------------------ *)

Lemma In_firstn {A : Type} (n : nat) (l : list A) (x : A) :
  In x (firstn n l) -> In x l.
Proof.
  intros H. rewrite <- (firstn_skipn n l). apply in_or_app. now left.
Qed.

Lemma In_skipn {A : Type} (n : nat) (l : list A) (x : A) :
  In x (skipn n l) -> In x l.
Proof.
  intros H. rewrite <- (firstn_skipn n l). apply in_or_app. now right.
Qed.

Section Sortedness.
Context {A : Type}.
Variable cmp : A -> A -> comparison.
Hypothesis cmp_flip : forall a b, cmp b a = CompOpp (cmp a b).
Hypothesis cmp_trans :
  forall a b c, cmp a b <> Gt -> cmp b c <> Gt -> cmp a c <> Gt.

Lemma insert_sorted (a : A) (l : list A) :
  StronglySorted (fun x y => cmp x y <> Gt) l ->
  StronglySorted (fun x y => cmp x y <> Gt) (Sql.insert cmp a l).
Proof.
  induction 1 as [|b l Hs IH Hb]; simpl.
  - constructor; constructor.
  - destruct (cmp a b) eqn:Hab.
    1,2: constructor; [now constructor|];
      assert (Hle : cmp a b <> Gt) by (rewrite Hab; discriminate);
      constructor; [exact Hle|];
      apply Forall_forall; intros x Hx;
      apply (cmp_trans a b x Hle);
      exact (proj1 (Forall_forall _ _) Hb x Hx).
    constructor; [exact IH|].
    apply Forall_forall. intros x Hx. apply In_insert in Hx.
    destruct Hx as [->|Hx].
    + rewrite (cmp_flip a b), Hab. discriminate.
    + exact (proj1 (Forall_forall _ _) Hb x Hx).
Qed.

Lemma order_by_sorted (l : list A) :
  StronglySorted (fun x y => cmp x y <> Gt) (Sql.order_by cmp l).
Proof.
  induction l as [|a l IH]; simpl; [constructor|].
  now apply insert_sorted.
Qed.

Lemma firstn_sorted (R : A -> A -> Prop) (n : nat) (l : list A) :
  StronglySorted R l -> StronglySorted R (firstn n l).
Proof.
  intros H. revert n. induction H as [|a l Hs IH Ha]; intros [|n]; simpl;
    try constructor.
  - apply IH.
  - apply Forall_forall. intros x Hx. apply In_firstn in Hx.
    exact (proj1 (Forall_forall _ _) Ha x Hx).
Qed.

Lemma filter_sorted (R : A -> A -> Prop) (p : A -> bool) (l : list A) :
  StronglySorted R l -> StronglySorted R (filter p l).
Proof.
  induction 1 as [|a l Hs IH Ha]; simpl; [constructor|].
  destruct (p a); [|exact IH]. constructor; [exact IH|].
  apply Forall_forall. intros x Hx. apply filter_In in Hx.
  exact (proj1 (Forall_forall _ _) Ha x (proj1 Hx)).
Qed.

(** In a sorted list every row of a prefix is related to every row after
    the prefix. *)
Lemma sorted_split (R : A -> A -> Prop) (n : nat) (l : list A) :
  StronglySorted R l ->
  forall a b, In a (firstn n l) -> In b (skipn n l) -> R a b.
Proof.
  intros H. revert n. induction H as [|x l Hs IH Hx]; intros n a b Ha Hb.
  - destruct n; destruct Ha.
  - destruct n as [|n]; [destruct Ha|]. simpl in Ha, Hb.
    destruct Ha as [<-|Ha].
    + apply (proj1 (Forall_forall _ _) Hx). revert Hb. apply In_skipn.
    + now apply (IH n).
Qed.

End Sortedness.

Lemma newest_first_not_after (a b : ChangesLog.change) :
  ChangesLog.newest_first a b <> Gt <->
  ChangesLog.changed_at b < ChangesLog.changed_at a
  \/ (ChangesLog.changed_at a = ChangesLog.changed_at b
      /\ ChangesLog.id b <= ChangesLog.id a).
Proof.
  unfold ChangesLog.newest_first, Sql.then_by, Sql.desc_Z.
  destruct (Z.compare_spec (ChangesLog.changed_at b) (ChangesLog.changed_at a));
    destruct (Z.compare_spec (ChangesLog.id b) (ChangesLog.id a));
    split; intros Hab; try (exfalso; apply Hab; reflexivity);
    try discriminate;
    try (intuition (try discriminate; try lia); fail).
Qed.

Lemma newest_first_flip (a b : ChangesLog.change) :
  ChangesLog.newest_first b a = CompOpp (ChangesLog.newest_first a b).
Proof.
  unfold ChangesLog.newest_first, Sql.then_by, Sql.desc_Z.
  rewrite (Z.compare_antisym (ChangesLog.changed_at b)
             (ChangesLog.changed_at a)).
  rewrite (Z.compare_antisym (ChangesLog.id b) (ChangesLog.id a)).
  destruct (ChangesLog.changed_at b ?= ChangesLog.changed_at a);
    destruct (ChangesLog.id b ?= ChangesLog.id a); reflexivity.
Qed.

Lemma newest_first_trans (a b c : ChangesLog.change) :
  ChangesLog.newest_first a b <> Gt ->
  ChangesLog.newest_first b c <> Gt ->
  ChangesLog.newest_first a c <> Gt.
Proof. rewrite !newest_first_not_after. lia. Qed.

(** A filter that is applied only under a condition is a filter. *)
Lemma filter_when {A : Type} (cond : bool) (p : A -> bool) (l : list A) :
  (if cond then filter p l else l) = filter (fun a => negb cond || p a) l.
Proof.
  destruct cond; simpl; [reflexivity|].
  symmetry. apply filter_all. reflexivity.
Qed.

(** [applyFilters] keeps the first 30 of the entries that pass every
    filter, in the order of its argument. *)
Lemma applyFilters_matches (setHours : Z -> Z)
    (toLowerCase : string -> string)
    (dateRange : ChangesLog.date_range) (filters : ChangesLog.filter_state)
    (data : list ChangesLog.change) :
  ChangesLog.applyFilters setHours toLowerCase dateRange filters data
  = firstn 30
      (filter (ChangesLog.matches setHours toLowerCase dateRange filters)
         data).
Proof.
  unfold ChangesLog.applyFilters, Js.slice0. f_equal.
  rewrite !filter_when.
  assert (E1 : match ChangesLog.from dateRange, ChangesLog.to dateRange with
               | None, None => data
               | _, _ => filter (ChangesLog.date_filter setHours dateRange)
                           data
               end = filter (ChangesLog.date_filter setHours dateRange) data).
  { unfold ChangesLog.date_filter.
    destruct (ChangesLog.from dateRange), (ChangesLog.to dateRange);
      try reflexivity.
    symmetry. apply filter_all. reflexivity. }
  rewrite E1. clear E1.
  assert (E5 : forall l,
             match ChangesLog.f_apply_for_all filters with
             | Some want => filter (ChangesLog.apply_for_all_filter want) l
             | None => l
             end
             = filter (fun c => match ChangesLog.f_apply_for_all filters with
                                | Some want =>
                                    ChangesLog.apply_for_all_filter want c
                                | None => true
                                end) l).
  { intros l. destruct (ChangesLog.f_apply_for_all filters); [reflexivity|].
    symmetry. apply filter_all. reflexivity. }
  rewrite E5. clear E5. rewrite !filter_filter.
  apply filter_ext. intros c. unfold ChangesLog.matches.
  now rewrite !andb_assoc.
Qed.

Lemma StronglySorted_impl {A : Type} (R S : A -> A -> Prop) (l : list A) :
  (forall a b, R a b -> S a b) -> StronglySorted R l -> StronglySorted S l.
Proof.
  intros HRS. induction 1 as [|a l Hs IH Ha]; constructor; [exact IH|].
  apply Forall_forall. intros x Hx. apply HRS.
  exact (proj1 (Forall_forall _ _) Ha x Hx).
Qed.

(** What [GET /changes] returns is sorted, most recent first, ties by
    [id] descending. *)
Lemma getAllChanges_sorted (gold : list G.t) (s : OverrideLog.store)
    (limit : nat) :
  StronglySorted (fun a b => ChangesLog.newest_first a b <> Gt)
    (ChangesLog.getAllChanges gold s limit).
Proof.
  unfold ChangesLog.getAllChanges. apply firstn_sorted.
  apply order_by_sorted.
  - apply newest_first_flip.
  - apply newest_first_trans.
Qed.

(** [includes] is the substring test. *)
Lemma prefix_app (p s : string) :
  String.prefix p s = true <-> exists post, s = (p ++ post)%string.
Proof.
  revert s. induction p as [|a p IH]; intros s.
  - split; [intros _; now exists s|intros _]. destruct s; reflexivity.
  - destruct s as [|b s]; simpl.
    + split; [discriminate|]. intros (post & E). discriminate E.
    + destruct (ascii_dec a b) as [->|Hne].
      * rewrite IH. split; intros (post & E); exists post;
          [now rewrite E|now injection E].
      * split; [discriminate|]. intros (post & E). injection E as E _.
        now symmetry in E.
Qed.

Lemma includes_substring (s sub : string) :
  Js.includes s sub = true
  <-> exists pre post, s = (pre ++ sub ++ post)%string.
Proof.
  induction s as [|c s IH].
  - change (Js.includes EmptyString sub)
      with (String.prefix sub EmptyString || false)%bool.
    rewrite orb_false_r, prefix_app. split.
    + intros (post & E). now exists EmptyString, post.
    + intros (pre & post & E). destruct pre; [now exists post|discriminate E].
  - change (Js.includes (String c s) sub)
      with (String.prefix sub (String c s) || Js.includes s sub)%bool.
    rewrite orb_true_iff, prefix_app, IH. split.
    + intros [(post & E)|(pre & post & E)].
      * now exists EmptyString, post.
      * exists (String c pre), post. simpl. now rewrite E.
    + intros (pre & post & E). destruct pre as [|a pre].
      * left. now exists post.
      * right. simpl in E. injection E as _ E. now exists pre, post.
Qed.

(** The callbacks of [applyFilters], read as conditions on the entry. *)
Lemma date_filter_range (setHours : Z -> Z)
    (dateRange : ChangesLog.date_range) (c : ChangesLog.change) :
  ChangesLog.date_filter setHours dateRange c = true
  <-> (forall f, ChangesLog.from dateRange = Some f ->
                 f <= ChangesLog.changed_at c)
      /\ (forall t, ChangesLog.to dateRange = Some t ->
                    ChangesLog.changed_at c <= setHours t).
Proof.
  unfold ChangesLog.date_filter.
  destruct (ChangesLog.from dateRange) as [f|],
    (ChangesLog.to dateRange) as [t|].
  all: repeat match goal with
              | |- context [?a <? ?b] => destruct (Z.ltb_spec a b)
              end.
  all: split;
    [ intros Hk; try discriminate Hk; split; intros x Hx; inversion Hx;
      subst; lia
    | intros [H1 H2]; try reflexivity; exfalso;
      try pose proof (H1 _ eq_refl); try pose proof (H2 _ eq_refl); lia ].
Qed.

Lemma substring_filter (toLowerCase : string -> string) (x : option string)
    (filter : string) :
  (negb (Js.truthy filter)
   || Js.includes (toLowerCase (Js.or_empty x)) (toLowerCase filter))%bool
  = true
  <-> filter = EmptyString
      \/ exists pre post,
           toLowerCase match x with Some text => text | None => EmptyString end
           = (pre ++ toLowerCase filter ++ post)%string.
Proof.
  rewrite orb_true_iff, includes_substring. unfold Js.truthy.
  rewrite negb_true_iff, negb_false_iff, String.eqb_eq. reflexivity.
Qed.

Lemma scope_filter (filters : ChangesLog.filter_state)
    (c : ChangesLog.change) :
  match ChangesLog.f_apply_for_all filters with
  | Some want => ChangesLog.apply_for_all_filter want c
  | None => true
  end = true
  <-> forall want, ChangesLog.f_apply_for_all filters = Some want ->
        (want = true
         <-> ChangesLog.apply_for_all c = ChangesLog.JTrue
             \/ ChangesLog.apply_for_all c = ChangesLog.JString "true").
Proof.
  assert (H : ChangesLog.isApplyForAll c = true
              <-> ChangesLog.apply_for_all c = ChangesLog.JTrue
                  \/ ChangesLog.apply_for_all c = ChangesLog.JString "true").
  { unfold ChangesLog.isApplyForAll.
    destruct (ChangesLog.apply_for_all c) as [| |s|]; split;
      try discriminate; try tauto;
      try (intros [E|E]; discriminate E).
    - intros E. apply String.eqb_eq in E. subst. now right.
    - intros [E|E]; [discriminate E|]. injection E as ->. reflexivity. }
  destruct (ChangesLog.f_apply_for_all filters) as [want|].
  - unfold ChangesLog.apply_for_all_filter. split.
    + intros E w [= <-]. rewrite <- H. destruct want; [tauto|].
      apply negb_true_iff in E. rewrite E. split; discriminate.
    + intros E. specialize (E want eq_refl). rewrite <- H in E.
      destruct want; [tauto|].
      apply negb_true_iff.
      destruct (ChangesLog.isApplyForAll c); [|reflexivity].
      symmetry. now apply E.
  - split; [intros _ want [=]|reflexivity].
Qed.

(** C9.  For every time zone and case mapping, [applyFilters] stores the
    first 30, in the order of its argument, of the entries it is given that
    lie in the date range (from the start date to the end of the end date),
    whose editor, field name and vendor each contain the filter text
    (compared in lower case; an empty filter text accepts every entry) and
    whose scope is the one asked for.  When its argument is sorted most
    recent [changed_at] first, ties by [id] descending, so is what it
    stores, and every entry stored is at least as recent as every accepted
    entry the truncation drops.  [applyFilters] does not sort: the order is
    that of what [getAllChanges(1000)] returned, which is sorted in that
    way. *)
Theorem C9_list_changes (setHours : Z -> Z) (toLowerCase : string -> string)
    (dateRange : ChangesLog.date_range) (filters : ChangesLog.filter_state)
    (gold : list G.t) (s : OverrideLog.store) :
  let contains (x : option string) (filter : string) :=
    filter = EmptyString
    \/ exists pre post,
         toLowerCase match x with Some text => text | None => EmptyString end
         = (pre ++ toLowerCase filter ++ post)%string in
  let accepted (c : ChangesLog.change) :=
    ((forall f, ChangesLog.from dateRange = Some f ->
                f <= ChangesLog.changed_at c)
     /\ (forall t, ChangesLog.to dateRange = Some t ->
                   ChangesLog.changed_at c <= setHours t))
    /\ contains (ChangesLog.editor_user_name c) (ChangesLog.editor filters)
    /\ contains (ChangesLog.field_name c) (ChangesLog.f_field_name filters)
    /\ contains (ChangesLog.vendor c) (ChangesLog.f_vendor filters)
    /\ (forall want, ChangesLog.f_apply_for_all filters = Some want ->
          (want = true
           <-> ChangesLog.apply_for_all c = ChangesLog.JTrue
               \/ ChangesLog.apply_for_all c = ChangesLog.JString "true")) in
  let newer (a b : ChangesLog.change) :=
    ChangesLog.changed_at b < ChangesLog.changed_at a
    \/ (ChangesLog.changed_at a = ChangesLog.changed_at b
        /\ ChangesLog.id b <= ChangesLog.id a) in
  let applied :=
    ChangesLog.applyFilters setHours toLowerCase dateRange filters in
  let retrieved := ChangesLog.getAllChanges gold s 1000 in
  (forall data,
      exists keep : ChangesLog.change -> bool,
        (forall c, keep c = true <-> accepted c)
        /\ applied data = firstn 30 (filter keep data)
        /\ (StronglySorted newer data ->
            StronglySorted newer (applied data)
            /\ forall a b, In a (applied data) ->
                           In b (skipn 30 (filter keep data)) -> newer a b))
  /\ (forall data c, In c (applied data) -> In c data /\ accepted c)
  /\ (forall data, (List.length (applied data) <= 30)%nat)
  /\ ChangesLog.loadChanges setHours toLowerCase dateRange filters gold s
     = applied retrieved
  /\ StronglySorted newer retrieved
  /\ StronglySorted newer (applied retrieved).
Proof.
  intros contains accepted newer applied retrieved.
  set (keep := ChangesLog.matches setHours toLowerCase dateRange filters).
  assert (Hkeep : forall c, keep c = true <-> accepted c).
  { intros c. unfold keep, ChangesLog.matches, accepted, contains.
    rewrite !andb_true_iff, date_filter_range, scope_filter.
    unfold ChangesLog.editor_filter, ChangesLog.field_name_filter,
      ChangesLog.vendor_filter.
    rewrite !substring_filter. tauto. }
  assert (Happ : forall data, applied data = firstn 30 (filter keep data))
    by (intros data; apply applyFilters_matches).
  assert (Hsorted : forall data, StronglySorted newer data ->
                                 StronglySorted newer (applied data)).
  { intros data Hs. rewrite Happ. now apply firstn_sorted, filter_sorted. }
  assert (Hret : StronglySorted newer retrieved).
  { apply (StronglySorted_impl
             (fun a b => ChangesLog.newest_first a b <> Gt)).
    - intros a b. apply newest_first_not_after.
    - apply getAllChanges_sorted. }
  split; [|split; [|split; [|split; [|split]]]].
  - intros data. exists keep. split; [exact Hkeep|]. split; [apply Happ|].
    intros Hs. split; [now apply Hsorted|].
    intros a b Ha Hb. rewrite Happ in Ha.
    exact (sorted_split newer 30 (filter keep data)
             (filter_sorted newer keep data Hs) a b Ha Hb).
  - intros data c Hc. rewrite Happ in Hc. apply In_firstn, filter_In in Hc.
    split; [tauto|]. now apply Hkeep.
  - intros data. rewrite Happ. apply firstn_le_length.
  - reflexivity.
  - exact Hret.
  - now apply Hsorted.
Qed.

Lemma C9_list_changes_witness :
  map ChangesLog.id
    (ChangesLog.applyFilters Example.end_of_day_utc Js.toLowerCase
       Example.no_range Example.only_vendor_edits
       (ChangesLog.getAllChanges Example.gold Example.store_5_9 1000))
  = [3; 9; 5]
  /\ StronglySorted
       (fun a b =>
          ChangesLog.changed_at b < ChangesLog.changed_at a
          \/ (ChangesLog.changed_at a = ChangesLog.changed_at b
              /\ ChangesLog.id b <= ChangesLog.id a))
       (ChangesLog.applyFilters Example.end_of_day_utc Js.toLowerCase
          Example.no_range Example.only_vendor_edits
          (ChangesLog.getAllChanges Example.gold Example.store_5_9 1000)).
Proof.
  destruct (C9_list_changes Example.end_of_day_utc Js.toLowerCase
              Example.no_range Example.only_vendor_edits Example.gold
              Example.store_5_9)
    as (H & _).
  destruct (H (ChangesLog.getAllChanges Example.gold Example.store_5_9 1000))
    as (keep & _ & _ & Hs).
  split; [reflexivity|]. apply Hs.
  vm_compute. repeat constructor; simpl; lia.
Defined.

(** The order of what [applyFilters] stores is the order of what it is
    given: on a list that is not sorted the older entry stays in front. *)
Example applyFilters_keeps_order :
  map ChangesLog.id
    (ChangesLog.applyFilters Example.end_of_day_utc Js.toLowerCase
       Example.no_range Example.only_vendor_edits
       (map (ChangesLog.to_change Example.gold) Example.log_5_9))
  = [3; 5; 9].
Proof. reflexivity. Qed.

(** The vendor edits of the example that are not applied to all, newest
    first. *)
Example changes_log_example :
  map ChangesLog.id
    (ChangesLog.loadChanges Example.end_of_day_utc Js.toLowerCase
       Example.no_range Example.only_vendor_edits Example.gold
       Example.store_5_9)
  = [3; 9; 5].
Proof. reflexivity. Qed.

(* ================================================================== *)
(** * Further properties of the views *)
(* ================================================================== *)

(* ------------------------------------------------------------------ *)
(** ** The views do not depend on the order of the rows of the tables *)
(* ------------------------------------------------------------------ *)

Lemma Permutation_filter {A : Type} (p : A -> bool) (l l' : list A) :
  Permutation l l' -> Permutation (filter p l) (filter p l').
Proof.
  induction 1 as [|a l l' H IH|a b l|l l' l'' H1 IH1 H2 IH2]; simpl.
  - constructor.
  - destruct (p a); [now constructor|exact IH].
  - destruct (p a), (p b); try apply Permutation_refl. apply perm_swap.
  - now apply Permutation_trans with (filter p l').
Qed.

Lemma Permutation_flat_map_pointwise {A B : Type} (f f' : A -> list B)
    (l : list A) :
  (forall a, Permutation (f a) (f' a)) ->
  Permutation (flat_map f l) (flat_map f' l).
Proof.
  intros H. induction l as [|a l IH]; simpl; [constructor|].
  now apply Permutation_app.
Qed.

Lemma window_order_Eq_id (v : view) (a b : U.t) :
  View.window_order v a b = Eq -> U.id a = U.id b.
Proof.
  intros H.
  assert (Hab : View.window_order v a b <> Gt) by (rewrite H; discriminate).
  assert (Hba : View.window_order v b a <> Gt)
    by (rewrite window_order_flip, H; discriminate).
  destruct v.
  - apply effective_not_after in Hab, Hba.
    destruct (U.is_validated a), (U.is_validated b);
      intuition (try discriminate; try lia).
  - apply validated_not_after in Hab, Hba. lia.
Qed.

(** Two partitions with the same rows have the same first row, when rows
    are told apart by their [id]. *)
Lemma window_first_permutation (v : view) (p p' : list U.t) :
  Permutation p p' ->
  (forall a b, In a p -> In b p -> U.id a = U.id b -> a = b) ->
  hd_error (Sql.order_by (View.window_order v) p')
  = hd_error (Sql.order_by (View.window_order v) p).
Proof.
  intros Hp Hid.
  destruct (hd_error (Sql.order_by (View.window_order v) p)) as [w|] eqn:Hw.
  - destruct (window_first_exists v p' w) as [w' Hw'].
    { apply (Permutation_in _ Hp). now apply first_In in Hw. }
    rewrite Hw'. f_equal.
    apply window_first in Hw, Hw'.
    destruct Hw as [Hin Hle], Hw' as [Hin' Hle'].
    apply (Permutation_in _ (Permutation_sym Hp)) in Hin'.
    apply Hid; try assumption. apply (window_order_Eq_id v).
    specialize (Hle w' Hin').
    specialize (Hle' w (Permutation_in _ Hp Hin)).
    rewrite window_order_flip in Hle.
    destruct (View.window_order v w' w); try reflexivity;
      [exfalso; now apply Hle|exfalso; now apply Hle'].
  - apply first_nil in Hw. subst p. apply Permutation_nil in Hp. now subst p'.
Qed.

Lemma latest_cps_id_from_permutation (m : migration) (gold gold' : list G.t)
    (log log' : list U.t) :
  Permutation gold gold' -> Permutation log log' ->
  Permutation (View.latest_cps_id_from m gold log)
    (View.latest_cps_id_from m gold' log').
Proof.
  intros Hg Hl. destruct m; simpl.
  - now apply Permutation_map.
  - eapply Permutation_trans; [apply Permutation_flat_map; exact Hl|].
    apply Permutation_flat_map_pointwise. intros u.
    apply Permutation_map. now apply Permutation_filter.
Qed.

(** X1.  The views read the tables as sets of rows: when the rows of the
    override table have distinct [id]s, listing the gold table and the
    override table in another order changes no column of any view. *)
Theorem views_independent_of_row_order (m : migration) (v : view)
    (gold gold' : list G.t) (log log' : list U.t) (g : G.t) (c : Col.t) :
  Permutation gold gold' ->
  Permutation log log' ->
  (forall a b, In a log -> In b log -> U.id a = U.id b -> a = b) ->
  View.column_text m v gold' log' g c = View.column_text m v gold log g c.
Proof.
  intros Hg Hl Hid. unfold View.column_text.
  rewrite !latest_device_first, !latest_cps_id_first.
  rewrite (window_first_permutation v
             (View.device_partition m v log (G.device_uuid g)
                (Col.field_name c))
             (View.device_partition m v log' (G.device_uuid g)
                (Col.field_name c))).
  - rewrite (window_first_permutation v
               (View.cps_id_partition m v gold log (G.cps_id g)
                  (Col.field_name c))
               (View.cps_id_partition m v gold' log' (G.cps_id g)
                  (Col.field_name c))); [reflexivity| |].
    + unfold View.cps_id_partition. apply Permutation_map.
      do 2 apply Permutation_filter.
      now apply latest_cps_id_from_permutation.
    + intros a b Ha Hb. apply Hid.
      * apply In_cps_id_partition in Ha. destruct Ha as [Ha _].
        apply In_latest_cps_id_from in Ha. tauto.
      * apply In_cps_id_partition in Hb. destruct Hb as [Hb _].
        apply In_latest_cps_id_from in Hb. tauto.
  - unfold View.device_partition. now do 2 apply Permutation_filter.
  - intros a b Ha Hb. apply Hid.
    + apply In_device_partition in Ha. tauto.
    + apply In_device_partition in Hb. tauto.
Qed.

Lemma views_independent_of_row_order_witness :
  View.column_text update_views_for_device_type v_cps_catalog_effective
    (rev Example.gold) (rev Example.log_5_9) Example.d1 Col.vendor
  = View.column_text update_views_for_device_type v_cps_catalog_effective
      Example.gold Example.log_5_9 Example.d1 Col.vendor.
Proof.
  apply views_independent_of_row_order.
  - apply Permutation_rev.
  - apply Permutation_rev.
  - intros a b Ha Hb. simpl in Ha, Hb.
    intuition (subst; try reflexivity; discriminate).
Defined.

(* ------------------------------------------------------------------ *)
(** ** Which rows a column depends on *)
(* ------------------------------------------------------------------ *)

(** A column of a gold row over a filtered log is the column over the whole
    log when the filter keeps every row of its two partitions. *)
Lemma column_text_filter (keep : U.t -> bool) (m : migration) (v : view)
    (gold : list G.t) (log : list U.t) (g : G.t) (c : Col.t) :
  (forall u,
      In u (View.device_partition m v log (G.device_uuid g)
              (Col.field_name c)) -> keep u = true) ->
  (forall u,
      In u (View.cps_id_partition m v gold log (G.cps_id g)
              (Col.field_name c)) -> keep u = true) ->
  View.column_text m v gold (filter keep log) g c
  = View.column_text m v gold log g c.
Proof.
  intros Hd Hk. unfold View.column_text.
  rewrite !latest_device_first, !latest_cps_id_first.
  rewrite device_partition_filter, cps_id_partition_filter.
  now rewrite (filter_all keep _ Hd), (filter_all keep _ Hk).
Qed.

Lemma column_text_empty_log (m : migration) (v : view) (gold : list G.t)
    (g : G.t) (c : Col.t) :
  View.column_text m v gold [] g c = G.attr g c.
Proof.
  destruct m; unfold View.column_text; simpl;
    destruct (G.attr g c); reflexivity.
Qed.

(** X2.  A column of a gold row depends only on the override rows of its
    own field that are either device-scope rows of its device or
    cps_id-wide rows of its group: dropping from the log any rows of
    another field, device-scope rows of another device, or cps_id-wide rows
    of another group leaves the column unchanged, in every view.  (The
    group of a cps_id-wide row is its own [cps_id] in
    [update_view_for_apply_for_all], the [cps_id] of the gold rows of its
    device in [update_views_for_device_type].) *)
Theorem column_depends_on_own_rows (keep : U.t -> bool) (m : migration)
    (v : view) (gold : list G.t) (log : list U.t) (g : G.t) (c : Col.t) :
  (forall u, In u log -> keep u = false ->
     U.field_name u <> Col.field_name c
     \/ (U.apply_for_all u <> Some true
         /\ U.device_uuid u <> G.device_uuid g)
     \/ (U.apply_for_all u = Some true
         /\ match m with
            | update_view_for_apply_for_all => U.cps_id u <> G.cps_id g
            | update_views_for_device_type =>
                forall g', In g' gold ->
                           G.device_uuid g' = U.device_uuid u ->
                           G.cps_id g' <> G.cps_id g
            end)) ->
  View.column_text m v gold (filter keep log) g c
  = View.column_text m v gold log g c.
Proof.
  intros H. apply column_text_filter.
  - intros u Hu. apply In_device_partition in Hu.
    destruct Hu as (Hin & Hw & Hd & Hf).
    apply latest_device_where_holds in Hw. destruct Hw as [Hw _].
    destruct (keep u) eqn:Hk; [reflexivity|exfalso].
    destruct (H u Hin Hk) as [E|[[_ E]|[E _]]]; contradiction.
  - intros u Hu. apply In_cps_id_partition in Hu.
    destruct Hu as (Hfrom & Hw & Hf).
    apply latest_cps_id_where_holds in Hw. destruct Hw as [Hw _].
    apply In_latest_cps_id_from in Hfrom. destruct Hfrom as [Hin Hfrom].
    destruct (keep u) eqn:Hk; [reflexivity|exfalso].
    destruct (H u Hin Hk) as [E|[[E _]|[_ E]]]; try contradiction.
    destruct m.
    + contradiction.
    + destruct Hfrom as (g' & Hg' & Hd' & Hk'). exact (E g' Hg' Hd' Hk').
Qed.

Lemma column_depends_on_own_rows_witness :
  View.column_text update_views_for_device_type v_cps_catalog_effective
    Example.gold
    (filter (fun u => String.eqb (U.device_uuid u) "d1") Example.log_5_9)
    Example.d1 Col.vendor
  = View.column_text update_views_for_device_type v_cps_catalog_effective
      Example.gold Example.log_5_9 Example.d1 Col.vendor.
Proof.
  apply column_depends_on_own_rows.
  intros u Hu Hk. simpl in Hu.
  destruct Hu as [<-|[<-|[<-|[<-|[]]]]]; try discriminate Hk.
  right. left. split; discriminate.
Defined.

(** X3.  A field no override row is about shows the base value: when every
    row of the log is of another field, a device-scope row of another
    device or a cps_id-wide row of another group, the column is the gold
    table's attribute and its source is the gold row, in every view. *)
Theorem column_without_override_is_base (m : migration) (v : view)
    (gold : list G.t) (log : list U.t) (g : G.t) (c : Col.t) :
  (forall u, In u log ->
     U.field_name u <> Col.field_name c
     \/ (U.apply_for_all u <> Some true
         /\ U.device_uuid u <> G.device_uuid g)
     \/ (U.apply_for_all u = Some true
         /\ match m with
            | update_view_for_apply_for_all => U.cps_id u <> G.cps_id g
            | update_views_for_device_type =>
                forall g', In g' gold ->
                           G.device_uuid g' = U.device_uuid u ->
                           G.cps_id g' <> G.cps_id g
            end)) ->
  View.column_text m v gold log g c = G.attr g c
  /\ View.column_source m v gold log g c = View.from_gold.
Proof.
  intros H.
  assert (Hd : View.latest_device m v log g c = None).
  { rewrite latest_device_first. apply first_nil.
    destruct (View.device_partition m v log (G.device_uuid g)
                (Col.field_name c)) as [|u p] eqn:E; [reflexivity|exfalso].
    assert (Hu : In u (View.device_partition m v log (G.device_uuid g)
                         (Col.field_name c))) by (rewrite E; now left).
    apply In_device_partition in Hu. destruct Hu as (Hin & Hw & Hdev & Hf).
    apply latest_device_where_holds in Hw. destruct Hw as [Hw _].
    destruct (H u Hin) as [E'|[[_ E']|[E' _]]]; contradiction. }
  assert (Hk : View.latest_cps_id m v gold log g c = None).
  { rewrite latest_cps_id_first. apply first_nil.
    destruct (View.cps_id_partition m v gold log (G.cps_id g)
                (Col.field_name c)) as [|u p] eqn:E; [reflexivity|exfalso].
    assert (Hu : In u (View.cps_id_partition m v gold log (G.cps_id g)
                         (Col.field_name c))) by (rewrite E; now left).
    apply In_cps_id_partition in Hu. destruct Hu as (Hfrom & Hw & Hf).
    apply latest_cps_id_where_holds in Hw. destruct Hw as [Hw _].
    apply In_latest_cps_id_from in Hfrom. destruct Hfrom as [Hin Hfrom].
    destruct (H u Hin) as [E'|[[E' _]|[_ E']]]; try contradiction.
    destruct m; [contradiction|].
    destruct Hfrom as (g' & Hg' & Hd' & Hk'). exact (E' g' Hg' Hd' Hk'). }
  unfold View.column_text, View.column_source. rewrite Hd, Hk.
  simpl. destruct (G.attr g c); split; reflexivity.
Qed.

Lemma column_without_override_is_base_witness :
  View.column_text update_views_for_device_type v_cps_catalog_effective
    Example.gold Example.log_5_9 Example.d3 Col.category = Some "IT".
Proof.
  apply (column_without_override_is_base update_views_for_device_type
           v_cps_catalog_effective Example.gold Example.log_5_9 Example.d3
           Col.category).
  intros u Hu. simpl in Hu.
  destruct Hu as [<-|[<-|[<-|[<-|[]]]]];
    try (left; discriminate).
  right. right. split; [reflexivity|].
  intros g' Hg' Hd. simpl in Hg'.
  destruct Hg' as [<-|[<-|[]]]; [discriminate|discriminate Hd].
Defined.

(** X4.  The validated view does not see unvalidated rows at all: every
    column of [v_cps_catalog_effective_validated] over a log is the column
    over the validated rows of that log; a log without a validated row
    leaves every column at its base value. *)
Theorem validated_view_ignores_unvalidated (m : migration) (gold : list G.t)
    (log : list U.t) (g : G.t) (c : Col.t) :
  View.column_text m v_cps_catalog_effective_validated gold
    (filter U.is_validated log) g c
  = View.column_text m v_cps_catalog_effective_validated gold log g c
  /\ ((forall u, In u log -> U.is_validated u = false) ->
      View.column_text m v_cps_catalog_effective_validated gold log g c
      = G.attr g c).
Proof.
  assert (E : View.column_text m v_cps_catalog_effective_validated gold
                (filter U.is_validated log) g c
              = View.column_text m v_cps_catalog_effective_validated gold
                  log g c).
  { apply column_text_filter.
    - intros u Hu. apply In_device_partition in Hu.
      destruct Hu as (_ & Hw & _).
      apply latest_device_where_holds in Hw. now apply Hw.
    - intros u Hu. apply In_cps_id_partition in Hu.
      destruct Hu as (_ & Hw & _).
      apply latest_cps_id_where_holds in Hw. now apply Hw. }
  split; [exact E|].
  intros H. rewrite <- E, (filter_none _ _ H).
  apply column_text_empty_log.
Qed.

Lemma validated_view_ignores_unvalidated_witness :
  View.column_text update_views_for_device_type
    v_cps_catalog_effective_validated Example.gold Example.log_blank
    Example.d1 Col.vendor
  = Some "Acme".
Proof.
  destruct (validated_view_ignores_unvalidated update_views_for_device_type
              Example.gold Example.log_blank Example.d1 Col.vendor)
    as [_ H].
  apply H. intros u Hu. simpl in Hu.
  destruct Hu as [<-|[<-|[]]]; reflexivity.
Defined.

(* ------------------------------------------------------------------ *)
(** ** A new validated override takes effect *)
(* ------------------------------------------------------------------ *)

Lemma older_row_comes_after (v : view) (e u : U.t) :
  U.is_validated u = true ->
  U.changed_at e <= U.changed_at u ->
  U.id e < U.id u ->
  View.window_order v e u <> Gt -> False.
Proof.
  intros Hv Ht Hi H. destruct v.
  - apply effective_not_after in H. rewrite Hv in H.
    destruct (U.is_validated e); intuition (try discriminate; try lia).
  - apply validated_not_after in H. lia.
Qed.

(** X5.  In every view: a validated override row [u] added to the log with
    an [id] above and a [changed_at] not below those of every row already
    there is the row its window keeps.  As a device-scope row of the
    device it gives the column its value when that is not blank; as a
    cps_id-wide row of the group it is the row kept for the group. *)
Theorem newest_validated_override_is_kept (m : migration) (v : view)
    (gold : list G.t) (log : list U.t) (g : G.t) (c : Col.t) (u : U.t) :
  U.field_name u = Col.field_name c ->
  U.is_validated u = true ->
  (forall e, In e log ->
             U.changed_at e <= U.changed_at u /\ U.id e < U.id u) ->
  (U.apply_for_all u <> Some true ->
   U.device_uuid u = G.device_uuid g ->
   View.latest_device m v (log ++ [u]) g c = Some u
   /\ (U.new_value u <> EmptyString ->
       View.column_text m v gold (log ++ [u]) g c = Some (U.new_value u)))
  /\ (U.apply_for_all u = Some true ->
      match m with
      | update_view_for_apply_for_all => U.cps_id u = G.cps_id g
      | update_views_for_device_type =>
          exists g', In g' gold /\ G.device_uuid g' = U.device_uuid u
                     /\ G.cps_id g' = G.cps_id g
      end ->
      View.latest_cps_id m v gold (log ++ [u]) g c = Some u).
Proof.
  intros Hf Hv Hnew. split.
  - intros Ha Hd.
    assert (Hw : View.latest_device m v (log ++ [u]) g c = Some u).
    { rewrite latest_device_first. apply window_first_strict.
      - apply In_device_partition. repeat split; auto.
        + apply in_or_app. right. now left.
        + apply latest_device_where_holds. auto.
      - intros e He Hle. apply In_device_partition in He.
        destruct He as (Hin & _). apply in_app_or in Hin.
        destruct Hin as [Hin|[<-|[]]]; [exfalso|reflexivity].
        destruct (Hnew e Hin) as [Ht Hi].
        exact (older_row_comes_after v e u Hv Ht Hi Hle). }
    split; [exact Hw|]. intros Hne. now apply column_text_device.
  - intros Ha Hk. rewrite latest_cps_id_first. apply window_first_strict.
    + apply In_cps_id_partition. repeat split; auto.
      * apply In_latest_cps_id_from. split.
        -- apply in_or_app. right. now left.
        -- destruct m; exact Hk.
      * apply latest_cps_id_where_holds. auto.
    + intros e He Hle. apply In_cps_id_partition in He.
      destruct He as (Hfrom & _). apply In_latest_cps_id_from in Hfrom.
      destruct Hfrom as [Hin _]. apply in_app_or in Hin.
      destruct Hin as [Hin|[<-|[]]]; [exfalso|reflexivity].
      destruct (Hnew e Hin) as [Ht Hi].
      exact (older_row_comes_after v e u Hv Ht Hi Hle).
Qed.

Lemma newest_validated_override_is_kept_witness :
  View.column_text update_views_for_device_type
    v_cps_catalog_effective_validated Example.gold
    (Example.log_5_9
     ++ [Example.row 10 "d1" "g1" "vendor" "Acme AG" true 500 (Some false)])
    Example.d1 Col.vendor
  = Some "Acme AG".
Proof.
  destruct (newest_validated_override_is_kept update_views_for_device_type
              v_cps_catalog_effective_validated Example.gold
              Example.log_5_9 Example.d1 Col.vendor
              (Example.row 10 "d1" "g1" "vendor" "Acme AG" true 500
                 (Some false)))
    as [H _].
  - reflexivity.
  - reflexivity.
  - intros e He. simpl in He.
    destruct He as [<-|[<-|[<-|[<-|[]]]]]; simpl; lia.
  - destruct H as [_ H]; [discriminate|reflexivity|].
    apply H. discriminate.
Defined.

(* ------------------------------------------------------------------ *)
(** ** The two migrations against each other *)
(* ------------------------------------------------------------------ *)

Lemma filter_key_unique {A : Type} (key : A -> string) (l : list A) (x : A) :
  NoDup (map key l) -> In x l ->
  filter (fun y => String.eqb (key x) (key y)) l = [x].
Proof.
  induction l as [|a l IH]; intros Hnd Hin; [destruct Hin|].
  simpl in Hnd. inversion Hnd as [|k ks Hnotin Hnd']; subst.
  simpl. destruct Hin as [->|Hin].
  - rewrite String.eqb_refl. f_equal. apply filter_none.
    intros y Hy. apply String.eqb_neq. intros E. apply Hnotin.
    rewrite E. now apply in_map.
  - destruct (String.eqb_spec (key x) (key a)) as [E|_].
    + exfalso. apply Hnotin. rewrite <- E. now apply in_map.
    + now apply IH.
Qed.

Lemma device_partition_migration (v : view) (log : list U.t) (d f : string) :
  View.device_partition update_views_for_device_type v log d f
  = View.device_partition update_view_for_apply_for_all v log d f.
Proof.
  unfold View.device_partition. f_equal. apply filter_ext. intros u.
  destruct v; unfold View.latest_device_where, View.device_scope,
    View.validated;
    destruct (U.apply_for_all u) as [[|]|], (U.is_validated u); reflexivity.
Qed.

Lemma cps_id_partition_migration (v : view) (gold : list G.t)
    (log : list U.t) (k f : string) :
  NoDup (map G.device_uuid gold) ->
  (forall u, In u log -> U.apply_for_all u = Some true ->
     exists g', In g' gold /\ G.device_uuid g' = U.device_uuid u
                /\ G.cps_id g' = U.cps_id u) ->
  View.cps_id_partition update_views_for_device_type v gold log k f
  = View.cps_id_partition update_view_for_apply_for_all v gold log k f.
Proof.
  intros Hkey Hlog.
  assert (Hw : forall r : string * U.t,
             Sql.holds (View.latest_cps_id_where
                          update_views_for_device_type v (snd r))
             = Sql.holds (View.latest_cps_id_where
                            update_view_for_apply_for_all v (snd r))).
  { intros r. destruct v; unfold View.latest_cps_id_where,
      View.cps_id_scope, View.validated;
      destruct (U.apply_for_all (snd r)) as [[|]|],
        (U.is_validated (snd r)); reflexivity. }
  unfold View.cps_id_partition. rewrite (filter_ext _ _ Hw).
  do 2 f_equal. simpl.
  induction log as [|u log IH]; [reflexivity|].
  simpl. rewrite filter_app.
  rewrite IH by (intros; apply Hlog; [now right|assumption]). clear IH.
  rewrite filter_map_swap. simpl.
  destruct (Sql.holds
              (View.latest_cps_id_where update_view_for_apply_for_all v u))
    eqn:E.
  - rewrite (filter_all (fun _ : G.t => true)) by (intros; reflexivity).
    apply latest_cps_id_where_holds in E. destruct E as [E _].
    destruct (Hlog u (or_introl eq_refl) E) as (g' & Hg' & Hd & Hk).
    rewrite <- Hd, (filter_key_unique G.device_uuid gold g' Hkey Hg').
    simpl. now rewrite Hk.
  - rewrite (filter_none (fun _ : G.t => false)) by (intros; reflexivity).
    reflexivity.
Qed.

(** X6.  The views of the two migrations agree as long as the [cps_id]
    stored on each cps_id-wide override is the [cps_id] of its device in
    the gold table: when [device_uuid] is a key of the gold table and every
    override written with [apply_for_all = TRUE] is of a device of the gold
    table with the same [cps_id], every column of every view is the same
    under [update_views_for_device_type] and under
    [update_view_for_apply_for_all]. *)
Theorem migrations_agree (v : view) (gold : list G.t) (log : list U.t)
    (g : G.t) (c : Col.t) :
  NoDup (map G.device_uuid gold) ->
  (forall u, In u log -> U.apply_for_all u = Some true ->
     exists g', In g' gold /\ G.device_uuid g' = U.device_uuid u
                /\ G.cps_id g' = U.cps_id u) ->
  View.column_text update_views_for_device_type v gold log g c
  = View.column_text update_view_for_apply_for_all v gold log g c.
Proof.
  intros Hkey Hlog. unfold View.column_text.
  rewrite !latest_device_first, !latest_cps_id_first.
  rewrite device_partition_migration.
  now rewrite (cps_id_partition_migration v gold log _ _ Hkey Hlog).
Qed.

Lemma migrations_agree_witness :
  View.column_text update_views_for_device_type v_cps_catalog_effective
    Example.gold Example.log_5_9 Example.d1 Col.category
  = View.column_text update_view_for_apply_for_all v_cps_catalog_effective
      Example.gold Example.log_5_9 Example.d1 Col.category.
Proof.
  apply migrations_agree.
  - simpl. repeat constructor; simpl; intuition discriminate.
  - intros u Hu Ha. simpl in Hu.
    destruct Hu as [<-|[<-|[<-|[<-|[]]]]]; try discriminate Ha.
    exists Example.d1. simpl. auto.
Defined.

(** Where they differ: device d1 wrote a cps_id-wide override while in
    product g1 and was then moved to product g9.  The older migration
    still applies the override to g1 (the [cps_id] stored on the row); the
    newer one applies it to g9 (the [cps_id] of d1 in the gold table). *)
Example migrations_differ_after_move :
  let gold := [G.mk "d1" "g9" Example.base_attr; Example.d2] in
  View.column_text update_view_for_apply_for_all v_cps_catalog_effective
    gold Example.log_grp Example.d2 Col.category = Some "OT"
  /\ View.column_text update_views_for_device_type v_cps_catalog_effective
       gold Example.log_grp Example.d2 Col.category = Some "IT".
Proof. split; reflexivity. Qed.

(* ------------------------------------------------------------------ *)
(** ** When a query over a view succeeds *)
(* ------------------------------------------------------------------ *)

Lemma all_ok_Ok_iff {A B : Type} (f : A -> Sql.result B) (l : list A) :
  (exists r, View.all_ok (map f l) = Sql.Ok r)
  <-> forall x, In x l -> exists b, f x = Sql.Ok b.
Proof.
  induction l as [|a l IH]; simpl.
  - split; [intros _ x []|intros _; now exists []].
  - destruct (f a) as [b|e] eqn:Ha.
    + destruct (View.all_ok (map f l)) as [r|e] eqn:Hl.
      * split; [|intros _; now exists (b :: r)].
        intros _ x [<-|Hx]; [now exists b|].
        apply (proj1 IH); [now exists r|exact Hx].
      * split; [intros [r Hr]; discriminate|].
        intros H. destruct (proj2 IH) as [r Hr]; [|discriminate].
        intros x Hx. apply H. now right.
    + split; [intros [r Hr]; discriminate|].
      intros H. destruct (H a (or_introl eq_refl)) as [b Hb]. congruence.
Qed.

Lemma all_ok_length {A : Type} (l : list (Sql.result A)) (r : list A) :
  View.all_ok l = Sql.Ok r -> List.length r = List.length l.
Proof.
  revert r. induction l as [|[a|e] l IH]; simpl; intros r H.
  - now injection H as <-.
  - destruct (View.all_ok l) as [r'|]; [|discriminate].
    injection H as <-. simpl. f_equal. now apply IH.
  - discriminate.
Qed.

(** X7.  In [update_view_for_apply_for_all] the cast of [risk_score] is the
    only thing that can make a query over a view fail: the row of a device
    is returned exactly when the text selected for its [risk_score] casts,
    and [SELECT * FROM] the view returns (one row per row of the gold
    table) exactly when that holds for every device. *)
Theorem query_succeeds_iff_risk_scores_cast
    (cast : option string -> Sql.result (option Z)) (v : view)
    (gold : list G.t) (log : list U.t) :
  let m := update_view_for_apply_for_all in
  (forall g,
      (exists cells, View.select_row cast m v gold log g = Sql.Ok cells)
      <-> exists n,
          cast (View.column_text m v gold log g Col.risk_score) = Sql.Ok n)
  /\ ((exists rows, View.select_all cast m v gold log = Sql.Ok rows)
      <-> forall g, In g gold ->
            exists n,
              cast (View.column_text m v gold log g Col.risk_score)
              = Sql.Ok n)
  /\ forall rows, View.select_all cast m v gold log = Sql.Ok rows ->
                  List.length rows = List.length gold.
Proof.
  intros m.
  assert (Hrow : forall g,
             (exists cells, View.select_row cast m v gold log g = Sql.Ok cells)
             <-> exists n,
                 cast (View.column_text m v gold log g Col.risk_score)
                 = Sql.Ok n).
  { intros g. unfold View.select_row. simpl map.
    unfold View.column_value at 20. simpl Col.is_numeric. cbv iota.
    destruct (cast (View.column_text m v gold log g Col.risk_score))
      as [n|e] eqn:E.
    - split; [intros _; now exists n|intros _].
      unfold View.column_value. simpl. eexists. reflexivity.
    - split; [|intros [n Hn]; discriminate].
      intros [cells H]. unfold View.column_value in H. simpl in H.
      discriminate. }
  split; [exact Hrow|split].
  - unfold View.select_all. rewrite all_ok_Ok_iff.
    split; intros H g Hg; apply Hrow; now apply H.
  - intros rows H. unfold View.select_all in H.
    apply all_ok_length in H. now rewrite length_map in H.
Qed.

Lemma query_succeeds_iff_risk_scores_cast_witness :
  exists rows,
    View.select_all Numeric.numeric_4_1 update_view_for_apply_for_all
      v_cps_catalog_effective Example.gold [Example.risk_grp]
    = Sql.Ok rows.
Proof.
  apply (query_succeeds_iff_risk_scores_cast Numeric.numeric_4_1
           v_cps_catalog_effective Example.gold [Example.risk_grp]).
  intros g [<-|[<-|[]]]; eexists; reflexivity.
Defined.

Lemma all_ok_map_Ok {A B : Type} (f : A -> Sql.result B) (h : A -> B)
    (l : list A) :
  (forall x, f x = Sql.Ok (h x)) ->
  View.all_ok (map f l) = Sql.Ok (map h l).
Proof.
  intros H. induction l as [|a l IH]; simpl; [reflexivity|].
  now rewrite H, IH.
Qed.

(** X8.  The views of [update_views_for_device_type] have no cast: for
    every gold table and log, [SELECT * FROM] either view returns one row
    per row of the gold table, each with the text of its twenty columns,
    whatever the override rows hold. *)
Theorem device_type_views_never_raise
    (cast : option string -> Sql.result (option Z)) (v : view)
    (gold : list G.t) (log : list U.t) :
  let m := update_views_for_device_type in
  View.select_all cast m v gold log
  = Sql.Ok
      (map (fun g =>
              map (fun c => View.text (View.column_text m v gold log g c))
                (View.columns m))
         gold).
Proof.
  intros m. unfold View.select_all. apply all_ok_map_Ok.
  intros g. apply select_row_device_type.
Qed.

(* ================================================================== *)
(** * Properties of the front end *)
(* ================================================================== *)

(* ------------------------------------------------------------------ *)
(** ** Splitting, joining and trimming strings *)
(* ------------------------------------------------------------------ *)

(** A string includes a one-character string when it has that character. *)
Lemma includes_char_cons (c a : ascii) (r : string) :
  Js.includes (String a r) (String c EmptyString)
  = (Ascii.eqb a c || Js.includes r (String c EmptyString))%bool.
Proof.
  simpl. destruct (ascii_dec c a) as [->|Hne].
  - rewrite Ascii.eqb_refl. destruct r; reflexivity.
  - destruct (Ascii.eqb_spec a c) as [->|_]; [contradiction|reflexivity].
Qed.

Lemma includes_char_nil (c : ascii) :
  Js.includes EmptyString (String c EmptyString) = false.
Proof. reflexivity. Qed.

Lemma split_cons_not_nil (sep : ascii) (s : string) : Js.split sep s <> [].
Proof.
  destruct s as [|c r]; simpl; [discriminate|].
  destruct (Ascii.eqb c sep); [discriminate|].
  destruct (Js.split sep r); discriminate.
Qed.

Lemma split_without_sep (sep : ascii) (s : string) :
  Js.includes s (String sep EmptyString) = false -> Js.split sep s = [s].
Proof.
  induction s as [|c r IH]; intros H; [reflexivity|].
  rewrite includes_char_cons in H. apply orb_false_iff in H.
  destruct H as [Hc Hr]. simpl. rewrite Hc, (IH Hr). reflexivity.
Qed.

Lemma split_app_sep (sep : ascii) (x r : string) :
  Js.includes x (String sep EmptyString) = false ->
  Js.split sep (x ++ String sep r)%string = x :: Js.split sep r.
Proof.
  induction x as [|c x IH]; intros H; simpl.
  - now rewrite Ascii.eqb_refl.
  - rewrite includes_char_cons in H. apply orb_false_iff in H.
    destruct H as [Hc Hx]. rewrite Hc, (IH Hx). reflexivity.
Qed.

Lemma trim_after_space (x : string) : Js.trim (String " " x) = Js.trim x.
Proof. reflexivity. Qed.

Lemma trim_truthy (s : string) :
  Js.truthy (Js.trim s) = true -> Js.truthy s = true.
Proof. destruct s; [discriminate|reflexivity]. Qed.

(** [trim] drops the white space of Unicode, not only that of ASCII, and
    nothing else: a no-break space, an ideographic space, a byte order mark
    and the line separators go; a next-line control, a Mongolian vowel
    separator, a zero-width space, a word joiner and an ideographic comma
    stay. *)
Example trim_white_space :
  map (fun code_point =>
         Js.trim (Js.utf8 code_point ++ "a b" ++ Js.utf8 code_point)%string)
    [9; 10; 11; 12; 13; 32; 160; 5760; 8192; 8197; 8202; 8232; 8233; 8239;
     8287; 12288; 65279]%N
  = repeat "a b" 17
  /\ map (fun code_point =>
            String.eqb
              (Js.trim (Js.utf8 code_point ++ "a" ++ Js.utf8 code_point)%string)
              (Js.utf8 code_point ++ "a" ++ Js.utf8 code_point)%string)
       [133; 6158; 8203; 8288; 12289]%N
     = repeat true 5.
Proof. split; reflexivity. Qed.

(** [x.join(', ').split(',')] gives back the strings, each after the first
    with the space in front. *)
Lemma split_join (values : list string) (x : string) :
  (forall v, In v (x :: values) ->
             Js.includes v "," = false) ->
  Js.split "," (Js.join ", " (x :: values))
  = x :: map (String " ") values.
Proof.
  revert x. induction values as [|y values IH]; intros x H.
  - simpl. apply split_without_sep. apply H. now left.
  - change (Js.join ", " (x :: y :: values))
      with (x ++ String "," (String " " (Js.join ", " (y :: values))))%string.
    rewrite split_app_sep by (apply H; now left).
    f_equal.
    change (Js.split "," (String " " (Js.join ", " (y :: values))))
      with (match Js.split "," (Js.join ", " (y :: values)) with
            | h :: t => String " " h :: t
            | [] => [String " " EmptyString]
            end).
    rewrite IH by (intros v Hv; apply H; now right). reflexivity.
Qed.

(** Splitting a joined list at the commas, trimming and dropping the empty
    pieces gives the strings of the list, each trimmed, when they hold no
    comma and are not blank. *)
Lemma split_trim_join (values : list string) :
  (forall v, In v values ->
             Js.includes v "," = false /\ Js.truthy (Js.trim v) = true) ->
  values <> [] ->
  filter Js.truthy (map Js.trim (Js.split "," (Js.join ", " values)))
  = map Js.trim values.
Proof.
  intros H Hne. destruct values as [|x values]; [contradiction|].
  rewrite split_join by (intros v Hv; now apply H).
  assert (E : map Js.trim (x :: map (String " ") values)
              = map Js.trim (x :: values)).
  { simpl. f_equal. rewrite map_map. apply map_ext.
    intros v. apply trim_after_space. }
  rewrite E. apply filter_all. intros v Hv. apply in_map_iff in Hv.
  destruct Hv as (v' & <- & Hv'). now apply H.
Qed.

Lemma map_trim_trimmed (values : list string) :
  (forall v, In v values -> Js.trim v = v) -> map Js.trim values = values.
Proof.
  intros H. rewrite <- (map_id values) at 2. now apply map_ext_in.
Qed.

Lemma join_truthy (values : list string) :
  (forall v, In v values -> Js.truthy (Js.trim v) = true) ->
  values <> [] ->
  Js.truthy (Js.join ", " values) = true.
Proof.
  intros H Hne. destruct values as [|x values]; [contradiction|].
  pose proof (trim_truthy x (H x (or_introl eq_refl))) as Hx.
  destruct x as [|c x]; [discriminate Hx|]. destruct values; reflexivity.
Qed.

(* ------------------------------------------------------------------ *)
(** ** [FieldEditor]: the value of a multiselect *)
(* ------------------------------------------------------------------ *)

(** X9.  What [handleSave] stores for a multiselect is read back by
    [parseMultiselectValue] as the same options, each trimmed: for options
    that hold no comma and are not blank, parsing [value.join(', ')] gives
    the trimmed options, in order, whenever [JSON.parse] does not read the
    joined string as an array.  Options with no white space at their ends
    are thus read back unchanged. *)
Theorem multiselect_round_trip (JSON_parse : string -> option Js.value)
    (value : list string) :
  (forall v, In v value ->
             Js.includes v "," = false /\ Js.truthy (Js.trim v) = true) ->
  (forall parsed,
      JSON_parse (FieldEditor.multiselect_valueToSave value)
      <> Some (Js.JArray parsed)) ->
  FieldEditor.parseMultiselectValue JSON_parse
    (Some (FieldEditor.multiselect_valueToSave value))
  = map Js.JString (map Js.trim value)
  /\ ((forall v, In v value -> Js.trim v = v) ->
      FieldEditor.parseMultiselectValue JSON_parse
        (Some (FieldEditor.multiselect_valueToSave value))
      = map Js.JString value).
Proof.
  intros H Hparse.
  assert (Hread : FieldEditor.parseMultiselectValue JSON_parse
                    (Some (FieldEditor.multiselect_valueToSave value))
                  = map Js.JString (map Js.trim value)).
  { unfold FieldEditor.parseMultiselectValue.
    destruct value as [|x value]; [reflexivity|].
    assert (Ht : Js.truthy
                   (FieldEditor.multiselect_valueToSave (x :: value)) = true).
    { apply join_truthy; [|discriminate]. intros v Hv. now apply H. }
    rewrite Ht. simpl negb. cbv iota.
    assert (E : filter Js.truthy
                  (map Js.trim
                     (Js.split ","
                        (FieldEditor.multiselect_valueToSave (x :: value))))
                = map Js.trim (x :: value))
      by (apply split_trim_join; [exact H|discriminate]).
    destruct (JSON_parse (FieldEditor.multiselect_valueToSave (x :: value)))
      as [[| | | | |parsed|]|] eqn:Ep; try now rewrite E.
    exfalso. exact (Hparse parsed eq_refl). }
  split; [exact Hread|].
  intros Htrim. now rewrite Hread, map_trim_trimmed.
Qed.

Lemma multiselect_round_trip_witness :
  FieldEditor.parseMultiselectValue (fun _ => None)
    (Some (FieldEditor.multiselect_valueToSave ["Nested"; "Ethernet"]))
  = [Js.JString "Nested"; Js.JString "Ethernet"]
  /\ FieldEditor.parseMultiselectValue (fun _ => None)
       (Some
          (FieldEditor.multiselect_valueToSave
             [("Nested" ++ Js.utf8 160)%string; " Ethernet"]))
     = [Js.JString "Nested"; Js.JString "Ethernet"].
Proof.
  split.
  - apply (multiselect_round_trip (fun _ => None) ["Nested"; "Ethernet"]).
    + intros v [<-|[<-|[]]]; split; reflexivity.
    + intros parsed. discriminate.
    + intros v [<-|[<-|[]]]; reflexivity.
  - apply (multiselect_round_trip (fun _ => None)
             [("Nested" ++ Js.utf8 160)%string; " Ethernet"]).
    + intros v [<-|[<-|[]]]; split; reflexivity.
    + intros parsed. discriminate.
Defined.

(** No value, or the empty string, is no option at all. *)
Example parseMultiselectValue_empty (JSON_parse : string -> option Js.value) :
  FieldEditor.parseMultiselectValue JSON_parse None = []
  /\ FieldEditor.parseMultiselectValue JSON_parse (Some EmptyString) = [].
Proof. split; reflexivity. Qed.

(* ------------------------------------------------------------------ *)
(** ** [CVETable]: loading and saving the rows *)
(* ------------------------------------------------------------------ *)

Lemma map_parsed_as_value (items : list CVETable.item) :
  (forall i, In i items ->
             exists c r, i = {| CVETable.cve := Js.JString c;
                                CVETable.relevance := Js.JString r |}) ->
  CVETable.map_parsed
    (map (fun i => Js.JObject [("cve", CVETable.cve i);
                               ("relevance", CVETable.relevance i)]) items)
  = Some items.
Proof.
  induction items as [|i items IH]; intros H; [reflexivity|].
  simpl map. simpl CVETable.map_parsed.
  rewrite IH by (intros; apply H; now right).
  destruct (H i (or_introl eq_refl)) as (c & r & ->).
  unfold CVETable.of_parsed. simpl.
  unfold Js.or_else. simpl.
  destruct c, r; reflexivity.
Qed.

Lemma saved_items_strings (items kept : list CVETable.item) :
  CVETable.saved_items items = Some kept ->
  forall i, In i kept ->
            In i items /\ CVETable.to_save i = Some true.
Proof.
  revert kept. induction items as [|a items IH]; simpl; intros kept H i Hi.
  - injection H as <-. destruct Hi.
  - destruct (CVETable.to_save a) as [keep|] eqn:Ea; [|discriminate].
    destruct (CVETable.saved_items items) as [r|]; [|discriminate].
    injection H as <-. destruct keep.
    + destruct Hi as [<-|Hi]; [auto|].
      destruct (IH r eq_refl i Hi). auto.
    + destruct (IH r eq_refl i Hi). auto.
Qed.

(** X10.  What [handleSave] of [CVETable] stores is read back by
    [parseValue] as the rows it saved: when the relevance of every row is a
    string, [handleSave] does not throw, and whenever [JSON.parse] inverts
    [JSON.stringify] on the saved rows (and the stringified value is not
    the empty string), [parseValue(valueToSave)] is exactly the rows kept
    by the filter of [handleSave]. *)
Theorem cve_table_round_trip (JSON_parse : string -> option Js.value)
    (JSON_stringify : list CVETable.item -> string)
    (items : list CVETable.item) :
  (forall i, In i items ->
             exists c r, i = {| CVETable.cve := Js.JString c;
                                CVETable.relevance := Js.JString r |}) ->
  exists kept,
    CVETable.saved_items items = Some kept
    /\ CVETable.valueToSave JSON_stringify items
       = Some (JSON_stringify kept)
    /\ (Js.truthy (JSON_stringify kept) = true ->
        JSON_parse (JSON_stringify kept) = Some (CVETable.as_value kept) ->
        CVETable.parseValue JSON_parse (Some (JSON_stringify kept)) = kept).
Proof.
  intros H.
  assert (Hs : exists kept, CVETable.saved_items items = Some kept).
  { induction items as [|a items IH]; [now exists []|].
    destruct IH as [r Hr]; [intros; apply H; now right|].
    destruct (H a (or_introl eq_refl)) as (c & rv & ->).
    simpl. rewrite Hr. unfold CVETable.to_save. simpl. eauto. }
  destruct Hs as [kept Hk]. exists kept. split; [exact Hk|split].
  - unfold CVETable.valueToSave. now rewrite Hk.
  - intros Ht Hp. unfold CVETable.parseValue. rewrite Ht, Hp. simpl.
    rewrite map_parsed_as_value.
    + apply filter_all. intros i Hi.
      destruct (saved_items_strings items kept Hk i Hi) as [Hin Hsave].
      destruct (H i Hin) as (c & r & ->).
      unfold CVETable.to_save in Hsave. simpl in Hsave.
      injection Hsave as Hsave. unfold CVETable.either_truthy. simpl.
      apply orb_true_iff in Hsave. apply orb_true_iff.
      destruct Hsave as [Hc|Hr]; [left; now apply trim_truthy|now right].
    + intros i Hi. apply H.
      now destruct (saved_items_strings items kept Hk i Hi).
Qed.

Lemma cve_table_round_trip_witness :
  CVETable.valueToSave Example.cve_stringify
    [Example.cve_row; Example.cve_blank_row]
  = Some Example.cve_json
  /\ CVETable.parseValue Example.cve_parse (Some Example.cve_json)
     = [Example.cve_row].
Proof.
  destruct (cve_table_round_trip Example.cve_parse Example.cve_stringify
              [Example.cve_row; Example.cve_blank_row])
    as (kept & Hk & Hv & H).
  - intros i [<-|[<-|[]]]; do 2 eexists; reflexivity.
  - injection Hk as <-. split; [exact Hv|]. apply H; reflexivity.
Defined.

(** X11.  The legacy format: a value that [JSON.parse] rejects is read as
    identifiers separated by commas.  For identifiers that hold no comma
    and are not blank, the rows read from their list joined with [", "] are
    one row per identifier, in order, with the identifier trimmed and an
    empty relevance.  Identifiers with no white space at their ends are
    thus read unchanged. *)
Theorem cve_table_legacy (JSON_parse : string -> option Js.value)
    (ids : list string) :
  (forall v, In v ids ->
             Js.includes v "," = false /\ Js.truthy (Js.trim v) = true) ->
  ids <> [] ->
  JSON_parse (Js.join ", " ids) = None ->
  CVETable.parseValue JSON_parse (Some (Js.join ", " ids))
  = map (fun c => {| CVETable.cve := Js.JString (Js.trim c);
                     CVETable.relevance := Js.JString EmptyString |}) ids
  /\ ((forall v, In v ids -> Js.trim v = v) ->
      CVETable.parseValue JSON_parse (Some (Js.join ", " ids))
      = map (fun c => {| CVETable.cve := Js.JString c;
                         CVETable.relevance := Js.JString EmptyString |}) ids).
Proof.
  intros H Hne Hp.
  assert (Hread : CVETable.parseValue JSON_parse (Some (Js.join ", " ids))
                  = map (fun c =>
                           {| CVETable.cve := Js.JString c;
                              CVETable.relevance := Js.JString EmptyString |})
                      (map Js.trim ids)).
  { unfold CVETable.parseValue. rewrite Hp.
    rewrite join_truthy by (try exact Hne; intros v Hv; now apply H).
    simpl negb. cbv iota. unfold CVETable.legacy.
    rewrite <- (split_trim_join ids H Hne).
    generalize (Js.split "," (Js.join ", " ids)). intros pieces.
    induction pieces as [|p pieces IH]; [reflexivity|].
    simpl. destruct (Js.truthy (Js.trim p)); simpl; now rewrite IH. }
  split.
  - rewrite Hread. apply map_map.
  - intros Htrim. now rewrite Hread, map_trim_trimmed.
Qed.

Lemma cve_table_legacy_witness :
  CVETable.parseValue (fun _ => None)
    (Some (Js.join ", " ["CVE-2023-1"; ("CVE-2023-2" ++ Js.utf8 160)%string]))
  = [{| CVETable.cve := Js.JString "CVE-2023-1";
        CVETable.relevance := Js.JString EmptyString |};
     {| CVETable.cve := Js.JString "CVE-2023-2";
        CVETable.relevance := Js.JString EmptyString |}].
Proof.
  apply (cve_table_legacy (fun _ => None)
           ["CVE-2023-1"; ("CVE-2023-2" ++ Js.utf8 160)%string]).
  - intros v [<-|[<-|[]]]; split; reflexivity.
  - discriminate.
  - reflexivity.
Defined.

Lemma saved_items_app_blank (items : list CVETable.item) :
  CVETable.saved_items (CVETable.addRow items) = CVETable.saved_items items.
Proof.
  unfold CVETable.addRow.
  induction items as [|i items IH]; simpl; [reflexivity|].
  now rewrite IH.
Qed.

Lemma remove_at_length_app {A : Type} (l : list A) (x : A) :
  Js.remove_at (List.length l) (l ++ [x]) = l.
Proof.
  induction l as [|a l IH]; simpl; [reflexivity|]. now rewrite IH.
Qed.

(** X12.  A row added to the table of CVEs and left blank is not saved:
    [handleSave] stores the same value with and without it (and throws in
    the same cases); removing the added row gives the table back. *)
Theorem cve_table_blank_row_not_saved
    (JSON_stringify : list CVETable.item -> string)
    (items : list CVETable.item) :
  CVETable.valueToSave JSON_stringify (CVETable.addRow items)
  = CVETable.valueToSave JSON_stringify items
  /\ CVETable.removeRow (List.length items) (CVETable.addRow items) = items.
Proof.
  split.
  - unfold CVETable.valueToSave. now rewrite saved_items_app_blank.
  - apply remove_at_length_app.
Qed.

Lemma set_at_length {A : Type} (i : nat) (x : A) (l : list A) :
  List.length (Js.set_at i x l) = List.length l.
Proof.
  revert i. induction l as [|a l IH]; intros [|i]; simpl; auto.
Qed.

Lemma set_at_nth_error {A : Type} (i j : nat) (x : A) (l : list A) :
  (i < List.length l)%nat ->
  nth_error (Js.set_at i x l) j
  = if Nat.eqb j i then Some x else nth_error l j.
Proof.
  revert i j. induction l as [|a l IH]; intros i j Hi; [inversion Hi|].
  destruct i as [|i], j as [|j]; simpl; try reflexivity.
  apply IH. simpl in Hi. lia.
Qed.

(** X13.  [updateItem(index, field, value)] on a row of the table changes
    that field of that row and nothing else: the table keeps its length,
    the row at [index] has the new string in the field and its other field
    as before, and every other row is as before. *)
Theorem cve_table_updateItem (index : nat) (f : CVETable.field) (x : string)
    (items : list CVETable.item) :
  (index < List.length items)%nat ->
  exists old items',
    nth_error items index = Some old
    /\ CVETable.updateItem index f x items = Some items'
    /\ List.length items' = List.length items
    /\ nth_error items' index = Some (CVETable.with_field f x old)
    /\ (match f with
        | CVETable.field_cve =>
            CVETable.cve (CVETable.with_field f x old) = Js.JString x
            /\ CVETable.relevance (CVETable.with_field f x old)
               = CVETable.relevance old
        | CVETable.field_relevance =>
            CVETable.relevance (CVETable.with_field f x old) = Js.JString x
            /\ CVETable.cve (CVETable.with_field f x old) = CVETable.cve old
        end)
    /\ forall j, j <> index -> nth_error items' j = nth_error items j.
Proof.
  intros Hi. destruct (nth_error items index) as [old|] eqn:E.
  - exists old, (Js.set_at index (CVETable.with_field f x old) items).
    split; [reflexivity|]. split.
    { unfold CVETable.updateItem. now rewrite E. }
    split; [apply set_at_length|]. split.
    { rewrite set_at_nth_error by exact Hi. now rewrite Nat.eqb_refl. }
    split; [destruct f; split; reflexivity|].
    intros j Hj. rewrite set_at_nth_error by exact Hi.
    destruct (Nat.eqb_spec j index); [contradiction|reflexivity].
  - apply nth_error_None in E. lia.
Qed.

Lemma cve_table_updateItem_witness :
  CVETable.updateItem 1 CVETable.field_cve "CVE-2024-0002"
    [Example.cve_row; Example.cve_blank_row]
  = Some [Example.cve_row;
          {| CVETable.cve := Js.JString "CVE-2024-0002";
             CVETable.relevance := Js.JString EmptyString |}].
Proof.
  destruct (cve_table_updateItem 1 CVETable.field_cve "CVE-2024-0002"
              [Example.cve_row; Example.cve_blank_row])
    as (old & items' & Hold & Hup & _).
  - simpl. lia.
  - injection Hold as <-. rewrite Hup. f_equal.
    unfold CVETable.updateItem in Hup. simpl in Hup. now injection Hup as <-.
Defined.

(* ------------------------------------------------------------------ *)
(** ** [FieldEditor]: dates *)
(* ------------------------------------------------------------------ *)

Lemma hd_split_without_sep (sep : ascii) (s : string) :
  Js.includes (hd EmptyString (Js.split sep s)) (String sep EmptyString)
  = false.
Proof.
  induction s as [|c r IH]; [reflexivity|].
  simpl Js.split. destruct (Ascii.eqb c sep) eqn:Ec; [reflexivity|].
  destruct (Js.split sep r) as [|h t] eqn:Er.
  - simpl hd. rewrite includes_char_cons, Ec. reflexivity.
  - simpl hd in *. rewrite includes_char_cons, Ec. exact IH.
Qed.

Lemma includes_app_sep (sep : ascii) (x r : string) :
  Js.includes (x ++ String sep r)%string (String sep EmptyString) = true.
Proof.
  induction x as [|c x IH].
  - simpl append. rewrite includes_char_cons, Ascii.eqb_refl. reflexivity.
  - simpl append. rewrite includes_char_cons, IH. apply orb_true_r.
Qed.

Lemma truthy_app (x y : string) :
  Js.truthy y = true -> Js.truthy (x ++ y)%string = true.
Proof. destruct x; [auto|reflexivity]. Qed.

(** X14.  [formatDateValue]: the value given to a date input never holds
    the time separator [T]; a date without [T] turned into a
    [datetime-local] value and back into a date is the date itself; and
    formatting twice for the same input type is formatting once. *)
Theorem formatDateValue_round_trip (val inputType : string) :
  Js.includes (FieldEditor.formatDateValue val "date") "T" = false
  /\ (Js.includes val "T" = false ->
      FieldEditor.formatDateValue
        (FieldEditor.formatDateValue val "datetime-local") "date" = val)
  /\ FieldEditor.formatDateValue
       (FieldEditor.formatDateValue val inputType) inputType
     = FieldEditor.formatDateValue val inputType.
Proof.
  assert (Hdate : Js.includes (FieldEditor.formatDateValue val "date") "T"
                  = false).
  { unfold FieldEditor.formatDateValue. simpl String.eqb.
    destruct (Js.truthy val); simpl negb; cbv iota; [|reflexivity].
    destruct (Js.includes val "T") eqn:E; simpl andb; cbv iota.
    - apply hd_split_without_sep.
    - exact E. }
  assert (Hlocal : Js.includes val "T" = false ->
                   FieldEditor.formatDateValue val "datetime-local"
                   = if Js.truthy val then (val ++ "T00:00")%string
                     else EmptyString).
  { intros E. unfold FieldEditor.formatDateValue. simpl String.eqb.
    rewrite E. destruct (Js.truthy val); reflexivity. }
  split; [exact Hdate|split].
  - intros E. rewrite (Hlocal E).
    destruct (Js.truthy val) eqn:Ht.
    + unfold FieldEditor.formatDateValue. simpl String.eqb.
      rewrite truthy_app by reflexivity. simpl negb. cbv iota.
      rewrite includes_app_sep. simpl andb. cbv iota.
      rewrite split_app_sep by exact E. reflexivity.
    + destruct val; [reflexivity|discriminate Ht].
  - destruct (Js.truthy val) eqn:Ht.
    2: { destruct val; [reflexivity|discriminate Ht]. }
    assert (Hno : forall x t, Js.truthy x = true ->
                    (String.eqb t "date" && Js.includes x "T" = false)%bool ->
                    (String.eqb t "datetime-local" && Js.truthy x
                     && negb (Js.includes x "T") = false)%bool ->
                    FieldEditor.formatDateValue x t = x).
    { intros x t Hx H1 H2. unfold FieldEditor.formatDateValue.
      now rewrite H1, H2, Hx. }
    destruct (String.eqb inputType "date") eqn:Ed.
    + apply String.eqb_eq in Ed. subst inputType.
      destruct (Js.includes val "T") eqn:E.
      * assert (Ei : FieldEditor.formatDateValue val "date"
                     = hd EmptyString (Js.split "T" val)).
        { unfold FieldEditor.formatDateValue. now rewrite Ht, E. }
        rewrite Ei.
        destruct (Js.truthy (hd EmptyString (Js.split "T" val))) eqn:Hh.
        -- apply Hno; [exact Hh| |reflexivity].
           now rewrite hd_split_without_sep.
        -- destruct (hd EmptyString (Js.split "T" val));
             [reflexivity|discriminate Hh].
      * rewrite (Hno val "date" Ht); [|now rewrite E|reflexivity].
        apply Hno; [exact Ht|now rewrite E|reflexivity].
    + destruct (String.eqb inputType "datetime-local") eqn:El.
      * destruct (Js.includes val "T") eqn:E.
        -- rewrite (Hno val inputType Ht);
             [|now rewrite Ed|now rewrite El, Ht, E].
           apply Hno; [exact Ht|now rewrite Ed|now rewrite El, Ht, E].
        -- assert (Ei : FieldEditor.formatDateValue val inputType
                        = (val ++ "T00:00")%string).
           { unfold FieldEditor.formatDateValue.
             now rewrite Ht, Ed, El, E. }
           rewrite Ei. apply Hno.
           ++ now apply truthy_app.
           ++ now rewrite Ed.
           ++ rewrite includes_app_sep. apply andb_false_r.
      * rewrite (Hno val inputType Ht); [|now rewrite Ed|now rewrite El].
        apply Hno; [exact Ht|now rewrite Ed|now rewrite El].
Qed.

Lemma formatDateValue_round_trip_witness :
  FieldEditor.formatDateValue
    (FieldEditor.formatDateValue "2024-05-01" "datetime-local") "date"
  = "2024-05-01".
Proof.
  destruct (formatDateValue_round_trip "2024-05-01" "date") as (_ & H & _).
  apply H. reflexivity.
Defined.

(* ------------------------------------------------------------------ *)
(** ** [DeviceDetails]: the fields shown *)
(* ------------------------------------------------------------------ *)

Lemma array_includes_In (a : list string) (x : string) :
  Js.array_includes a x = true <-> In x a.
Proof.
  unfold Js.array_includes. rewrite existsb_exists. split.
  - intros (y & Hy & E). apply String.eqb_eq in E. now subst.
  - intros H. exists x. split; [exact H|apply String.eqb_refl].
Qed.

Lemma array_includes_not_In (a : list string) (x : string) :
  Js.array_includes a x = false <-> ~ In x a.
Proof.
  rewrite <- array_includes_In.
  destruct (Js.array_includes a x); split; intros H.
  - discriminate H.
  - exfalso. now apply H.
  - discriminate.
  - reflexivity.
Qed.

Lemma Permutation_insert {A : Type} (cmp : A -> A -> comparison) (a : A)
    (l : list A) :
  Permutation (Sql.insert cmp a l) (a :: l).
Proof.
  induction l as [|b l IH]; simpl; [apply Permutation_refl|].
  destruct (cmp a b); try apply Permutation_refl.
  eapply Permutation_trans; [apply perm_skip, IH|apply perm_swap].
Qed.

Lemma Permutation_order_by {A : Type} (cmp : A -> A -> comparison)
    (l : list A) :
  Permutation (Sql.order_by cmp l) l.
Proof.
  induction l as [|a l IH]; simpl; [constructor|].
  eapply Permutation_trans; [apply Permutation_insert|now constructor].
Qed.

(** X15.  The device page renders every field of the device exactly once,
    except the hidden ones: a field is in [sortedFields] exactly when it is
    a key of the device other than [created_at], [updated_at],
    [device_uuid], [needs_vendor] and [risk_score]; and, the keys of an
    object being distinct, no field is rendered twice. *)
Theorem sortedFields_each_visible_field_once (keys : list string) :
  (forall f,
      In f (DeviceDetails.sortedFields keys)
      <-> In f keys
          /\ ~ In f ["created_at"; "updated_at"; "device_uuid";
                     "needs_vendor"; "risk_score"])
  /\ (NoDup keys -> NoDup (DeviceDetails.sortedFields keys)).
Proof.
  assert (Hdev : forall f,
             In f (DeviceDetails.deviceFields keys)
             <-> In f keys
                 /\ ~ In f ["created_at"; "updated_at"; "device_uuid";
                            "needs_vendor"; "risk_score"]).
  { intros f. unfold DeviceDetails.deviceFields.
    rewrite filter_In, negb_true_iff, array_includes_not_In. reflexivity. }
  assert (Hblack : forall f,
             ~ In f ["created_at"; "updated_at"; "device_uuid";
                     "needs_vendor"; "risk_score"] ->
             Js.array_includes DeviceDetails.BLACKLISTED_FIELDS f = false).
  { intros f H. apply array_includes_not_In. intros Hin. apply H.
    simpl in Hin. simpl. tauto. }
  split.
  - intros f. unfold DeviceDetails.sortedFields, Js.sort.
    rewrite in_app_iff, In_order_by, !filter_In.
    rewrite !andb_true_iff, !negb_true_iff, array_includes_In.
    rewrite Hdev. split.
    + intros [(_ & H & _)|(H & _)]; exact H.
    + intros H.
      destruct (Js.array_includes DeviceDetails.PRIORITY_FIELDS f) eqn:E.
      * left. apply array_includes_In in E.
        repeat split; try tauto. apply Hblack. tauto.
      * right. repeat split; try tauto. apply Hblack. tauto.
  - intros Hnd. unfold DeviceDetails.sortedFields, Js.sort.
    apply NoDup_app.
    + apply NoDup_filter. unfold DeviceDetails.PRIORITY_FIELDS.
      repeat constructor; simpl; intuition discriminate.
    + apply (Permutation_NoDup
               (Permutation_sym (Permutation_order_by String.compare _))).
      apply NoDup_filter. unfold DeviceDetails.deviceFields.
      now apply NoDup_filter.
    + intros f H1 H2. apply filter_In in H1. destruct H1 as [H1 _].
      apply In_order_by, filter_In in H2. destruct H2 as [_ H2].
      apply andb_true_iff in H2. destruct H2 as [H2 _].
      apply negb_true_iff, array_includes_not_In in H2. contradiction.
Qed.

Lemma sortedFields_each_visible_field_once_witness :
  NoDup
    (DeviceDetails.sortedFields
       ["device_uuid"; "cps_id"; "vendor"; "risk_score"; "links";
        "updated_at"; "zone"; "category"]).
Proof.
  apply (sortedFields_each_visible_field_once
           ["device_uuid"; "cps_id"; "vendor"; "risk_score"; "links";
            "updated_at"; "zone"; "category"]).
  repeat constructor; simpl; intuition discriminate.
Defined.

Example sortedFields_example :
  DeviceDetails.sortedFields
    ["device_uuid"; "zone"; "cps_id"; "vendor"; "risk_score"; "links";
     "updated_at"; "asset_tag"; "category"]
  = ["vendor"; "cps_id"; "category"; "links"; "asset_tag"; "zone"].
Proof. reflexivity. Qed.

(* ------------------------------------------------------------------ *)
(** ** [ChangesLog]: applying the filters again *)
(* ------------------------------------------------------------------ *)

(** X16.  [applyFilters] is idempotent: applied to the list it produced,
    with the same filters, it gives that list again.  With no date range
    and empty filters it shows the first 30 entries it is given. *)
Theorem applyFilters_idempotent (setHours : Z -> Z)
    (toLowerCase : string -> string)
    (dateRange : ChangesLog.date_range) (filters : ChangesLog.filter_state)
    (data : list ChangesLog.change) :
  ChangesLog.applyFilters setHours toLowerCase dateRange filters
    (ChangesLog.applyFilters setHours toLowerCase dateRange filters data)
  = ChangesLog.applyFilters setHours toLowerCase dateRange filters data
  /\ (ChangesLog.from dateRange = None ->
      ChangesLog.to dateRange = None ->
      ChangesLog.editor filters = EmptyString ->
      ChangesLog.f_field_name filters = EmptyString ->
      ChangesLog.f_vendor filters = EmptyString ->
      ChangesLog.f_apply_for_all filters = None ->
      ChangesLog.applyFilters setHours toLowerCase dateRange filters data
      = firstn 30 data).
Proof.
  split.
  - rewrite !applyFilters_matches.
    rewrite (filter_all _ (firstn 30 _)).
    + rewrite firstn_firstn. reflexivity.
    + intros c Hc. apply In_firstn, filter_In in Hc. tauto.
  - intros H1 H2 H3 H4 H5 H6. unfold ChangesLog.applyFilters.
    rewrite H1, H2, H3, H4, H5, H6. reflexivity.
Qed.

Lemma applyFilters_idempotent_witness :
  ChangesLog.applyFilters Example.end_of_day_utc Js.toLowerCase
    Example.no_range
    {| ChangesLog.editor := EmptyString;
       ChangesLog.f_field_name := EmptyString;
       ChangesLog.f_vendor := EmptyString;
       ChangesLog.f_apply_for_all := None |}
    (ChangesLog.getAllChanges Example.gold Example.store_5_9 1000)
  = firstn 30 (ChangesLog.getAllChanges Example.gold Example.store_5_9 1000).
Proof.
  apply applyFilters_idempotent; reflexivity.
Defined.

(* ------------------------------------------------------------------ *)
(** ** [ChangesLog]: the options of the filter drop-downs *)
(* ------------------------------------------------------------------ *)

Lemma In_dedupe (a : list string) (x : string) :
  In x (Js.dedupe a) <-> In x a.
Proof.
  induction a as [|y a IH]; simpl; [tauto|].
  rewrite filter_In, IH, negb_true_iff, String.eqb_neq.
  destruct (string_dec y x); tauto.
Qed.

Lemma NoDup_dedupe (a : list string) : NoDup (Js.dedupe a).
Proof.
  induction a as [|y a IH]; simpl; constructor.
  - rewrite filter_In, negb_true_iff, String.eqb_neq. tauto.
  - now apply NoDup_filter.
Qed.

Lemma string_compare_trans (a b c : string) :
  String.compare a b <> Gt -> String.compare b c <> Gt ->
  String.compare a c <> Gt.
Proof.
  intros Hab Hbc.
  destruct (String.compare a b) eqn:Eab; [| |contradiction].
  - apply String.compare_eq_iff in Eab. now subst.
  - destruct (String.compare b c) eqn:Ebc; [| |contradiction].
    + apply String.compare_eq_iff in Ebc. subst. now rewrite Eab.
    + apply OrderedTypeEx.String_as_OT.cmp_lt in Eab, Ebc.
      pose proof (OrderedTypeEx.String_as_OT.lt_trans _ _ _ Eab Ebc) as H.
      apply OrderedTypeEx.String_as_OT.cmp_lt in H.
      unfold OrderedTypeEx.String_as_OT.cmp in H. now rewrite H.
Qed.

Lemma sort_sorted (a : list string) :
  StronglySorted (fun x y => String.compare x y <> Gt) (Js.sort a).
Proof.
  apply order_by_sorted.
  - intros x y. apply String.compare_antisym.
  - apply string_compare_trans.
Qed.

Lemma prefix_refl (s : string) : String.prefix s s = true.
Proof.
  induction s as [|c s IH]; simpl; [reflexivity|].
  destruct (ascii_dec c c); [exact IH|contradiction].
Qed.

Lemma includes_refl (s : string) : Js.includes s s = true.
Proof.
  destruct s as [|c s]; [reflexivity|].
  change (Js.includes (String c s) (String c s))
    with (String.prefix (String c s) (String c s)
          || Js.includes s (String c s))%bool.
  now rewrite prefix_refl.
Qed.

(** X17.  The options of the editor, field and vendor drop-downs of the
    change log are exactly the non-empty values that occur in the loaded
    changes, each once, in ascending order; and choosing an option keeps
    every change it was taken from. *)
Theorem filter_options (key : ChangesLog.change -> option string)
    (allChanges : list ChangesLog.change) :
  (forall e,
      In e (ChangesLog.unique_values key allChanges)
      <-> e <> EmptyString
          /\ exists c, In c allChanges /\ key c = Some e)
  /\ NoDup (ChangesLog.unique_values key allChanges)
  /\ StronglySorted (fun x y => String.compare x y <> Gt)
       (ChangesLog.unique_values key allChanges)
  /\ forall (toLowerCase : string -> string)
            (filters : ChangesLog.filter_state) (c : ChangesLog.change),
       (ChangesLog.editor_user_name c = Some (ChangesLog.editor filters) ->
        ChangesLog.editor_filter toLowerCase filters c = true)
       /\ (ChangesLog.field_name c = Some (ChangesLog.f_field_name filters) ->
           ChangesLog.field_name_filter toLowerCase filters c = true)
       /\ (ChangesLog.vendor c = Some (ChangesLog.f_vendor filters) ->
           ChangesLog.vendor_filter toLowerCase filters c = true).
Proof.
  split; [|split; [|split]].
  - intros e. unfold ChangesLog.unique_values, Js.sort.
    rewrite In_order_by, In_dedupe, filter_In, in_map_iff. split.
    + intros ((c & E & Hc) & Ht). split.
      * intros ->. discriminate Ht.
      * exists c. split; [exact Hc|].
        destruct (key c) as [k|]; simpl in E; [now subst|].
        subst e. discriminate Ht.
    + intros (Hne & c & Hc & E). split.
      * exists c. rewrite E. auto.
      * unfold Js.truthy. apply negb_true_iff. now apply String.eqb_neq.
  - unfold ChangesLog.unique_values, Js.sort.
    apply (Permutation_NoDup
             (Permutation_sym (Permutation_order_by String.compare _))).
    apply NoDup_dedupe.
  - apply sort_sorted.
  - intros toLowerCase filters c. unfold ChangesLog.editor_filter,
      ChangesLog.field_name_filter, ChangesLog.vendor_filter.
    repeat split; intros ->; apply includes_refl.
Qed.

Lemma filter_options_witness :
  ChangesLog.editor_filter Js.toLowerCase
    {| ChangesLog.editor := "Editor";
       ChangesLog.f_field_name := EmptyString;
       ChangesLog.f_vendor := EmptyString;
       ChangesLog.f_apply_for_all := None |}
    (ChangesLog.to_change Example.gold Example.e5)
  = true.
Proof.
  destruct (filter_options ChangesLog.editor_user_name []) as (_ & _ & _ & H).
  apply H. reflexivity.
Defined.

Example uniqueFields_example :
  ChangesLog.uniqueFields
    (ChangesLog.getAllChanges Example.gold Example.store_5_9 1000)
  = ["category"; "vendor"].
Proof. reflexivity. Qed.

(* ------------------------------------------------------------------ *)
(** ** [App]: the breadcrumb *)
(* ------------------------------------------------------------------ *)

Lemma split_pieces_without_sep (sep : ascii) (s x : string) :
  In x (Js.split sep s) ->
  Js.includes x (String sep EmptyString) = false.
Proof.
  revert x. induction s as [|c r IH]; intros x Hx.
  - destruct Hx as [<-|[]]. reflexivity.
  - simpl in Hx. destruct (Ascii.eqb c sep) eqn:Ec.
    + destruct Hx as [<-|Hx]; [reflexivity|now apply IH].
    + destruct (Js.split sep r) as [|h t] eqn:Er.
      * destruct Hx as [<-|[]]. rewrite includes_char_cons, Ec. reflexivity.
      * destruct Hx as [<-|Hx].
        -- rewrite includes_char_cons, Ec. apply IH. now left.
        -- apply IH. now right.
Qed.

Lemma split_join_sep (sep : ascii) (x : string) (rest : list string) :
  (forall v, In v (x :: rest) ->
             Js.includes v (String sep EmptyString) = false) ->
  Js.split sep (Js.join (String sep EmptyString) (x :: rest)) = x :: rest.
Proof.
  revert x. induction rest as [|y rest IH]; intros x H.
  - simpl. apply split_without_sep. apply H. now left.
  - change (Js.join (String sep EmptyString) (x :: y :: rest))
      with (x ++ String sep (Js.join (String sep EmptyString) (y :: rest)))%string.
    rewrite split_app_sep by (apply H; now left).
    f_equal. apply IH. intros v Hv. apply H. now right.
Qed.

Lemma pathnames_of_joined (segments : list string) :
  (forall v, In v segments ->
             Js.truthy v = true /\ Js.includes v "/" = false) ->
  App.pathnames ("/" ++ Js.join "/" segments) = segments.
Proof.
  intros H. unfold App.pathnames.
  change (Js.split "/" ("/" ++ Js.join "/" segments))
    with (EmptyString :: Js.split "/" (Js.join "/" segments)).
  simpl filter. destruct segments as [|x rest]; [reflexivity|].
  rewrite split_join_sep by (intros v Hv; now apply H).
  apply filter_all. intros v Hv. now apply H.
Qed.

Lemma nth_error_map_index_from {A B : Type} (start : nat)
    (f : A -> nat -> B) (a : list A) (i : nat) :
  nth_error (Js.map_index_from start f a) i
  = option_map (fun x => f x (start + i)%nat) (nth_error a i).
Proof.
  revert start i. induction a as [|x a IH]; intros start [|i]; simpl;
    try reflexivity.
  - now rewrite Nat.add_0_r.
  - rewrite IH. now rewrite Nat.add_succ_r.
Qed.

Lemma length_map_index_from {A B : Type} (start : nat) (f : A -> nat -> B)
    (a : list A) :
  List.length (Js.map_index_from start f a) = List.length a.
Proof.
  revert start. induction a as [|x a IH]; intros start; simpl;
    [reflexivity|]. now rewrite IH.
Qed.

(** X18.  The breadcrumb has one item per non-empty segment of the path.
    The link of the item of a segment leads to the path made of the
    segments up to it: read as a path again it gives exactly those
    segments, so the breadcrumb of the target is the breadcrumb up to that
    item.  Only the item of the last segment is the current page, and an
    item is labelled by its segment unless that is [group], [device] or
    [changes]. *)
Theorem breadcrumb_links (pathname : string) (index : nat) (value : string) :
  nth_error (App.pathnames pathname) index = Some value ->
  exists c,
    nth_error (App.AppBreadcrumb pathname) index = Some c
    /\ App.pathnames (App.to c)
       = firstn (index + 1) (App.pathnames pathname)
    /\ (App.isLast c = true
        <-> index = (List.length (App.pathnames pathname) - 1)%nat)
    /\ App.crumb_label c = App.label value
    /\ List.length (App.AppBreadcrumb pathname)
       = List.length (App.pathnames pathname).
Proof.
  intros Hv.
  exists (App.crumb_of (App.pathnames pathname) value index).
  split; [|split; [|split; [|split]]].
  - unfold App.AppBreadcrumb. rewrite nth_error_map_index_from, Hv.
    reflexivity.
  - simpl App.to. apply pathnames_of_joined.
    intros v Hin. apply In_firstn in Hin. unfold App.pathnames in Hin.
    apply filter_In in Hin. destruct Hin as [Hin Ht].
    split; [exact Ht|]. exact (split_pieces_without_sep "/" pathname v Hin).
  - simpl App.isLast. apply Nat.eqb_eq.
  - reflexivity.
  - apply length_map_index_from.
Qed.

Lemma breadcrumb_links_witness :
  exists c,
    nth_error (App.AppBreadcrumb "/device/d1") 0 = Some c
    /\ App.pathnames (App.to c) = ["device"]
    /\ App.crumb_label c = "Device Details".
Proof.
  destruct (breadcrumb_links "/device/d1" 0 "device" eq_refl)
    as (c & H1 & H2 & _ & H4 & _).
  exists c. split; [exact H1|]. split; [exact H2|exact H4].
Defined.
